(** * hacktv ffmpeg source: packet queue, frame double buffer, input and
      decoder threads, drift correction, stream selection and pull API
      of [src/ffmpeg.c], embedded in Rocq.

    Every C function that runs under a mutex is modelled as one atomic
    step on the fields it touches.  A call that reaches
    [pthread_cond_wait] yields [Wait]: the thread is parked with the
    state it leaves behind, and on wake-up it re-evaluates its loop
    condition.  C [int] is a 32-bit and [int64_t] a 64-bit two's
    complement integer, [size_t] an unsigned 64-bit integer; all are
    values of [Z] with the wrap-around written out.  An integer
    division that C leaves undefined ends the thread that executes
    it. *)

From stdpp Require Import base option list gmap.
From Stdlib Require Import ZArith Lia.

Local Open Scope Z_scope.

(** ** Machine integers *)

Definition INT_MAX : Z := 2147483647.
Definition INT_MIN : Z := -2147483648.
Definition INT64_MAX : Z := 9223372036854775807.
Definition INT64_MIN : Z := -9223372036854775808.

(** Conversion of a mathematical integer to [int]. *)
Definition to_int (x : Z) : Z := (x + 2 ^ 31) mod 2 ^ 32 - 2 ^ 31.

(** Conversion to [int64_t]. *)
Definition to_int64 (x : Z) : Z := (x + 2 ^ 63) mod 2 ^ 64 - 2 ^ 63.

(** Conversion to [size_t] (also the usual arithmetic conversion of a
    negative [int] that meets a [size_t] operand). *)
Definition to_size_t (x : Z) : Z := x mod 2 ^ 64.

Definition in_int (x : Z) : Prop := INT_MIN <= x <= INT_MAX.
Definition in_int64 (x : Z) : Prop := INT64_MIN <= x <= INT64_MAX.

(** C's [a / b] on a signed type whose least value is [lo] is defined
    unless [b] is 0 or the quotient does not fit ([lo / -1]); on both
    the machine raises SIGFPE. *)
Definition div_defined (lo a b : Z) : bool :=
  negb ((b =? 0) || ((a =? lo) && (b =? -1))).

(** The quotient, truncated towards zero; [None] where the division is
    not defined. *)
Definition c_div (lo a b : Z) : option Z :=
  if div_defined lo a b then Some (a ÷ b) else None.

(** [#define MAX_QUEUE_SIZE (15 * 1024 * 1024)] *)
Definition MAX_QUEUE_SIZE : Z := 15 * 1024 * 1024.

(** libavutil's [AV_NOPTS_VALUE], [((int64_t)UINT64_C(0x8000000000000000))]. *)
Definition AV_NOPTS_VALUE : Z := INT64_MIN.

(** [AVRational]: a numerator and a denominator, both [int]. *)
Record AVRational := mkRational { num : Z; den : Z }.

(** ** Outcome of a call that may block on a condition variable *)

Inductive outcome (S A : Type) : Type :=
| Ret (r : A) (s : S)   (* the call returned [r], leaving state [s] *)
| Wait (s : S)          (* parked in [pthread_cond_wait], state [s] *)
| Fault.                (* access through an invalid pointer *)

Arguments Ret {S A} r s.
Arguments Wait {S A} s.
Arguments Fault {S A}.

(** ** Bounded packet queue *)

(** Addresses of heap cells; a nullable pointer is an [option loc]. *)
Abbreviation loc := positive.

(** The fields of [AVPacket] the queue looks at, and the identity of
    its payload buffer. *)
Record AVPacket := mkPacket {
  pkt_data : Z;
  pkt_size : Z;
  pkt_stream_index : Z;
  pkt_pts : Z
}.

Record _packet_queue_item_t := mkItem {
  item_pkt : AVPacket;
  item_next : option loc
}.

Record _packet_queue_t := mkQueue {
  q_length : Z;          (* Number of packets *)
  q_size : Z;            (* Number of bytes used *)
  q_eof : Z;             (* End of stream / file flag *)
  q_abort : Z;           (* Abort flag *)
  q_first : option loc;
  q_last : option loc
}.

(** [&av->video_queue] or [&av->audio_queue]. *)
Inductive queue_id := VideoQ | AudioQ.

(** The part of [av_ffmpeg_t] the queue functions work on, with the
    [malloc] heap of queue items and the log of packets handed to
    [av_packet_unref]. *)
Record av_queues := mkQueues {
  heap : gmap loc _packet_queue_item_t;
  video_queue : _packet_queue_t;
  audio_queue : _packet_queue_t;
  input_stall : Z;
  unreffed : list AVPacket
}.

Definition get_queue (av : av_queues) (i : queue_id) : _packet_queue_t :=
  match i with VideoQ => video_queue av | AudioQ => audio_queue av end.

Definition set_queue (av : av_queues) (i : queue_id) (q : _packet_queue_t)
  : av_queues :=
  match i with
  | VideoQ => mkQueues (heap av) q (audio_queue av) (input_stall av) (unreffed av)
  | AudioQ => mkQueues (heap av) (video_queue av) q (input_stall av) (unreffed av)
  end.

Definition set_heap (av : av_queues) (h : gmap loc _packet_queue_item_t)
  : av_queues :=
  mkQueues h (video_queue av) (audio_queue av) (input_stall av) (unreffed av).

Definition set_input_stall (av : av_queues) (v : Z) : av_queues :=
  mkQueues (heap av) (video_queue av) (audio_queue av) v (unreffed av).

Definition log_unref (av : av_queues) (p : AVPacket) : av_queues :=
  mkQueues (heap av) (video_queue av) (audio_queue av) (input_stall av)
    (unreffed av ++ [p]).

Definition set_length (q : _packet_queue_t) (v : Z) : _packet_queue_t :=
  mkQueue v (q_size q) (q_eof q) (q_abort q) (q_first q) (q_last q).
Definition set_size (q : _packet_queue_t) (v : Z) : _packet_queue_t :=
  mkQueue (q_length q) v (q_eof q) (q_abort q) (q_first q) (q_last q).
Definition set_eof (q : _packet_queue_t) (v : Z) : _packet_queue_t :=
  mkQueue (q_length q) (q_size q) v (q_abort q) (q_first q) (q_last q).
Definition set_abort (q : _packet_queue_t) (v : Z) : _packet_queue_t :=
  mkQueue (q_length q) (q_size q) (q_eof q) v (q_first q) (q_last q).
Definition set_first (q : _packet_queue_t) (p : option loc) : _packet_queue_t :=
  mkQueue (q_length q) (q_size q) (q_eof q) (q_abort q) p (q_last q).
Definition set_last (q : _packet_queue_t) (p : option loc) : _packet_queue_t :=
  mkQueue (q_length q) (q_size q) (q_eof q) (q_abort q) (q_first q) p.

Section PacketQueue.

(** [sizeof(_packet_queue_item_t)]: the fixed per-entry overhead.  Its
    value depends on the libavcodec headers and the ABI. *)
Variable sizeof_item : Z.

(** [malloc(sizeof(_packet_queue_item_t))]: the address it returns when
    the heap of queue items is as given. *)
Variable malloc : gmap loc _packet_queue_item_t -> loc.

(** [_packet_queue_init]: the four counters and flags are cleared, the
    two pointers are left as they are. *)
Definition _packet_queue_init (av : av_queues) (i : queue_id) : av_queues :=
  let q := get_queue av i in
  set_queue av i (set_abort (set_eof (set_size (set_length q 0) 0) 0) 0).

(** The loop [while(q->length--)] of [_packet_queue_flush].  The
    counter wraps as an [int], so from a length [n] the test sees zero
    after [n mod 2^32] rounds: that is the recursion argument, and the
    branch for [O] with a non-zero length is never taken
    ([flush_loop_fuel]).  [None] is a NULL or dangling [q->first]. *)
Fixpoint flush_loop (n : nat) (av : av_queues) (i : queue_id)
  : option av_queues :=
  let q := get_queue av i in
  let q1 := set_length q (to_int (q_length q - 1)) in
  if q_length q =? 0 then Some (set_queue av i q1)
  else
    match n with
    | O => Some (set_queue av i q1)
    | S n' =>
        match q_first q1 with
        | None => None
        | Some p =>
            match heap av !! p with
            | None => None
            | Some it =>
                let av1 := set_queue av i (set_first q1 (item_next it)) in
                let av2 := log_unref av1 (item_pkt it) in
                flush_loop n' (set_heap av2 (delete p (heap av2))) i
            end
        end
    end.

Definition _packet_queue_flush (av : av_queues) (i : queue_id)
  : outcome av_queues Z :=
  match flush_loop (Z.to_nat (q_length (get_queue av i) mod 2 ^ 32)) av i with
  | Some av' => Ret 0 av'
  | None => Fault
  end.

Definition _packet_queue_abort (av : av_queues) (i : queue_id) : av_queues :=
  set_queue av i (set_abort (get_queue av i) 1).

(** The loop condition of [_packet_queue_write]:
    [q->abort == 0 && q->size + pkt->size + sizeof(_packet_queue_item_t) > MAX_QUEUE_SIZE].
    The two [int]s are added as [int]s, the sum is converted to
    [size_t] to meet [sizeof], and so is the constant. *)
Definition write_must_wait (q : _packet_queue_t) (p : AVPacket) : bool :=
  (q_abort q =? 0)
  && (to_size_t MAX_QUEUE_SIZE
      <? to_size_t (to_size_t (to_int (q_size q + pkt_size p)) + sizeof_item)).

(** [q->size += pkt->size + sizeof(_packet_queue_item_t)]: the right
    operand and the sum are [size_t], the result is stored in an [int]. *)
Definition size_after_write (q : _packet_queue_t) (p : AVPacket) : Z :=
  to_int (to_size_t (to_size_t (q_size q)
                     + to_size_t (to_size_t (pkt_size p) + sizeof_item))).

(** [q->size -= pkt->size + sizeof(_packet_queue_item_t)]. *)
Definition size_after_read (q : _packet_queue_t) (p : AVPacket) : Z :=
  to_int (to_size_t (to_size_t (q_size q)
                     - to_size_t (to_size_t (pkt_size p) + sizeof_item))).

(** "Add the item to the end of the queue": the new cell [p] becomes
    [q->first] of an empty queue, and else [q->last->next]; [None] when
    [q->last] does not point to a cell. *)
Definition link_item (h : gmap loc _packet_queue_item_t) (q : _packet_queue_t)
    (p : loc) : option (gmap loc _packet_queue_item_t * _packet_queue_t) :=
  if q_length q =? 0 then Some (h, set_first q (Some p))
  else
    match q_last q with
    | None => None
    | Some l =>
        match h !! l with
        | None => None
        | Some it => Some (<[l := mkItem (item_pkt it) (Some p)]> h, q)
        end
    end.

(** [_packet_queue_write].  [None] is the NULL packet.  [malloc] is
    taken to succeed. *)
Definition _packet_queue_write (av : av_queues) (i : queue_id)
    (pkt : option AVPacket) : outcome av_queues Z :=
  let q := get_queue av i in
  match pkt with
  | None => Ret 0 (set_queue av i (set_eof q 1))
  | Some pk =>
      if write_must_wait q pk then Wait (set_input_stall av 1)
      else
        let av := set_input_stall av 0 in
        if q_abort q =? 1 then Ret (-2) (log_unref av pk)
        else
          let p := malloc (heap av) in
          let h := <[p := mkItem pk None]> (heap av) in
          match link_item h q p with
          | None => Fault
          | Some (h', q') =>
              let q' := set_last q' (Some p) in
              let q' := set_length q' (to_int (q_length q' + 1)) in
              let q' := set_size q' (size_after_write q pk) in
              Ret 0 (set_queue (set_heap av h') i q')
          end
  end.

(** [_packet_queue_read].  The second component of the result is what
    the call stored through [pkt]; [None] when it stored nothing. *)
Definition _packet_queue_read (av : av_queues) (i : queue_id)
  : outcome av_queues (Z * option AVPacket) :=
  let q := get_queue av i in
  if q_length q =? 0 then
    if negb (input_stall av =? 0) then Ret (0, None) av
    else if (q_abort q =? 1) || (q_eof q =? 1) then
      Ret (if q_abort q =? 1 then -2 else -1, None) av
    else Wait av
  else
    match q_first q with
    | None => Fault
    | Some p =>
        match heap av !! p with
        | None => Fault
        | Some it =>
            let q' := set_first q (item_next it) in
            let q' := set_length q' (to_int (q_length q' - 1)) in
            let q' := set_size q' (size_after_read q (item_pkt it)) in
            Ret (0, Some (item_pkt it))
                (set_queue (set_heap av (delete p (heap av))) i q')
        end
    end.

End PacketQueue.

(** ** Single-slot double buffer *)

(** [frame[0]] is the front slot and [frame[1]] the back slot; both
    hold pointers to [AVFrame]s. *)
Record _frame_dbuffer_t := mkDbuffer {
  d_ready : Z;       (* Frame ready flag *)
  d_repeat : Z;      (* Repeat the previous frame *)
  d_abort : Z;       (* Abort flag *)
  d_frame_0 : loc;
  d_frame_1 : loc
}.

(** [_frame_dbuffer_init] once both [av_frame_alloc] calls succeeded
    with [f0] and [f1]. *)
Definition _frame_dbuffer_init (f0 f1 : loc) : _frame_dbuffer_t :=
  mkDbuffer 0 0 0 f0 f1.

Definition _frame_dbuffer_abort (d : _frame_dbuffer_t) : _frame_dbuffer_t :=
  mkDbuffer (d_ready d) (d_repeat d) 1 (d_frame_0 d) (d_frame_1 d).

(** [while(d->ready != 0 && d->abort == 0)] *)
Definition dbuffer_busy (d : _frame_dbuffer_t) : bool :=
  negb (d_ready d =? 0) && (d_abort d =? 0).

Definition _frame_dbuffer_back_buffer (d : _frame_dbuffer_t)
  : outcome _frame_dbuffer_t loc :=
  if dbuffer_busy d then Wait d else Ret (d_frame_1 d) d.

Definition _frame_dbuffer_ready (d : _frame_dbuffer_t) (repeat : Z)
  : outcome _frame_dbuffer_t unit :=
  if dbuffer_busy d then Wait d
  else Ret tt (mkDbuffer 1 repeat (d_abort d) (d_frame_0 d) (d_frame_1 d)).

(** [_frame_dbuffer_flip]; [None] is the NULL it returns on abort. *)
Definition _frame_dbuffer_flip (d : _frame_dbuffer_t)
  : outcome _frame_dbuffer_t (option loc) :=
  if (d_ready d =? 0) && (d_abort d =? 0) then Wait d
  else if negb (d_abort d =? 0) then Ret None d
  else
    let d1 :=
      if d_repeat d =? 0
      then mkDbuffer (d_ready d) (d_repeat d) (d_abort d) (d_frame_1 d) (d_frame_0 d)
      else d in
    Ret (Some (d_frame_0 d1))
        (mkDbuffer 0 (d_repeat d1) (d_abort d1) (d_frame_0 d1) (d_frame_1 d1)).

(** What the producer does with the pointer [_frame_dbuffer_back_buffer]
    gave it: it fills the frame stored there. *)
Definition write_back {F : Type} (mem : gmap loc F) (d : _frame_dbuffer_t)
    (c : F) : gmap loc F :=
  <[d_frame_1 d := c]> mem.

(** ** Worker threads: state and trace *)

(** A worker's body is a function of the part of [av_ffmpeg_t] it
    updates; the calls it makes on its outbound buffer and on the scale
    and resample stages are recorded, in order, in a trace. *)
Definition worker (S E A : Type) : Type := S -> A * S * list E.

Definition wret {S E A} (a : A) : worker S E A := fun s => (a, s, []).

Definition wbind {S E A B} (m : worker S E A) (k : A -> worker S E B)
  : worker S E B :=
  fun s => let '(a, s1, t1) := m s in
           let '(b, s2, t2) := k a s1 in (b, s2, t1 ++ t2).

Definition wget {S E} : worker S E S := fun s => (s, s, []).
Definition wput {S E} (s : S) : worker S E unit := fun _ => (tt, s, []).
Definition emit {S E} (e : E) : worker S E unit := fun s => (tt, s, [e]).

Notation "x <~ m ;; k" := (wbind m (fun x => k))
  (at level 100, m at next level, right associativity).
Notation "m ;;; k" := (wbind m (fun _ => k))
  (at level 100, right associativity).

(** A worker that an undefined integer division can end: SIGFPE ends
    the process, the result is [None], and the state and the trace are
    those reached before the division. *)
Definition fworker (S E A : Type) : Type := S -> option A * S * list E.

Definition fret {S E A} (a : A) : fworker S E A := fun s => (Some a, s, []).

Definition fbind {S E A B} (m : fworker S E A) (k : A -> fworker S E B)
  : fworker S E B :=
  fun s => let '(a, s1, t1) := m s in
           match a with
           | Some a => let '(b, s2, t2) := k a s1 in (b, s2, t1 ++ t2)
           | None => (None, s1, t1)
           end.

(** A step without a division. *)
Definition lift {S E A} (m : worker S E A) : fworker S E A :=
  fun s => let '(a, s1, t) := m s in (Some a, s1, t).

(** The value of an expression that divides. *)
Definition trap {S E A} (o : option A) : fworker S E A := fun s => (o, s, []).

Notation "x <~ m ;;! k" := (fbind m (fun x => k))
  (at level 100, m at next level, right associativity).
Notation "m ;;! k" := (fbind m (fun _ => k))
  (at level 100, right associativity).

(** The fields of [AVFrame] the post-process workers read: [data] holds
    the addresses of the sample planes. *)
Record AVFrame := mkFrame {
  best_effort_timestamp : Z;
  sample_aspect_ratio : AVRational;
  width : Z;
  height : Z;
  nb_samples : Z;
  data : list Z
}.

(** ** Video post-process worker *)

Record video_ctx := mkVideo {
  video_stream_time_base : AVRational;   (* av->video_stream->time_base *)
  video_time_base : AVRational;
  video_start_time : Z;
  out_width : Z;                         (* oframe->width, set at open *)
  out_height : Z;                        (* oframe->height *)
  conf_logo : bool;                      (* av->s->conf.logo *)
  conf_timestamp : bool;                 (* av->s->conf.timestamp *)
  conf_subtitles : bool;                 (* av->s->conf.subtitles *)
  conf_txsubtitles : bool                (* av->s->conf.txsubtitles *)
}.

Definition set_video_start_time (av : video_ctx) (v : Z) : video_ctx :=
  mkVideo (video_stream_time_base av) (video_time_base av) v
    (out_width av) (out_height av) (conf_logo av) (conf_timestamp av)
    (conf_subtitles av) (conf_txsubtitles av).

(** What the worker reads but never writes. *)
Definition video_settings (av : video_ctx)
  : AVRational * AVRational * Z * Z * bool * bool * bool * bool :=
  (video_stream_time_base av, video_time_base av, out_width av, out_height av,
   conf_logo av, conf_timestamp av, conf_subtitles av, conf_txsubtitles av).

Inductive video_event :=
| VUnref                   (* av_frame_unref(frame) of a skipped frame *)
| VPublish (repeat : Z)    (* _frame_dbuffer_ready(&av->out_video_buffer, repeat) *)
| VBackBuffer              (* _frame_dbuffer_back_buffer(&av->out_video_buffer) *)
| VScale (f : AVFrame)     (* sws_scale of [f] into the back buffer *)
| VReduce (n d : Z)        (* av_reduce(&oframe->sar.num, &oframe->sar.den, n, d, INT_MAX) *)
| VLogo                    (* overlay_image of the logo *)
| VTimestamp (h m s : Z)   (* print_generic_text of "hh:mm:ss" *)
| VTextSubtitle (ms : Z)   (* get_text_subtitle(av->s->av_sub, ms); its text is
                              printed and sent to teletext *)
| VBitmapSubtitle (pts : Z)  (* get_bitmap_subtitle(av->s->av_sub, pts, &w, &h);
                                its bitmap is drawn *)
| VRelease                 (* av_frame_unref(frame) after scaling *)
| VAbort.                  (* _frame_dbuffer_abort(&av->out_video_buffer) *)

(** The ratio the scaler goes on with: the frame's, or 1:1
    "if the ratio looks odd". *)
Definition video_ratio (frame : AVFrame) : AVRational :=
  let ratio := sample_aspect_ratio frame in
  if (num ratio =? 0) || (den ratio =? 0) then mkRational 1 1 else ratio.

(** The two products handed to [av_reduce], computed in [int]. *)
Definition video_reduce_args (av : video_ctx) (frame : AVFrame) : Z * Z :=
  let ratio := video_ratio frame in
  (to_int (to_int (width frame * num ratio) * out_height av),
   to_int (to_int (height frame * den ratio) * out_width av)).

(** The hours, minutes and seconds the timestamp overlay prints:
    [sec = best_effort_timestamp / (time_base.den / time_base.num)],
    the inner division in [int], the outer one in [int64_t], its
    quotient stored in an [int]. *)
Definition video_timestamp (av : video_ctx) (frame : AVFrame)
  : option (Z * Z * Z) :=
  let tb := video_stream_time_base av in
  match c_div INT_MIN (den tb) (num tb) with
  | None => None
  | Some ticks =>
      match c_div INT64_MIN (best_effort_timestamp frame) ticks with
      | None => None
      | Some q =>
          let sec := to_int q in
          let h := sec ÷ 3600 in
          let m := (sec - 3600 * h) ÷ 60 in
          let s := sec - 3600 * h - m * 60 in
          Some (h, m, s)
      end
  end.

(** The position at which a text subtitle is looked up:
    [best_effort_timestamp / (time_base.den / 1000)]. *)
Definition video_subtitle_time (av : video_ctx) (frame : AVFrame) : option Z :=
  c_div INT64_MIN (best_effort_timestamp frame)
    (den (video_stream_time_base av) ÷ 1000).

(** The divisions that the overlay hooks execute for [frame] are
    defined.  The timestamp overlay divides when it is enabled; the
    subtitle hook divides when subtitles are enabled and [text] holds,
    that is, [get_subtitle_type] answers [SUB_TEXT]. *)
Definition video_hooks_defined (av : video_ctx) (frame : AVFrame) (text : bool)
  : bool :=
  let tb := video_stream_time_base av in
  let pts := best_effort_timestamp frame in
  implb (conf_timestamp av)
    (div_defined INT_MIN (den tb) (num tb)
     && div_defined INT64_MIN pts (den tb ÷ num tb))
  && implb ((conf_subtitles av || conf_txsubtitles av) && text)
       (div_defined INT64_MIN pts (den tb ÷ 1000)).

Section VideoScaler.

(** libavutil's [av_rescale_q (a, bq, cq)]. *)
Variable av_rescale_q : Z -> AVRational -> AVRational -> Z.

(** [while(pts > 0)]: each round publishes a repeat and counts [pts]
    down by one, so [Z.to_nat pts] rounds reach the exit. *)
Fixpoint video_repeat_loop (n : nat) (pts : Z)
  : worker video_ctx video_event Z :=
  if 0 <? pts then
    match n with
    | O => wret pts
    | S n' =>
        emit (VPublish 1) ;;;
        av <~ wget ;;
        wput (set_video_start_time av (to_int64 (video_start_time av + 1))) ;;;
        video_repeat_loop n' (to_int64 (pts - 1))
    end
  else wret pts.

(** The overlay and subtitle hooks, in the order of the source.
    [text] tells whether [get_subtitle_type(av->s->av_sub)] answers
    [SUB_TEXT] in this round; the subtitle collaborator is not part of
    this file, and its answer is an input of the round.  The strings
    and bitmaps the collaborators return are not modelled. *)
Definition video_hooks (frame : AVFrame) (text : bool)
  : fworker video_ctx video_event unit :=
  av <~ lift wget ;;!
  (if conf_logo av then lift (emit VLogo) else fret tt) ;;!
  (if conf_timestamp av then
     hms <~ trap (video_timestamp av frame) ;;!
     lift (emit (VTimestamp hms.1.1 hms.1.2 hms.2))
   else fret tt) ;;!
  (if conf_subtitles av || conf_txsubtitles av then
     if text then
       ms <~ trap (video_subtitle_time av frame) ;;!
       lift (emit (VTextSubtitle ms))
     else if conf_subtitles av then
       lift (emit (VBitmapSubtitle (best_effort_timestamp frame)))
     else fret tt
   else fret tt).

(** From [_frame_dbuffer_back_buffer] to the end of the loop body. *)
Definition video_scale_publish (frame : AVFrame) (text : bool)
  : fworker video_ctx video_event unit :=
  lift (emit VBackBuffer) ;;!
  lift (emit (VScale frame)) ;;!
  av <~ lift wget ;;!
  lift (emit (VReduce (video_reduce_args av frame).1
                (video_reduce_args av frame).2)) ;;!
  video_hooks frame text ;;!
  lift (emit VRelease) ;;!
  lift (emit (VPublish 0)) ;;!
  av <~ lift wget ;;!
  lift (wput (set_video_start_time av (to_int64 (video_start_time av + 1)))).

(** The body of the loop of [_video_scaler_thread] for one frame that
    [_frame_dbuffer_flip] returned. *)
Definition video_scaler_frame (frame : AVFrame) (text : bool)
  : fworker video_ctx video_event unit :=
  let pts := best_effort_timestamp frame in
  if negb (pts =? AV_NOPTS_VALUE) then
    av <~ lift wget ;;!
    let pts := av_rescale_q pts (video_stream_time_base av) (video_time_base av) in
    let pts := to_int64 (pts - video_start_time av) in
    if pts <? 0 then lift (emit VUnref)
    else
      lift (video_repeat_loop (Z.to_nat pts) pts) ;;!
      video_scale_publish frame text
  else video_scale_publish frame text.

(** [_video_scaler_thread] on the frames the inbound buffer hands over
    before it returns NULL, each with the answer of
    [get_subtitle_type] in its round. *)
Fixpoint _video_scaler_thread (rounds : list (AVFrame * bool))
  : fworker video_ctx video_event unit :=
  match rounds with
  | [] => lift (emit VAbort)
  | (frame, text) :: rest =>
      video_scaler_frame frame text ;;! _video_scaler_thread rest
  end.

End VideoScaler.

(** The [repeat] arguments of the publishes of a trace, in order. *)
Definition video_publishes (t : list video_event) : list Z :=
  omap (fun e => match e with VPublish r => Some r | _ => None end) t.

(** ** Audio post-process worker *)

Record audio_ctx := mkAudio {
  audio_stream_time_base : AVRational;   (* av->audio_stream->time_base *)
  audio_time_base : AVRational;
  audio_start_time : Z;
  allowed_error : Z;
  out_frame_size : Z;
  nb_channels : Z;                       (* of av->audio_codec_ctx *)
  sample_fmt : Z                         (* av->audio_codec_ctx->sample_fmt *)
}.

Definition set_audio_start_time (av : audio_ctx) (v : Z) : audio_ctx :=
  mkAudio (audio_stream_time_base av) (audio_time_base av) v
    (allowed_error av) (out_frame_size av) (nb_channels av) (sample_fmt av).

Inductive audio_event :=
| AUnref                       (* av_frame_unref(frame) of a skipped frame *)
| AInjectSilence (count : Z)   (* swr_inject_silence(av->swr_ctx, count) *)
| ABackBuffer                  (* _frame_dbuffer_back_buffer(&av->out_audio_buffer) *)
| AConvert (out_count : Z) (input : option (list Z)) (in_count : Z)
                               (* swr_convert(av->swr_ctx, oframe->data, out_count, input, in_count) *)
| APublish (repeat : Z) (samples : Z)
                               (* oframe->nb_samples = samples; _frame_dbuffer_ready(.., repeat) *)
| ARelease                     (* av_frame_unref(frame) after resampling *)
| AAbort.                      (* _frame_dbuffer_abort(&av->out_audio_buffer) *)

(** What the drift check decides for a frame. *)
Inductive audio_sync_result :=
| ASkip                  (* the frame is in the past: [continue] *)
| AFeed (drop : Z).      (* go on, leaving out the first [drop] samples *)

Section AudioScaler.

Variable av_rescale_q : Z -> AVRational -> AVRational -> Z.

(** libavutil's [av_sample_fmt_is_planar] and [av_get_bytes_per_sample]. *)
Variable av_sample_fmt_is_planar : Z -> Z.
Variable av_get_bytes_per_sample : Z -> Z.

(** [_audio_offset]: the first [planes] plane pointers, each moved on
    by [offset] blocks. *)
Definition _audio_offset (src : list Z) (offset : Z) (nb_channels : Z)
    (sample_fmt : Z) : list Z :=
  let planar := av_sample_fmt_is_planar sample_fmt in
  let planes := if negb (planar =? 0) then nb_channels else 1 in
  let block_align :=
    to_int (av_get_bytes_per_sample sample_fmt
            * (if negb (planar =? 0) then 1 else nb_channels)) in
  let offset := to_int (offset * block_align) in
  (fun p => p + offset) <$> take (Z.to_nat planes) src.


(** The part of the loop body of [_audio_scaler_thread] under
    [if(pts != AV_NOPTS_VALUE)], with [drop = 0] before it. *)
Definition audio_sync (frame : AVFrame)
  : worker audio_ctx audio_event audio_sync_result :=
  let pts := best_effort_timestamp frame in
  if negb (pts =? AV_NOPTS_VALUE) then
    av <~ wget ;;
    let pts := av_rescale_q pts (audio_stream_time_base av) (audio_time_base av) in
    let pts := to_int64 (pts - audio_start_time av) in
    let next_pts := to_int64 (pts + nb_samples frame) in
    if next_pts <=? 0 then emit AUnref ;;; wret ASkip
    else if pts <? to_int (- allowed_error av) then wret (AFeed (to_int (- pts)))
    else if allowed_error av <? pts then
      emit (AInjectSilence (to_int pts)) ;;;
      wput (set_audio_start_time av (to_int64 (audio_start_time av + pts))) ;;;
      wret (AFeed 0)
    else wret (AFeed 0)
  else wret (AFeed 0).

(** The [do ... while(r > 0)] loop.  [rs] lists what the successive
    calls of [swr_convert] return; the result is [None] when the list
    ends before the loop does, and else carries the unused rest. *)
Fixpoint audio_convert_loop (rs : list Z) (input : list Z) (count : Z)
    (av : audio_ctx) : option (list Z * audio_ctx * list audio_event) :=
  match rs with
  | [] => None
  | r :: rs' =>
      let call :=
        [ABackBuffer;
         AConvert (out_frame_size av)
           (if negb (count =? 0) then Some input else None) count] in
      if r =? 0 then Some (rs', av, call)
      else
        let av' :=
          set_audio_start_time av (to_int64 (audio_start_time av + count)) in
        let t := call ++ [APublish 0 r] in
        if 0 <? r then
          match audio_convert_loop rs' input 0 av' with
          | Some (rest, av'', t') => Some (rest, av'', t ++ t')
          | None => None
          end
        else Some (rs', av', t)
  end.

(** The body of the loop of [_audio_scaler_thread] for one frame. *)
Definition audio_scaler_frame (rs : list Z) (frame : AVFrame)
    (av : audio_ctx) : option (list Z * audio_ctx * list audio_event) :=
  match audio_sync frame av with
  | (ASkip, av1, t1) => Some (rs, av1, t1)
  | (AFeed drop, av1, t1) =>
      let count := to_int (nb_samples frame - drop) in
      let input :=
        _audio_offset (data frame) drop (nb_channels av1) (sample_fmt av1) in
      match audio_convert_loop rs input count av1 with
      | Some (rest, av2, t2) => Some (rest, av2, t1 ++ t2 ++ [ARelease])
      | None => None
      end
  end.

(** [_audio_scaler_thread] on the frames handed over before NULL. *)
Fixpoint _audio_scaler_thread (rs : list Z) (frames : list AVFrame)
    (av : audio_ctx) : option (list Z * audio_ctx * list audio_event) :=
  match frames with
  | [] => Some (rs, av, [AAbort])
  | frame :: rest =>
      match audio_scaler_frame rs frame av with
      | Some (rs1, av1, t1) =>
          match _audio_scaler_thread rs1 rest av1 with
          | Some (rs2, av2, t2) => Some (rs2, av2, t1 ++ t2)
          | None => None
          end
      | None => None
      end
  end.

End AudioScaler.

(** ** Pull API *)

(** The part of [av_ffmpeg_t] behind [_av_ffmpeg_read_video],
    [_av_ffmpeg_read_audio] and [_av_ffmpeg_eof].  A stream pointer is
    NULL ([None]) or the index of the stream it points to. *)
Record av_pull := mkPull {
  paused : Z;
  last_paused : Z;
  video_stream : option Z;
  video_eof : Z;
  audio_stream : option Z;
  audio_eof : Z;
  subtitle_stream : option Z;
  subtitle_eof : Z;
  pull_video_start_time : Z;
  pull_audio_start_time : Z;
  out_video_buffer : _frame_dbuffer_t;
  out_audio_buffer : _frame_dbuffer_t
}.

Definition set_paused (av : av_pull) (v : Z) : av_pull :=
  mkPull v (last_paused av) (video_stream av) (video_eof av) (audio_stream av)
    (audio_eof av) (subtitle_stream av) (subtitle_eof av)
    (pull_video_start_time av) (pull_audio_start_time av)
    (out_video_buffer av) (out_audio_buffer av).
Definition set_last_paused (av : av_pull) (v : Z) : av_pull :=
  mkPull (paused av) v (video_stream av) (video_eof av) (audio_stream av)
    (audio_eof av) (subtitle_stream av) (subtitle_eof av)
    (pull_video_start_time av) (pull_audio_start_time av)
    (out_video_buffer av) (out_audio_buffer av).
Definition set_video_eof (av : av_pull) (v : Z) : av_pull :=
  mkPull (paused av) (last_paused av) (video_stream av) v (audio_stream av)
    (audio_eof av) (subtitle_stream av) (subtitle_eof av)
    (pull_video_start_time av) (pull_audio_start_time av)
    (out_video_buffer av) (out_audio_buffer av).
Definition set_audio_eof (av : av_pull) (v : Z) : av_pull :=
  mkPull (paused av) (last_paused av) (video_stream av) (video_eof av)
    (audio_stream av) v (subtitle_stream av) (subtitle_eof av)
    (pull_video_start_time av) (pull_audio_start_time av)
    (out_video_buffer av) (out_audio_buffer av).
Definition add_start_times (av : av_pull) (nav : Z) : av_pull :=
  mkPull (paused av) (last_paused av) (video_stream av) (video_eof av)
    (audio_stream av) (audio_eof av) (subtitle_stream av) (subtitle_eof av)
    (to_int64 (pull_video_start_time av + nav))
    (to_int64 (pull_audio_start_time av + nav))
    (out_video_buffer av) (out_audio_buffer av).
Definition set_out_video_buffer (av : av_pull) (d : _frame_dbuffer_t) : av_pull :=
  mkPull (paused av) (last_paused av) (video_stream av) (video_eof av)
    (audio_stream av) (audio_eof av) (subtitle_stream av) (subtitle_eof av)
    (pull_video_start_time av) (pull_audio_start_time av)
    d (out_audio_buffer av).
Definition set_out_audio_buffer (av : av_pull) (d : _frame_dbuffer_t) : av_pull :=
  mkPull (paused av) (last_paused av) (video_stream av) (video_eof av)
    (audio_stream av) (audio_eof av) (subtitle_stream av) (subtitle_eof av)
    (pull_video_start_time av) (pull_audio_start_time av)
    (out_video_buffer av) d.

Definition AVSEEK_FWD : Z := 60.
Definition AVSEEK_RWD : Z := -60.

(** What the keyboard holds when [_av_ffmpeg_read_video] polls it: no
    key, one character, or an escape sequence ending in the character
    given. *)
Inductive keyboard := KbNone | KbChar (c : Z) | KbEscape (c : Z).

(** After [frame] is set: [if(!frame)] and what follows, down to the
    returned buffer (the frame whose [data[0]] is returned). *)
Definition read_video_finish (av : av_pull) (frame : option loc)
  : outcome av_pull (option loc) :=
  match frame with
  | None => Ret None (set_video_eof av 1)
  | Some f => Ret (Some f) av
  end.

(** [_av_ffmpeg_read_video], called with keyboard state [kb]; [now] is
    what [time(0)] returns.  The overlays are left out, except that the
    play icon shown for 5 seconds after a pause is drawn through
    [frame->data[0]] before [frame] is tested; the float ratio the call
    reports is left out as well. *)
Definition _av_ffmpeg_read_video (av : av_pull) (kb : keyboard) (now : Z)
  : outcome av_pull (option loc) :=
  match video_stream av with
  | None => Ret None av
  | Some _ =>
      let av :=
        match kb with
        | KbChar 32 => set_paused av (Z.lxor (paused av) 1 mod 256)
        | _ => av
        end in
      let nav :=
        match kb with
        | KbEscape 67 => AVSEEK_FWD
        | KbEscape 68 => AVSEEK_RWD
        | _ => 0
        end in
      let av :=
        if (nav =? AVSEEK_FWD) || (nav =? AVSEEK_RWD)
        then add_start_times av nav else av in
      if negb (paused av =? 0) then
        read_video_finish (set_last_paused av now)
          (Some (d_frame_0 (out_video_buffer av)))
      else
        match _frame_dbuffer_flip (out_video_buffer av) with
        | Wait d => Wait (set_out_video_buffer av d)
        | Fault => Fault
        | Ret frame d =>
            let av := set_out_video_buffer av d in
            if to_int64 (now - last_paused av) <? 5 then
              match frame with
              | None => Fault
              | Some _ => read_video_finish av frame
              end
            else read_video_finish av frame
        end
  end.

(** [_av_ffmpeg_read_audio]. *)
Definition _av_ffmpeg_read_audio (av : av_pull)
  : outcome av_pull (option loc) :=
  match audio_stream av with
  | None => Ret None av
  | Some _ =>
      if negb (paused av =? 0) then Ret None av
      else
        match _frame_dbuffer_flip (out_audio_buffer av) with
        | Wait d => Wait (set_out_audio_buffer av d)
        | Fault => Fault
        | Ret None d => Ret None (set_audio_eof (set_out_audio_buffer av d) 1)
        | Ret (Some f) d => Ret (Some f) (set_out_audio_buffer av d)
        end
  end.

(** [_av_ffmpeg_eof]. *)
Definition _av_ffmpeg_eof (av : av_pull) : Z :=
  if (bool_decide (is_Some (video_stream av)) && (video_eof av =? 0))
     || (bool_decide (is_Some (audio_stream av)) && (audio_eof av =? 0))
  then 0 else 1.

(** ** What a queue holds *)

(** [chain h p addrs pkts]: following [next] from [p] through the heap
    [h] visits the cells [addrs], which hold the packets [pkts]. *)
Fixpoint chain (h : gmap loc _packet_queue_item_t) (p : option loc)
    (addrs : list loc) (pkts : list AVPacket) : Prop :=
  match addrs, pkts with
  | [], [] => True
  | a :: addrs', x :: pkts' =>
      p = Some a /\
      exists nx, h !! a = Some (mkItem x nx) /\ chain h nx addrs' pkts'
  | _, _ => False
  end.

(** Bytes accounted for a list of queued packets: each packet's size
    plus the per-entry overhead. *)
Definition queue_bytes (sizeof_item : Z) (pkts : list AVPacket) : Z :=
  foldr (fun p acc => pkt_size p + sizeof_item + acc) 0 pkts.

(** A packet as the demuxer delivers it: its size is a non-negative [int]. *)
Definition packet_ok (p : AVPacket) : Prop := 0 <= pkt_size p <= INT_MAX.

(** The queue [q] holds exactly [pkts], in this order, in the cells
    [addrs] of [h], and its counters agree with that. *)
Record queue_rep (sizeof_item : Z) (h : gmap loc _packet_queue_item_t)
    (q : _packet_queue_t) (addrs : list loc) (pkts : list AVPacket) : Prop :=
  mkRep {
    rep_length : q_length q = Z.of_nat (length pkts);
    rep_size : q_size q = queue_bytes sizeof_item pkts;
    rep_bound : q_size q <= MAX_QUEUE_SIZE;
    rep_chain : chain h (q_first q) addrs pkts;
    rep_last : forall a, last addrs = Some a -> q_last q = Some a;
    rep_nodup : NoDup addrs;
    rep_ok : Forall packet_ok pkts;
    rep_abort : q_abort q = 0 \/ q_abort q = 1
  }.

(** Both queues of [av] are well formed and share no cell. *)
Record queues_inv (sizeof_item : Z) (av : av_queues)
    (addrs : queue_id -> list loc) (pkts : queue_id -> list AVPacket) : Prop :=
  mkInv {
    inv_rep : forall i,
      queue_rep sizeof_item (heap av) (get_queue av i) (addrs i) (pkts i);
    inv_disjoint : forall a, a ∈ addrs VideoQ -> a ∈ addrs AudioQ -> False
  }.

#[global] Instance queue_id_eq_dec : EqDecision queue_id.
Proof. solve_decision. Defined.

(** Replace the entry of queue [i] in a per-queue table. *)
Definition upd {A : Type} (f : queue_id -> A) (i : queue_id) (v : A)
  : queue_id -> A :=
  fun j => if decide (j = i) then v else f j.

(** ** Sequences of queue calls *)

(** Write the packets one after the other; [None] as soon as a call
    does not return 0. *)
Fixpoint write_all (sizeof_item : Z)
    (malloc : gmap loc _packet_queue_item_t -> loc) (av : av_queues)
    (i : queue_id) (pkts : list AVPacket) : option av_queues :=
  match pkts with
  | [] => Some av
  | p :: rest =>
      match _packet_queue_write sizeof_item malloc av i (Some p) with
      | Ret 0 av' => write_all sizeof_item malloc av' i rest
      | _ => None
      end
  end.

(** [n] successive reads; the packets they stored, in order.  [None]
    as soon as a call does not return a packet with status 0. *)
Fixpoint read_all (sizeof_item : Z) (av : av_queues) (i : queue_id) (n : nat)
  : option (list AVPacket * av_queues) :=
  match n with
  | O => Some ([], av)
  | S n' =>
      match _packet_queue_read sizeof_item av i with
      | Ret (0, Some p) av' =>
          match read_all sizeof_item av' i n' with
          | Some (ps, av'') => Some (p :: ps, av'')
          | None => None
          end
      | _ => None
      end
  end.

(** One call on the queues by some thread. *)
Inductive queue_op :=
| OpWrite (i : queue_id) (p : option AVPacket)
| OpRead (i : queue_id)
| OpAbort (i : queue_id)
| OpFlush (i : queue_id).

(** The state a call leaves to the other threads, whether it returned
    or waits; [None] after a fault. *)
Definition state_after {A : Type} (o : outcome av_queues A) : option av_queues :=
  match o with
  | Ret _ s => Some s
  | Wait s => Some s
  | Fault => None
  end.

Definition queue_step (sizeof_item : Z)
    (malloc : gmap loc _packet_queue_item_t -> loc) (av : av_queues)
    (op : queue_op) : option av_queues :=
  match op with
  | OpWrite i p => state_after (_packet_queue_write sizeof_item malloc av i p)
  | OpRead i => state_after (_packet_queue_read sizeof_item av i)
  | OpAbort i => Some (_packet_queue_abort av i)
  | OpFlush i => state_after (_packet_queue_flush av i)
  end.

Fixpoint queue_run (sizeof_item : Z)
    (malloc : gmap loc _packet_queue_item_t -> loc) (av : av_queues)
    (ops : list queue_op) : option av_queues :=
  match ops with
  | [] => Some av
  | op :: rest =>
      match queue_step sizeof_item malloc av op with
      | Some av' => queue_run sizeof_item malloc av' rest
      | None => None
      end
  end.

(** Calls other than flush, writing well-formed packets. *)
Definition plain_op (op : queue_op) : Prop :=
  match op with
  | OpWrite _ (Some p) => packet_ok p
  | OpFlush _ => False
  | _ => True
  end.

(** ** Concrete queue states used in examples *)

(** A value of [sizeof(_packet_queue_item_t)] for the examples: a
    104-byte [AVPacket] followed by the 8-byte [next] pointer. *)
Definition sizeof_item_example : Z := 112.

(** An allocator for the examples: it hands out the least address that
    is not in use. *)
Definition malloc_example (h : gmap loc _packet_queue_item_t) : loc :=
  fresh (dom h).

(** The queues as [av_ffmpeg_open] leaves them: the structure comes
    zeroed from [calloc] and both queues are initialised. *)
Definition av_zeroed : av_queues :=
  mkQueues ∅ (mkQueue 0 0 0 0 None None) (mkQueue 0 0 0 0 None None) 0 [].

Definition av_opened : av_queues :=
  _packet_queue_init (_packet_queue_init av_zeroed VideoQ) AudioQ.

Definition packet_a : AVPacket := mkPacket 1 4096 0 0.
Definition packet_b : AVPacket := mkPacket 2 1500 0 3600.
Definition packet_c : AVPacket := mkPacket 3 25000 0 7200.

(** A packet that nearly fills the queue, and one that no longer fits
    behind it. *)
Definition packet_big : AVPacket := mkPacket 4 15000000 0 0.
Definition packet_more : AVPacket := mkPacket 5 1000000 0 3600.

(** The state after [packet_big] went into the video queue. *)
Definition av_video_full : av_queues :=
  match _packet_queue_write sizeof_item_example malloc_example
      av_opened VideoQ (Some packet_big) with
  | Ret _ s => s
  | _ => av_opened
  end.

(** The state in which the input thread waits to write [packet_more]
    to the video queue. *)
Definition av_video_stalled : av_queues :=
  match _packet_queue_write sizeof_item_example malloc_example
      av_video_full VideoQ (Some packet_more) with
  | Wait s => s
  | _ => av_video_full
  end.

(** ** Concrete double buffer used in examples *)

(** The front and back pointers of a buffer. *)
Definition slots (d : _frame_dbuffer_t) : loc * loc := (d_frame_0 d, d_frame_1 d).

(** A buffer just initialised over the frames at cells 1 and 2, after
    the producer published its first frame and the consumer took it. *)
Definition dbuffer_taken : _frame_dbuffer_t :=
  match _frame_dbuffer_ready (_frame_dbuffer_init 1 2) 0 with
  | Ret _ d =>
      match _frame_dbuffer_flip d with
      | Ret _ d' => d'
      | _ => d
      end
  | _ => _frame_dbuffer_init 1 2
  end.

(** The frames a trace hands to [sws_scale], in order. *)
Definition video_scales (t : list video_event) : list AVFrame :=
  omap (fun e => match e with VScale f => Some f | _ => None end) t.

(** The argument pairs of the [av_reduce] calls of a trace. *)
Definition video_reduces (t : list video_event) : list (Z * Z) :=
  omap (fun e => match e with VReduce n d => Some (n, d) | _ => None end) t.

(** Number of frames a trace skips as stale: the [av_frame_unref]
    calls that go with [continue]. *)
Definition video_skips (t : list video_event) : nat :=
  length (omap (fun e => match e with VUnref => Some tt | _ => None end) t).

(** ** Concrete worker inputs used in examples *)

(** Reference behaviour of libavutil's [av_rescale_q] for results that
    fit an [int64_t]: [a * bq / cq] rounded to the nearest integer,
    halfway cases away from zero; [INT64_MIN] for an invalid ratio. *)
Definition av_rescale_q_near (a : Z) (bq cq : AVRational) : Z :=
  let b := num bq * den cq in
  let c := num cq * den bq in
  if (c <=? 0) || (b <? 0) then INT64_MIN
  else
    let r := (Z.abs a * b + c / 2) / c in
    if a <? 0 then - r else r.

(** A 25 frames per second output clock, fed by a stream with the same
    time base, at clock zero; the output frames are 720 by 576. *)
Definition video_ctx_25 : video_ctx :=
  mkVideo (mkRational 1 25) (mkRational 1 25) 0 720 576 false false false false.

(** The same clock with the logo, the timestamp overlay and subtitles
    switched on. *)
Definition video_ctx_osd : video_ctx :=
  mkVideo (mkRational 1 25) (mkRational 1 25) 0 720 576 true true true false.

(** The same clock with subtitles switched on and nothing else. *)
Definition video_ctx_25_text : video_ctx :=
  mkVideo (mkRational 1 25) (mkRational 1 25) 0 720 576 false false true false.

(** The 25 frames per second clock fed by a stream with a 90 kHz time
    base, with the logo, the timestamp overlay, subtitles and teletext
    subtitles switched on. *)
Definition video_ctx_90k : video_ctx :=
  mkVideo (mkRational 1 90000) (mkRational 1 25) 0 720 576 true true true true.

(** A 720 by 576 video frame with time stamp [pts] and sample aspect
    ratio [sar]. *)
Definition video_frame (pts : Z) (sar : AVRational) : AVFrame :=
  mkFrame pts sar 720 576 0 [].

(** [frame] with its sample aspect ratio replaced by [r]. *)
Definition with_ratio (frame : AVFrame) (r : AVRational) : AVFrame :=
  mkFrame (best_effort_timestamp frame) r (width frame) (height frame)
    (nb_samples frame) (data frame).

(** Frames for the examples: square pixels, a ratio with a zero, a
    negative ratio. *)
Definition square : AVRational := mkRational 1 1.
Definition frame_zero_ratio : AVFrame := video_frame 0 (mkRational 0 1).
Definition frame_negative_ratio : AVFrame := video_frame 0 (mkRational (-1) 1).

(** The two libavutil queries for a decoder that delivers planar
    32-bit float samples. *)
Definition fltp_is_planar (fmt : Z) : Z := 1.
Definition fltp_bytes_per_sample (fmt : Z) : Z := 4.

(** A 48 kHz audio clock fed by a stream with the same time base; the
    clock stands at [start], the tolerance is 10 samples, the output
    blocks are 640 samples, and the decoder delivers two channels. *)
Definition audio_ctx_48k (start : Z) : audio_ctx :=
  mkAudio (mkRational 1 48000) (mkRational 1 48000) start 10 640 2 8.

(** An audio frame of 1024 samples with time stamp [pts]; its two
    planes start at addresses 1000 and 9000. *)
Definition audio_frame (pts : Z) : AVFrame :=
  mkFrame pts (mkRational 0 1) 0 0 1024 [1000; 9000].

(** ** Steps of the pull side *)

(** A call of the pull API by the renderer, or what a post-process
    worker does to an outbound buffer in between.  A pull that waits in
    [_frame_dbuffer_flip] holds no state of its own beyond the buffer,
    so its wake-up is a further [PullVideo KbNone] or [PullAudio]. *)
Inductive pull_op :=
| PullVideo (kb : keyboard) (now : Z)   (* _av_ffmpeg_read_video *)
| PullAudio                            (* _av_ffmpeg_read_audio *)
| PullEof                              (* _av_ffmpeg_eof *)
| FeedVideo (repeat : Z)   (* _frame_dbuffer_ready(&av->out_video_buffer, repeat) *)
| FeedAudio (repeat : Z)   (* _frame_dbuffer_ready(&av->out_audio_buffer, repeat) *)
| EndVideo                 (* _frame_dbuffer_abort(&av->out_video_buffer) *)
| EndAudio.                (* _frame_dbuffer_abort(&av->out_audio_buffer) *)

(** The state a call leaves, whether it returned or waits; [None]
    after a fault. *)
Definition left_by {S A : Type} (o : outcome S A) : option S :=
  match o with
  | Ret _ s => Some s
  | Wait s => Some s
  | Fault => None
  end.

Definition pull_step (av : av_pull) (op : pull_op) : option av_pull :=
  match op with
  | PullVideo kb now => left_by (_av_ffmpeg_read_video av kb now)
  | PullAudio => left_by (_av_ffmpeg_read_audio av)
  | PullEof => Some av
  | FeedVideo r =>
      set_out_video_buffer av
        <$> left_by (_frame_dbuffer_ready (out_video_buffer av) r)
  | FeedAudio r =>
      set_out_audio_buffer av
        <$> left_by (_frame_dbuffer_ready (out_audio_buffer av) r)
  | EndVideo =>
      Some (set_out_video_buffer av (_frame_dbuffer_abort (out_video_buffer av)))
  | EndAudio =>
      Some (set_out_audio_buffer av (_frame_dbuffer_abort (out_audio_buffer av)))
  end.

Fixpoint pull_run (av : av_pull) (ops : list pull_op) : option av_pull :=
  match ops with
  | [] => Some av
  | op :: rest =>
      match pull_step av op with
      | Some av' => pull_run av' rest
      | None => None
      end
  end.

(** A stream that is absent, or whose EOF flag is up. *)
Definition stream_done (stream : option Z) (eof : Z) : Prop :=
  is_Some stream -> eof <> 0.

(** The video and the audio stream are done. *)
Definition av_streams_done (av : av_pull) : Prop :=
  stream_done (video_stream av) (video_eof av) /\
  stream_done (audio_stream av) (audio_eof av).

(** Every stream that was opened is done, the subtitle stream too. *)
Definition opened_streams_done (av : av_pull) : Prop :=
  av_streams_done av /\ stream_done (subtitle_stream av) (subtitle_eof av).

(** [av'] has the streams of [av], and no EOF flag that is up in [av]
    is down in [av']. *)
Definition flags_kept (av av' : av_pull) : Prop :=
  video_stream av' = video_stream av /\
  audio_stream av' = audio_stream av /\
  subtitle_stream av' = subtitle_stream av /\
  subtitle_eof av' = subtitle_eof av /\
  (video_eof av <> 0 -> video_eof av' <> 0) /\
  (audio_eof av <> 0 -> audio_eof av' <> 0).

(** A pipeline opened on a file with a video, an audio and a subtitle
    stream (streams 0, 1 and 2), before any frame was pulled. *)
Definition av_pull_opened : av_pull :=
  mkPull 0 0 (Some 0) 0 (Some 1) 0 (Some 2) 0 0 0
    (_frame_dbuffer_init 1 2) (_frame_dbuffer_init 3 4).

(** Both scalers end, and the renderer pulls video and audio once
    more; the clock reads 1800000000 seconds. *)
Definition pull_to_the_end : list pull_op :=
  [EndVideo; EndAudio; PullVideo KbNone 1800000000; PullAudio].

(** ** Further concrete queue states *)

(** An audio packet of stream 1. *)
Definition packet_audio : AVPacket := mkPacket 6 768 1 0.

(** The opened queues after [packet_a] and [packet_b] went into the
    video queue and [packet_audio] into the audio queue. *)
Definition av_queued : av_queues :=
  match write_all sizeof_item_example malloc_example av_opened VideoQ
          [packet_a; packet_b] with
  | Some s =>
      match write_all sizeof_item_example malloc_example s AudioQ
              [packet_audio] with
      | Some s' => s'
      | None => s
      end
  | None => av_opened
  end.

(** The cells and the packets of the two queues of [av_queued]. *)
Definition av_queued_addrs (i : queue_id) : list loc :=
  match i with VideoQ => [1%positive; 2%positive] | AudioQ => [3%positive] end.

Definition av_queued_pkts (i : queue_id) : list AVPacket :=
  match i with VideoQ => [packet_a; packet_b] | AudioQ => [packet_audio] end.

(** The cells and the packets of the two queues of [av_video_full]. *)
Definition av_video_full_addrs (i : queue_id) : list loc :=
  match i with VideoQ => [1%positive] | AudioQ => [] end.

Definition av_video_full_pkts (i : queue_id) : list AVPacket :=
  match i with VideoQ => [packet_big] | AudioQ => [] end.

(** Calls on the two queues by the input thread and the two decoders,
    none of them a flush. *)
Definition queue_calls : list queue_op :=
  [OpWrite VideoQ (Some packet_a); OpWrite AudioQ (Some packet_audio);
   OpRead VideoQ; OpWrite VideoQ (Some packet_b); OpRead VideoQ;
   OpRead VideoQ; OpWrite VideoQ None; OpAbort AudioQ; OpRead AudioQ].

(** The state [close] leaves behind for the threads that still run:
    the video queue of [av_queued] aborted, followed by a read and by
    the end-of-stream mark of the input thread. *)
Definition av_aborted : av_queues :=
  match queue_run sizeof_item_example malloc_example
          (_packet_queue_abort av_queued VideoQ)
          [OpRead VideoQ; OpWrite VideoQ None; OpFlush AudioQ] with
  | Some s => s
  | None => av_queued
  end.

(** ** Sequences of calls on a double buffer *)

(** One call on a double buffer, by its producer or its consumer. *)
Inductive dbuffer_op :=
| DbBackBuffer           (* _frame_dbuffer_back_buffer *)
| DbReady (repeat : Z)   (* _frame_dbuffer_ready *)
| DbFlip                 (* _frame_dbuffer_flip *)
| DbAbort.               (* _frame_dbuffer_abort *)

(** The buffer a call leaves, with the number of publishes (0 or 1)
    and of frames handed to the consumer (0 or 1) it completed.  A call
    that waits completes nothing. *)
Definition dbuffer_step (d : _frame_dbuffer_t) (op : dbuffer_op)
  : _frame_dbuffer_t * (nat * nat) :=
  match op with
  | DbBackBuffer =>
      match _frame_dbuffer_back_buffer d with
      | Ret _ d' | Wait d' => (d', (0, 0))%nat
      | Fault => (d, (0, 0))%nat
      end
  | DbReady r =>
      match _frame_dbuffer_ready d r with
      | Ret _ d' => (d', (1, 0))%nat
      | Wait d' => (d', (0, 0))%nat
      | Fault => (d, (0, 0))%nat
      end
  | DbFlip =>
      match _frame_dbuffer_flip d with
      | Ret (Some _) d' => (d', (0, 1))%nat
      | Ret None d' | Wait d' => (d', (0, 0))%nat
      | Fault => (d, (0, 0))%nat
      end
  | DbAbort => (_frame_dbuffer_abort d, (0, 0))%nat
  end.

(** A sequence of calls: the buffer it leaves, the publishes and the
    takes it completed. *)
Fixpoint dbuffer_run (d : _frame_dbuffer_t) (ops : list dbuffer_op)
  : _frame_dbuffer_t * (nat * nat) :=
  match ops with
  | [] => (d, (0, 0))%nat
  | op :: rest =>
      let '(d1, (p1, t1)) := dbuffer_step d op in
      let '(d2, (p2, t2)) := dbuffer_run d1 rest in
      (d2, (p1 + p2, t1 + t2))%nat
  end.

(** The call is not an abort. *)
Definition not_abort (op : dbuffer_op) : Prop :=
  match op with DbAbort => False | _ => True end.

(** ** Reading an audio trace *)

(** The input pointers and input sample counts of the [swr_convert]
    calls of a trace, in order. *)
Definition audio_converts (t : list audio_event) : list (option (list Z) * Z) :=
  omap (fun e => match e with AConvert _ i c => Some (i, c) | _ => None end) t.

(** The sample counts of the blocks a trace publishes, in order. *)
Definition audio_published (t : list audio_event) : list Z :=
  omap (fun e => match e with APublish _ n => Some n | _ => None end) t.

(** The sample counts of the [swr_inject_silence] calls of a trace. *)
Definition audio_silences (t : list audio_event) : list Z :=
  omap (fun e => match e with AInjectSilence n => Some n | _ => None end) t.

(** ** The pull side while paused, and the clocks shared with the workers *)

(** A pull by the renderer that does not press the space bar. *)
Definition quiet_pull (op : pull_op) : Prop :=
  match op with
  | PullVideo (KbChar 32) _ => False
  | PullVideo _ _ | PullAudio | PullEof => True
  | _ => False
  end.

(** [av->video_start_time] and [av->audio_start_time] are fields the
    renderer's thread and the workers share: the worker's context with
    the clock as the renderer's call left it. *)
Definition with_video_clock (vc : video_ctx) (av : av_pull) : video_ctx :=
  set_video_start_time vc (pull_video_start_time av).

Definition with_audio_clock (ac : audio_ctx) (av : av_pull) : audio_ctx :=
  set_audio_start_time ac (pull_audio_start_time av).

(** The pipeline of [av_pull_opened], paused by the space bar at time
    1800000000. *)
Definition av_pull_paused : av_pull :=
  match _av_ffmpeg_read_video
          (set_out_video_buffer av_pull_opened (mkDbuffer 1 0 0 1 2))
          (KbChar 32) 1800000000 with
  | Ret _ s => s
  | _ => av_pull_opened
  end.

(** The pipeline of [av_pull_opened], last paused at time 1800000000,
    after the video worker ended. *)
Definition av_pull_ended : av_pull :=
  set_out_video_buffer (set_last_paused av_pull_opened 1800000000)
    (_frame_dbuffer_abort (_frame_dbuffer_init 1 2)).

(** ** Input thread *)

(** [AVERROR(EAGAIN)], with the value of [EAGAIN] on Linux. *)
Definition AVERROR_EAGAIN : Z := -11.

(** [s && pkt.stream_index == s->index] for a stream pointer [s]. *)
Definition stream_is (s : option Z) (p : AVPacket) : bool :=
  match s with
  | Some i => pkt_stream_index p =? i
  | None => false
  end.

Section InputThread.

Variable sizeof_item : Z.
Variable malloc : gmap loc _packet_queue_item_t -> loc.

(** "Set the EOF flag in the queues": the two writes of the NULL
    packet that end [_input_thread].  [subs] is what the thread hands
    back. *)
Definition input_thread_end {A : Type} (subs : A) (av : av_queues)
  : outcome av_queues A :=
  match _packet_queue_write sizeof_item malloc av VideoQ None with
  | Ret _ av1 =>
      match _packet_queue_write sizeof_item malloc av1 AudioQ None with
      | Ret _ av2 => Ret subs av2
      | Wait s => Wait s
      | Fault => Fault
      end
  | Wait s => Wait s
  | Fault => Fault
  end.

(** [_input_thread].  [reads] lists what the successive calls of
    [av_read_frame] return, the status and the packet; the list ends
    where the thread finds [thread_abort] set.  [streams] holds the
    three stream pointers and [subtitles] is
    [conf.subtitles || conf.txsubtitles].  The thread's own
    [av_packet_unref] calls go to the log of [av]; the result lists the
    packets handed to [avcodec_decode_subtitle2], the decoding and
    loading of the subtitle itself being left out.  A write that waits
    parks the thread: [Wait]. *)
Fixpoint _input_thread (reads : list (Z * AVPacket)) (streams : av_pull)
    (subtitles : bool) (subs : list AVPacket) (av : av_queues)
  : outcome av_queues (list AVPacket) :=
  match reads with
  | [] => input_thread_end subs av
  | (r, pkt) :: rest =>
      if r =? AVERROR_EAGAIN then
        _input_thread rest streams subtitles subs av
      else if r <? 0 then input_thread_end subs av
      else if stream_is (video_stream streams) pkt then
        match _packet_queue_write sizeof_item malloc av VideoQ (Some pkt) with
        | Ret _ av' => _input_thread rest streams subtitles subs av'
        | Wait s => Wait s
        | Fault => Fault
        end
      else if stream_is (audio_stream streams) pkt then
        match _packet_queue_write sizeof_item malloc av AudioQ (Some pkt) with
        | Ret _ av' => _input_thread rest streams subtitles subs av'
        | Wait s => Wait s
        | Fault => Fault
        end
      else if stream_is (subtitle_stream streams) pkt && subtitles then
        _input_thread rest streams subtitles (subs ++ [pkt]) (log_unref av pkt)
      else
        _input_thread rest streams subtitles subs (log_unref av pkt)
  end.

End InputThread.

(** The packets [av_read_frame] delivers before the thread leaves its
    loop. *)
Fixpoint input_packets (reads : list (Z * AVPacket)) : list AVPacket :=
  match reads with
  | [] => []
  | (r, pkt) :: rest =>
      if r =? AVERROR_EAGAIN then input_packets rest
      else if r <? 0 then []
      else pkt :: input_packets rest
  end.

(** The queue a packet is routed to, if any. *)
Definition routed_to (streams : av_pull) (i : queue_id) (p : AVPacket) : bool :=
  match i with
  | VideoQ => stream_is (video_stream streams) p
  | AudioQ =>
      negb (stream_is (video_stream streams) p)
      && stream_is (audio_stream streams) p
  end.

(** The packets that go to neither queue. *)
Definition not_routed (streams : av_pull) (p : AVPacket) : bool :=
  negb (stream_is (video_stream streams) p)
  && negb (stream_is (audio_stream streams) p).

(** What a demuxer delivers for the examples: two video packets, an
    audio packet, a retry, a subtitle packet, a packet of a stream
    that is not open, a third video packet, and the end of the file. *)
Definition packet_subtitle : AVPacket := mkPacket 7 64 2 0.
Definition packet_data : AVPacket := mkPacket 8 32 3 0.

Definition reads_example : list (Z * AVPacket) :=
  [(0, packet_a); (0, packet_audio); (AVERROR_EAGAIN, packet_audio);
   (0, packet_b); (0, packet_subtitle); (0, packet_data); (0, packet_c);
   (-541478725, packet_c)].

(** An EOF flag is up only if the outbound buffer it belongs to was
    aborted. *)
Definition eof_after_abort (av : av_pull) : Prop :=
  (video_eof av <> 0 -> d_abort (out_video_buffer av) <> 0) /\
  (audio_eof av <> 0 -> d_abort (out_audio_buffer av) <> 0).

(** Pulls and buffer activity for the examples: two frames are
    published and pulled, the video worker ends, and the renderer
    pulls again. *)
Definition pull_ops_example : list pull_op :=
  [FeedVideo 0; PullVideo KbNone 1800000000; FeedAudio 0; PullAudio;
   FeedVideo 1; PullVideo KbNone 1800000001; EndVideo;
   PullVideo KbNone 1800000002; PullEof].

(** The pipeline of [av_pull_opened] after [pull_ops_example]. *)
Definition av_pull_pulled : av_pull :=
  match pull_run av_pull_opened pull_ops_example with
  | Some s => s
  | None => av_pull_opened
  end.

(** ** Stream selection in [av_ffmpeg_open] *)

(** Conversion to [unsigned int]. *)
Definition to_uint (x : Z) : Z := x mod 2 ^ 32.

(** libavutil's [enum AVMediaType]; [AVMEDIA_TYPE_OTHER] stands for the
    values the loop does not test for (unknown, data, attachment). *)
Inductive AVMediaType :=
| AVMEDIA_TYPE_VIDEO
| AVMEDIA_TYPE_AUDIO
| AVMEDIA_TYPE_SUBTITLE
| AVMEDIA_TYPE_OTHER.

#[global] Instance AVMediaType_eq_dec : EqDecision AVMediaType.
Proof. solve_decision. Defined.

(** What the loop reads of [format_ctx->streams[i]->codecpar]. *)
Record AVStream := mkStream {
  codec_type : AVMediaType;
  st_nb_channels : Z        (* ch_layout.nb_channels, or channels *)
}.

(** The stream pointers [av->video_stream], [av->audio_stream] and
    [av->subtitle_stream], each NULL or the index of a stream. *)
Definition selection : Type := option Z * option Z * option Z.

(** The index the loop body stores for a subtitle stream found at [i]:
    [streams[c >= i && c < nb_streams ? c : i]] for the option [c].
    [c] and [i] are [int]s and [nb_streams] is an [unsigned int]. *)
Definition subtitle_index (nb c i : Z) : Z :=
  if (i <=? c) && (to_uint c <? nb) then c else i.

(** The body of the loop "Find the first video and audio streams" for
    the index [i]; [audio] is [s->audio], [txsubtitles] and
    [subtitles] are the two options of [s->conf]. *)
Definition select_stream (nb : Z) (audio : bool) (txsubtitles subtitles : Z)
    (i : Z) (st : AVStream) (sel : selection) : selection :=
  let '(v, a, s) := sel in
  let v :=
    if bool_decide (v = None) && bool_decide (codec_type st = AVMEDIA_TYPE_VIDEO)
    then Some i else v in
  let subtitle_part (a : option Z) : selection :=
    if bool_decide (s = None)
       && bool_decide (codec_type st = AVMEDIA_TYPE_SUBTITLE)
    then
      let s := Some (subtitle_index nb txsubtitles i) in
      let s := Some (subtitle_index nb subtitles i) in
      (v, a, s)
    else (v, a, s) in
  if audio && bool_decide (a = None)
     && bool_decide (codec_type st = AVMEDIA_TYPE_AUDIO)
  then
    if st_nb_channels st <=? 0 then (v, a, s)      (* continue *)
    else subtitle_part (Some i)
  else subtitle_part a.

(** The loop from index [i] on, over the streams that are left. *)
Fixpoint select_loop (nb : Z) (audio : bool) (txsubtitles subtitles : Z)
    (i : Z) (streams : list AVStream) (sel : selection) : selection :=
  match streams with
  | [] => sel
  | st :: rest =>
      select_loop nb audio txsubtitles subtitles (to_int (i + 1)) rest
        (select_stream nb audio txsubtitles subtitles i st sel)
  end.

Definition select_streams (streams : list AVStream) (audio : bool)
    (txsubtitles subtitles : Z) : selection :=
  select_loop (Z.of_nat (length streams)) audio txsubtitles subtitles 0 streams
    (None, None, None).

(** The selection with which [av_ffmpeg_open] goes on, or [None] where
    it returns [HACKTV_ERROR] with "No video or audio streams found". *)
Definition open_streams (streams : list AVStream) (audio : bool)
    (txsubtitles subtitles : Z) : option selection :=
  match select_streams streams audio txsubtitles subtitles with
  | (None, None, _) => None
  | sel => Some sel
  end.

(** The index of the first stream that satisfies [f]. *)
Definition first_stream (f : AVStream -> bool) (streams : list AVStream)
  : option Z :=
  (fun x => Z.of_nat x.1) <$> list_find (fun st => f st) streams.

Definition is_video (st : AVStream) : bool :=
  bool_decide (codec_type st = AVMEDIA_TYPE_VIDEO).

(** An audio stream with at least one channel. *)
Definition has_audio (st : AVStream) : bool :=
  bool_decide (codec_type st = AVMEDIA_TYPE_AUDIO) && (0 <? st_nb_channels st).

Definition is_subtitle (st : AVStream) : bool :=
  bool_decide (codec_type st = AVMEDIA_TYPE_SUBTITLE).

(** The streams of a file for the examples: an audio stream without
    channels, a video stream, two subtitle streams, an audio stream
    with two channels and a second video stream. *)
Definition streams_example : list AVStream :=
  [mkStream AVMEDIA_TYPE_AUDIO 0; mkStream AVMEDIA_TYPE_VIDEO 0;
   mkStream AVMEDIA_TYPE_SUBTITLE 0; mkStream AVMEDIA_TYPE_SUBTITLE 0;
   mkStream AVMEDIA_TYPE_AUDIO 2; mkStream AVMEDIA_TYPE_VIDEO 0].

(** ** Decoder threads *)

(** The local [AVPacket pkt] of a decoder thread: not written yet,
    reset by [av_packet_unref], or holding the packet that
    [_packet_queue_read] stored in it. *)
Inductive packet_var :=
| PktUninit
| PktBlank
| PktHolds (p : AVPacket).

Inductive decode_event :=
| DSend (pkt : option packet_var)   (* avcodec_send_packet(ctx, ppkt); [None] is NULL *)
| DUnref (pkt : packet_var)         (* av_packet_unref(ppkt) *)
| DFilter                           (* av_buffersrc_add_frame, av_buffersink_get_frame *)
| DBackBuffer                       (* av_frame_ref(_frame_dbuffer_back_buffer(in), frame) *)
| DPublish (repeat : Z)             (* _frame_dbuffer_ready(in, repeat) *)
| DAbort.                           (* _frame_dbuffer_abort(in) *)

Section DecodeThread.

Variable sizeof_item : Z.

(** The codec calls of a round of a decoder thread, from
    [avcodec_send_packet] to the end of the loop body.  [send_r] and
    [receive_r] are what [avcodec_send_packet] and
    [avcodec_receive_frame] return in this round; [pkt] is the local
    packet and [ppkt] tells whether the pointer [ppkt] is [&pkt]
    rather than NULL.  [video] is true in [_video_decode_thread], which
    leaves the loop when the send fails, and false in
    [_audio_decode_thread], which does not.  The result says whether
    the loop goes on ([false] is [break]), and gives the local
    variables and the calls made. *)
Definition decode_codec (video : bool) (send_r receive_r : Z)
    (pkt : packet_var) (ppkt : bool) (av : av_queues)
  : outcome av_queues (bool * packet_var * bool * list decode_event) :=
  let t := [DSend (if ppkt then Some pkt else None)] in
  let released := ppkt && negb (send_r =? AVERROR_EAGAIN) in
  let t := if released then t ++ [DUnref pkt] else t in
  let av :=
    if released then
      match pkt with PktHolds p => log_unref av p | _ => av end
    else av in
  let pkt := if released then PktBlank else pkt in
  let ppkt := if released then false else ppkt in
  if video && (send_r <? 0) && negb (send_r =? AVERROR_EAGAIN) then
    Ret (false, pkt, ppkt, t) av
  else if receive_r =? 0 then
    Ret (true, pkt, ppkt, t ++ [DFilter; DBackBuffer; DPublish 0]) av
  else if negb (receive_r =? AVERROR_EAGAIN) then
    Ret (false, pkt, ppkt, t) av
  else Ret (true, pkt, ppkt, t) av.

(** One round of the loop of [_video_decode_thread] (on
    [&av->video_queue]) or [_audio_decode_thread] (on
    [&av->audio_queue]), entered with [thread_abort] clear: the read
    from the queue if [ppkt] is NULL, then the codec calls.  A read
    that waits parks the thread. *)
Definition decode_round (video : bool) (i : queue_id) (send_r receive_r : Z)
    (pkt : packet_var) (ppkt : bool) (av : av_queues)
  : outcome av_queues (bool * packet_var * bool * list decode_event) :=
  if ppkt then decode_codec video send_r receive_r pkt ppkt av
  else
    match _packet_queue_read sizeof_item av i with
    | Wait s => Wait s
    | Fault => Fault
    | Ret (r, stored) av' =>
        if r =? -2 then Ret (false, pkt, ppkt, []) av'
        else
          decode_codec video send_r receive_r
            (match stored with Some p => PktHolds p | None => pkt end)
            (0 <=? r) av'
    end.

(** The loop and what follows it.  [rounds] lists the results of the
    two codec calls round by round; the list ends where the thread
    finds [thread_abort] set. *)
Fixpoint decode_thread (video : bool) (i : queue_id) (rounds : list (Z * Z))
    (pkt : packet_var) (ppkt : bool) (av : av_queues)
  : outcome av_queues (list decode_event) :=
  match rounds with
  | [] => Ret [DAbort] av
  | (send_r, receive_r) :: rest =>
      match decode_round video i send_r receive_r pkt ppkt av with
      | Ret (true, pkt', ppkt', t) av' =>
          match decode_thread video i rest pkt' ppkt' av' with
          | Ret t' av'' => Ret (t ++ t') av''
          | Wait s => Wait s
          | Fault => Fault
          end
      | Ret (false, _, _, t) av' => Ret (t ++ [DAbort]) av'
      | Wait s => Wait s
      | Fault => Fault
      end
  end.

(** The threads start with [ppkt = NULL] and [pkt] not initialised. *)
Definition _video_decode_thread (rounds : list (Z * Z)) (av : av_queues)
  : outcome av_queues (list decode_event) :=
  decode_thread true VideoQ rounds PktUninit false av.

Definition _audio_decode_thread (rounds : list (Z * Z)) (av : av_queues)
  : outcome av_queues (list decode_event) :=
  decode_thread false AudioQ rounds PktUninit false av.

End DecodeThread.

(** The packets a trace hands to [av_packet_unref]. *)
Definition decode_released (t : list decode_event) : list AVPacket :=
  omap (fun e => match e with DUnref (PktHolds p) => Some p | _ => None end) t.

(** What a trace hands to [avcodec_send_packet], call by call. *)
Definition decode_sent (t : list decode_event) : list (option packet_var) :=
  omap (fun e => match e with DSend v => Some v | _ => None end) t.

(** NULL, or a packet that came out of the queue. *)
Definition null_or_queued (l : list AVPacket) (v : option packet_var) : Prop :=
  match v with
  | None => True
  | Some (PktHolds p) => p ∈ l
  | Some _ => False
  end.

(** Codec results for the examples: the first packet is accepted and
    gives a frame, the second is refused once with [EAGAIN] while a
    frame is taken out, then accepted; after that the decoder is
    drained and reports the end ([AVERROR_EOF]). *)
Definition rounds_example : list (Z * Z) :=
  [(0, 0); (AVERROR_EAGAIN, 0); (0, AVERROR_EAGAIN); (0, 0); (0, -541478725)].

(** [av_queued] once the input thread has ended. *)
Definition av_queued_eof : av_queues :=
  match input_thread_end sizeof_item_example malloc_example tt av_queued with
  | Ret _ s => s
  | _ => av_queued
  end.

(** [av_queued] after [close] aborted both queues. *)
Definition av_closed : av_queues :=
  _packet_queue_abort (_packet_queue_abort av_queued VideoQ) AudioQ.

(** ** Further worker inputs used in examples *)

(** Frames of a 90 kHz stream that fall on ticks 0, 3 and 1 of a 25
    frames per second clock and one without a time stamp, the first two
    met with a text subtitle loaded and the others with a bitmap. *)
Definition video_rounds_example : list (AVFrame * bool) :=
  [(video_frame 0 square, true); (video_frame 10800 square, true);
   (video_frame 3600 square, false); (video_frame AV_NOPTS_VALUE square, false)].

(** An audio frame of 48 samples with time stamp 0. *)
Definition audio_frame_short : AVFrame :=
  mkFrame 0 (mkRational 0 1) 0 0 48 [1000; 9000].

(** The trace and the state of the video decoder thread on
    [rounds_example] behind the ended input thread. *)
Definition decode_example : list decode_event * av_queues :=
  match decode_thread sizeof_item_example true VideoQ rounds_example PktUninit false
          av_queued_eof with
  | Ret t s => (t, s)
  | _ => ([], av_queued_eof)
  end.

(** The 48 kHz audio clock of [audio_ctx_48k] with the tolerance
    [av_ffmpeg_open] computes for it, 20 ms or 960 samples. *)
Definition audio_ctx_48k_open : audio_ctx :=
  mkAudio (mkRational 1 48000) (mkRational 1 48000) 0 960 640 2 8.

(** The pipeline of [av_pull_opened] after the renderer's call that
    found the escape sequence ending in [c] on the keyboard. *)
Definition av_pull_after_key (c : Z) : av_pull :=
  match left_by (_av_ffmpeg_read_video av_pull_opened (KbEscape c) 1800000000) with
  | Some s => s
  | None => av_pull_opened
  end.

(** ** Machine arithmetic *)

(** Goals about the ranges of the machine types. *)
Ltac range :=
  unfold in_int, in_int64, packet_ok, AV_NOPTS_VALUE in *;
  unfold INT_MIN, INT_MAX, INT64_MIN, INT64_MAX, MAX_QUEUE_SIZE in *;
  lia.

Lemma to_int_id x : in_int x -> to_int x = x.
Proof.
  unfold in_int, INT_MIN, INT_MAX, to_int. intros Hx.
  rewrite Z.mod_small; lia.
Qed.

Lemma to_int64_id x : in_int64 x -> to_int64 x = x.
Proof.
  unfold in_int64, INT64_MIN, INT64_MAX, to_int64. intros Hx.
  rewrite Z.mod_small; lia.
Qed.

Lemma to_size_t_id x : 0 <= x < 2 ^ 64 -> to_size_t x = x.
Proof. unfold to_size_t. intros Hx. now apply Z.mod_small. Qed.

Lemma to_int_range x : in_int (to_int x).
Proof.
  unfold in_int, INT_MIN, INT_MAX, to_int.
  pose proof (Z.mod_pos_bound (x + 2 ^ 31) (2 ^ 32)). lia.
Qed.

(** [int] conversion only sees the value modulo [2^32]. *)
Lemma to_int_shift x k : to_int (x + k * 2 ^ 32) = to_int x.
Proof.
  unfold to_int.
  replace (x + k * 2 ^ 32 + 2 ^ 31) with (x + 2 ^ 31 + k * 2 ^ 32) by ring.
  now rewrite Z.mod_add.
Qed.

Lemma to_size_t_shift x : exists k, to_size_t x = x + k * 2 ^ 32.
Proof.
  exists (- (x / 2 ^ 64) * 2 ^ 32). unfold to_size_t.
  rewrite Z.mod_eq by lia.
  replace (2 ^ 64) with (2 ^ 32 * 2 ^ 32) by reflexivity. ring.
Qed.

(** Storing a [size_t] value in an [int] keeps it modulo [2^32]. *)
Lemma to_int_to_size_t x : to_int (to_size_t x) = to_int x.
Proof. destruct (to_size_t_shift x) as [k ->]. apply to_int_shift. Qed.

Lemma to_int_add_size_t x y : to_int (to_size_t x + to_size_t y) = to_int (x + y).
Proof.
  destruct (to_size_t_shift x) as [k ->], (to_size_t_shift y) as [k' ->].
  replace (x + k * 2 ^ 32 + (y + k' * 2 ^ 32)) with (x + y + (k + k') * 2 ^ 32)
    by ring.
  apply to_int_shift.
Qed.

Lemma to_int_sub_size_t x y : to_int (to_size_t x - to_size_t y) = to_int (x - y).
Proof.
  destruct (to_size_t_shift x) as [k ->], (to_size_t_shift y) as [k' ->].
  replace (x + k * 2 ^ 32 - (y + k' * 2 ^ 32)) with (x - y + (k - k') * 2 ^ 32)
    by ring.
  apply to_int_shift.
Qed.

(** ** Chains in the heap *)

Lemma chain_length h p addrs pkts :
  chain h p addrs pkts -> length addrs = length pkts.
Proof.
  revert p pkts. induction addrs as [|a addrs IH]; intros p [|x pkts]; simpl;
    try tauto.
  intros (_ & nx & _ & Hc). f_equal. eauto.
Qed.

Lemma chain_dom h p addrs pkts a :
  chain h p addrs pkts -> a ∈ addrs -> is_Some (h !! a).
Proof.
  revert p pkts. induction addrs as [|b addrs IH]; intros p [|x pkts]; simpl;
    try tauto.
  - intros _ Hin. inversion Hin.
  - intros (_ & nx & Hb & Hc) Hin.
    apply elem_of_cons in Hin as [->|Hin]; eauto.
Qed.

(** Linking a new cell behind the last one extends the chain. *)
Lemma chain_snoc h p addrs pkts l itl pnew pk :
  chain h p addrs pkts -> NoDup addrs -> last addrs = Some l ->
  pnew ∉ addrs -> h !! l = Some itl ->
  chain (<[l := mkItem (item_pkt itl) (Some pnew)]> (<[pnew := mkItem pk None]> h))
        p (addrs ++ [pnew]) (pkts ++ [pk]).
Proof.
  revert p pkts. induction addrs as [|a addrs IH]; intros p [|x pkts]; simpl;
    try tauto; try discriminate.
  intros (Hp & nx & Ha & Hc) Hnd Hlast Hnew Hl.
  apply NoDup_cons in Hnd as [Hnotin Hnd].
  apply not_elem_of_cons in Hnew as [Hne Hnew].
  split; [done|].
  destruct addrs as [|b addrs].
  - (* [a] is the last cell *)
    simpl in Hlast. injection Hlast as <-.
    destruct pkts as [|? ?]; simpl in Hc; [|tauto].
    rewrite Ha in Hl. injection Hl as <-. simpl.
    exists (Some pnew). split; [by rewrite lookup_insert_eq|].
    split; [done|]. exists None. split; [|done].
    rewrite lookup_insert_ne by done. by rewrite lookup_insert_eq.
  - assert (Hl' : l ∈ b :: addrs).
    { apply last_Some_elem_of. exact Hlast. }
    assert (a <> l) by (intros ->; done).
    exists nx. split.
    + rewrite !lookup_insert_ne; done.
    + apply IH; try done.
Qed.

(** ** The packet queue functions on a well-formed queue *)

Lemma get_set_queue av i q : get_queue (set_queue av i q) i = q.
Proof. by destruct i. Qed.

Lemma get_set_queue_ne av i j q :
  i <> j -> get_queue (set_queue av i q) j = get_queue av j.
Proof. by destruct i, j. Qed.

Lemma queue_bytes_app sz l1 l2 :
  queue_bytes sz (l1 ++ l2) = queue_bytes sz l1 + queue_bytes sz l2.
Proof. induction l1 as [|x l1 IH]; simpl; lia. Qed.

Lemma queue_bytes_bounds sz l :
  0 < sz -> Forall packet_ok l ->
  Z.of_nat (length l) <= queue_bytes sz l.
Proof.
  intros Hsz Hok. induction Hok as [|x l Hx Hl IH]; simpl; [lia|].
  unfold packet_ok in Hx. lia.
Qed.

Section PacketQueueFacts.

Variable sizeof_item : Z.
Hypothesis sizeof_item_bounds : 0 < sizeof_item <= MAX_QUEUE_SIZE.

Variable malloc : gmap loc _packet_queue_item_t -> loc.
Hypothesis malloc_unused : forall h, malloc h ∉ dom h.

(** With sizes in range, the [size_t] comparison of the write loop is
    the comparison of the exact sum. *)
Lemma write_must_wait_spec q p :
  0 <= q_size q <= MAX_QUEUE_SIZE -> packet_ok p ->
  write_must_wait sizeof_item q p
  = (q_abort q =? 0) && (MAX_QUEUE_SIZE <? q_size q + pkt_size p + sizeof_item).
Proof.
  intros Hq Hp. unfold write_must_wait, packet_ok, INT_MAX in *. f_equal.
  unfold MAX_QUEUE_SIZE in *.
  rewrite (to_size_t_id (_ * _ * _)) by lia.
  destruct (Z_le_gt_dec (q_size q + pkt_size p) 2147483647) as [Hle|Hgt].
  - rewrite to_int_id by range.
    rewrite (to_size_t_id (_ + pkt_size p)) by lia.
    rewrite to_size_t_id by lia. done.
  - replace (to_int (q_size q + pkt_size p))
      with (q_size q + pkt_size p - 2 ^ 32).
    2:{ rewrite <- (to_int_shift _ (-1)).
        rewrite to_int_id; [lia|range]. }
    replace (to_size_t (q_size q + pkt_size p - 2 ^ 32))
      with (q_size q + pkt_size p - 2 ^ 32 + 2 ^ 64).
    2:{ unfold to_size_t.
        rewrite <- (Z.mod_add _ 1 (2 ^ 64)) by lia.
        rewrite Z.mod_small; lia. }
    rewrite to_size_t_id by lia.
    transitivity true; [|symmetry]; apply Z.ltb_lt; lia.
Qed.

Lemma size_after_write_spec q p :
  size_after_write sizeof_item q p = to_int (q_size q + pkt_size p + sizeof_item).
Proof.
  unfold size_after_write.
  rewrite to_int_to_size_t, to_int_add_size_t.
  destruct (to_size_t_shift (pkt_size p)) as [k ->].
  rewrite <- (to_int_shift (q_size q + pkt_size p + sizeof_item) k).
  f_equal. ring.
Qed.

Lemma size_after_read_spec q p :
  size_after_read sizeof_item q p = to_int (q_size q - (pkt_size p + sizeof_item)).
Proof.
  unfold size_after_read.
  rewrite to_int_to_size_t, to_int_sub_size_t.
  destruct (to_size_t_shift (pkt_size p)) as [k ->].
  rewrite <- (to_int_shift (q_size q - (pkt_size p + sizeof_item)) (- k)).
  f_equal. ring.
Qed.

Lemma chain_ext h h' p addrs pkts :
  (forall a, a ∈ addrs -> h' !! a = h !! a) ->
  chain h p addrs pkts -> chain h' p addrs pkts.
Proof.
  revert p pkts. induction addrs as [|b addrs IH]; intros p [|x pkts]; simpl;
    try tauto.
  intros Hext (Hp & nx & Hb & Hc).
  split; [done|]. exists nx. split.
  - rewrite Hext; [done|]. apply elem_of_cons; auto.
  - apply IH; [|done]. intros a Ha. apply Hext. apply elem_of_cons; auto.
Qed.

Lemma rep_frame h h' q addrs pkts :
  (forall a, a ∈ addrs -> h' !! a = h !! a) ->
  queue_rep sizeof_item h q addrs pkts -> queue_rep sizeof_item h' q addrs pkts.
Proof.
  intros Hext [H1 H2 H3 H4 H5 H6 H7 H8].
  split; try done. eapply chain_ext; eauto.
Qed.

Lemma rep_size_nonneg h q addrs pkts :
  queue_rep sizeof_item h q addrs pkts -> 0 <= q_size q <= MAX_QUEUE_SIZE.
Proof.
  intros [H1 H2 H3 H4 H5 H6 H7 H8]. split; [|done].
  rewrite H2. pose proof (queue_bytes_bounds sizeof_item pkts ltac:(lia) H7). lia.
Qed.

Lemma heap_set_queue av i q : heap (set_queue av i q) = heap av.
Proof. by destruct i. Qed.

Lemma get_queue_set_heap av h i : get_queue (set_heap av h) i = get_queue av i.
Proof. by destruct i. Qed.

Lemma get_queue_set_input_stall av v i :
  get_queue (set_input_stall av v) i = get_queue av i.
Proof. by destruct i. Qed.

Lemma get_queue_log_unref av p i : get_queue (log_unref av p) i = get_queue av i.
Proof. by destruct i. Qed.

(** Linking the fresh cell [p] extends the chain of a well-formed
    queue and touches no cell outside it. *)
Lemma link_item_spec h q addrs pkts pk :
  queue_rep sizeof_item h q addrs pkts ->
  let p := malloc h in
  exists h' q',
    link_item (<[p := mkItem pk None]> h) q p = Some (h', q') /\
    chain h' (q_first q') (addrs ++ [p]) (pkts ++ [pk]) /\
    (forall a, a <> p -> a ∉ addrs -> h' !! a = h !! a) /\
    q_length q' = q_length q /\ q_size q' = q_size q /\
    q_abort q' = q_abort q /\ q_eof q' = q_eof q.
Proof.
  intros [Hlen Hsize Hbound Hchain Hlast Hnd Hoks Habrt] p.
  assert (Hfresh : p ∉ dom h) by apply malloc_unused.
  assert (HpA : p ∉ addrs).
  { intros Hin. apply Hfresh, elem_of_dom. eapply chain_dom; eauto. }
  pose proof (chain_length _ _ _ _ Hchain) as Hlens.
  unfold link_item.
  destruct (Z.eqb_spec (q_length q) 0) as [H0|Hn0].
  - assert (pkts = []) as -> by (apply length_zero_iff_nil; lia).
    assert (addrs = []) as -> by (by apply length_zero_iff_nil).
    eexists _, _. split; [reflexivity|]. simpl.
    repeat split; try done.
    + exists None. split; [by rewrite lookup_insert_eq|done].
    + intros a Ha _. by rewrite lookup_insert_ne.
  - destruct (last addrs) as [l|] eqn:El.
    2:{ apply last_None in El. subst addrs. simpl in Hlens.
        destruct pkts; simpl in *; [lia|discriminate]. }
    rewrite (Hlast l eq_refl).
    assert (Hl : l ∈ addrs) by (by apply last_Some_elem_of).
    destruct (chain_dom _ _ _ _ _ Hchain Hl) as [itl Hitl].
    assert (l <> p) by (intros ->; done).
    rewrite lookup_insert_ne by done. rewrite Hitl.
    eexists _, _. split; [reflexivity|].
    repeat split; try done.
    + eapply chain_snoc; eauto.
    + intros a Ha Hna. rewrite !lookup_insert_ne; try done.
      intros ->. done.
Qed.

Lemma write_enqueues av i pk A P :
  queues_inv sizeof_item av A P ->
  q_abort (get_queue av i) = 0 ->
  packet_ok pk ->
  queue_bytes sizeof_item (P i) + pkt_size pk + sizeof_item <= MAX_QUEUE_SIZE ->
  exists av',
    _packet_queue_write sizeof_item malloc av i (Some pk) = Ret 0 av' /\
    queues_inv sizeof_item av'
      (upd A i (A i ++ [malloc (heap av)])) (upd P i (P i ++ [pk])) /\
    input_stall av' = 0 /\ unreffed av' = unreffed av /\
    (forall j, q_abort (get_queue av' j) = q_abort (get_queue av j) /\
               q_eof (get_queue av' j) = q_eof (get_queue av j)).
Proof.
  intros [Hrep Hdis] Hab Hok Hfit.
  pose proof (rep_size_nonneg _ _ _ _ (Hrep i)) as Hsz.
  destruct (link_item_spec _ _ _ _ pk (Hrep i))
    as (h' & q' & Hlink & Hchain' & Hframe & Hl' & Hs' & Ha' & He').
  destruct (Hrep i) as [Hlen Hsize Hbound Hchain Hlast Hnd Hoks Habrt].
  unfold _packet_queue_write.
  rewrite write_must_wait_spec by done.
  rewrite Hab. simpl andb.
  replace (MAX_QUEUE_SIZE <? _) with false
    by (symmetry; apply Z.ltb_ge; lia).
  cbv zeta. simpl (0 =? 1). cbv iota.
  replace (heap (set_input_stall av 0)) with (heap av) by reflexivity.
  rewrite Hlink.
  set (p := malloc (heap av)) in *.
  assert (HpA : forall j, p ∉ A j).
  { intros j Hin.
    assert (Hfresh : p ∉ dom (heap av)) by apply malloc_unused.
    apply Hfresh, elem_of_dom.
    eapply chain_dom; [apply (rep_chain _ _ _ _ _ (Hrep j))|done]. }
  pose proof (queue_bytes_bounds sizeof_item (P i) ltac:(lia) Hoks) as Hcount.
  eexists. split; [reflexivity|].
  split; [|split; [by destruct i|split; [by destruct i|]]].
  - split.
    + intros j. unfold upd. destruct (decide (j = i)) as [->|Hne].
      * rewrite get_set_queue, heap_set_queue. simpl.
        split; simpl.
        -- rewrite Hl', Hlen, length_app. simpl.
           rewrite to_int_id; [lia|range].
        -- rewrite size_after_write_spec, queue_bytes_app. simpl.
           rewrite to_int_id; [lia|range].
        -- rewrite size_after_write_spec.
           rewrite to_int_id; [lia|range].
        -- done.
        -- intros a. rewrite last_snoc. congruence.
        -- apply NoDup_app. split; [done|]. split; [|apply NoDup_singleton].
           intros a Ha Hp. apply list_elem_of_singleton in Hp as ->.
           by apply (HpA i).
        -- apply Forall_app. split; [done|]. by apply Forall_singleton.
        -- by rewrite Ha'.
      * rewrite get_set_queue_ne by done.
        rewrite heap_set_queue, get_queue_set_heap, get_queue_set_input_stall.
        simpl. eapply rep_frame; [|apply Hrep].
        intros a Ha. apply Hframe.
        -- intros ->. by apply (HpA j).
        -- intros Hai. destruct i, j; try done; eauto.
    + unfold upd. intros a Hv Ha.
      destruct i; simpl in Hv, Ha.
      * apply elem_of_app in Hv as [Hv|Hv]; [eauto|].
        apply list_elem_of_singleton in Hv as ->. by apply (HpA AudioQ).
      * apply elem_of_app in Ha as [Ha|Ha]; [eauto|].
        apply list_elem_of_singleton in Ha as ->. by apply (HpA VideoQ).
  - intros j. destruct i, j; simpl; auto.
Qed.

(** A read of a non-empty queue returns its oldest packet with status
    0 and leaves the rest queued. *)
Lemma read_dequeues av i x rest A P :
  queues_inv sizeof_item av A P ->
  P i = x :: rest ->
  exists av',
    _packet_queue_read sizeof_item av i = Ret (0, Some x) av' /\
    queues_inv sizeof_item av' (upd A i (tail (A i))) (upd P i rest) /\
    input_stall av' = input_stall av /\ unreffed av' = unreffed av /\
    (forall j, q_abort (get_queue av' j) = q_abort (get_queue av j) /\
               q_eof (get_queue av' j) = q_eof (get_queue av j)).
Proof.
  intros [Hrep Hdis] HP.
  pose proof (rep_size_nonneg _ _ _ _ (Hrep i)) as Hsz.
  destruct (Hrep i) as [Hlen Hsize Hbound Hchain Hlast Hnd Hoks Habrt].
  rewrite HP in *.
  destruct (A i) as [|a arest] eqn:HA; [simpl in Hchain; tauto|].
  simpl in Hchain. destruct Hchain as (Hfirst & nx & Ha & Hc).
  apply NoDup_cons in Hnd as [Hnotin Hnd].
  apply Forall_cons in Hoks as [Hx Hoks].
  pose proof (queue_bytes_bounds sizeof_item rest ltac:(lia) Hoks) as Hcount.
  simpl in Hlen, Hsize.
  unfold _packet_queue_read.
  destruct (Z.eqb_spec (q_length (get_queue av i)) 0) as [H0|_]; [lia|].
  rewrite Hfirst, Ha. simpl item_pkt. simpl item_next.
  eexists. split; [reflexivity|].
  split; [|split; [by destruct i|split; [by destruct i|]]].
  - split.
    + intros j. unfold upd. destruct (decide (j = i)) as [->|Hne].
      * rewrite get_set_queue, heap_set_queue. simpl.
        split; simpl.
        -- rewrite Hlen. rewrite to_int_id; [lia|range].
        -- rewrite size_after_read_spec, Hsize.
           rewrite to_int_id; [lia|range].
        -- rewrite size_after_read_spec, Hsize.
           rewrite to_int_id; range.
        -- eapply chain_ext; [|exact Hc].
           intros b Hb. rewrite lookup_delete_ne; [done|]. intros ->. done.
        -- intros l Hl. apply Hlast. destruct arest; [done|]. done.
        -- done.
        -- done.
        -- done.
      * rewrite get_set_queue_ne by done.
        rewrite heap_set_queue, get_queue_set_heap.
        simpl. eapply rep_frame; [|apply Hrep].
        intros b Hb. rewrite lookup_delete_ne; [done|]. intros <-.
        assert (Hai : a ∈ A i) by (rewrite HA; apply elem_of_cons; auto).
        destruct i, j; try done; eauto.
    + unfold upd. intros b Hv Hb.
      destruct i; simpl in Hv, Hb.
      * apply (Hdis b); [|done]. rewrite HA. apply elem_of_cons; auto.
      * apply (Hdis b); [done|]. rewrite HA. apply elem_of_cons; auto.
  - intros j. destruct i, j; simpl; auto.
Qed.

(** A read of an empty queue stores nothing and changes nothing: it
    returns 0 when the stall flag is up, else -2 or -1 on abort or end
    of stream, and else it waits. *)
Lemma read_empty av i :
  q_length (get_queue av i) = 0 ->
  _packet_queue_read sizeof_item av i =
    if negb (input_stall av =? 0) then Ret (0, None) av
    else if (q_abort (get_queue av i) =? 1) || (q_eof (get_queue av i) =? 1)
         then Ret (if q_abort (get_queue av i) =? 1 then -2 else -1, None) av
         else Wait av.
Proof. intros H. unfold _packet_queue_read. by rewrite H. Qed.

Lemma upd_eq {A} (f : queue_id -> A) i v : upd f i v i = v.
Proof. unfold upd. by rewrite decide_True. Qed.

Lemma upd_ne {A} (f : queue_id -> A) i j v : j <> i -> upd f i v j = f j.
Proof. intros. unfold upd. by rewrite decide_False. Qed.

(** After [_packet_queue_init] both queues are empty and well formed,
    whatever the heap holds. *)
Lemma init_inv av :
  queues_inv sizeof_item
    (_packet_queue_init (_packet_queue_init av VideoQ) AudioQ)
    (fun _ => []) (fun _ => []).
Proof.
  split; [|intros a Ha; inversion Ha].
  intros i. destruct i; simpl; split; simpl; try done;
    try apply NoDup_nil_2; auto; by unfold MAX_QUEUE_SIZE.
Qed.

(** Writes that fit all return 0 and append to the queue. *)
Lemma write_all_spec pkts : forall av i A P,
  queues_inv sizeof_item av A P ->
  q_abort (get_queue av i) = 0 ->
  Forall packet_ok pkts ->
  queue_bytes sizeof_item (P i ++ pkts) <= MAX_QUEUE_SIZE ->
  exists av' A' P',
    write_all sizeof_item malloc av i pkts = Some av' /\
    queues_inv sizeof_item av' A' P' /\
    P' i = P i ++ pkts /\ (forall j, j <> i -> P' j = P j) /\
    q_abort (get_queue av' i) = 0.
Proof.
  induction pkts as [|p pkts IH]; intros av i A P Hinv Hab Hok Hfit.
  - exists av, A, P. rewrite app_nil_r. simpl. auto.
  - apply Forall_cons in Hok as [Hp Hok].
    rewrite queue_bytes_app in Hfit. simpl in Hfit.
    pose proof (queue_bytes_bounds sizeof_item pkts ltac:(lia) Hok) as Hrest.
    destruct (write_enqueues av i p A P Hinv Hab Hp ltac:(lia))
      as (av1 & Hw & Hinv1 & _ & _ & Hflags).
    destruct (IH av1 i _ _ Hinv1) as (av' & A' & P' & Hws & Hinv' & Hi & Hj & Hab');
      try done.
    + destruct (Hflags i) as [-> _]. done.
    + rewrite upd_eq, !queue_bytes_app. simpl. lia.
    + exists av', A', P'.
      split; [cbn [write_all]; rewrite Hw; exact Hws|].
      split; [exact Hinv'|]. split; [|split; [|exact Hab']].
      * rewrite Hi, upd_eq, <- app_assoc. done.
      * intros j Hne. rewrite Hj by done. by apply upd_ne.
Qed.

(** Reads of a queue that holds [l ++ rest] return [l], in order. *)
Lemma read_all_spec l : forall av i rest A P,
  queues_inv sizeof_item av A P ->
  P i = l ++ rest ->
  exists av' A' P',
    read_all sizeof_item av i (length l) = Some (l, av') /\
    queues_inv sizeof_item av' A' P' /\
    P' i = rest /\ (forall j, j <> i -> P' j = P j).
Proof.
  induction l as [|x l IH]; intros av i rest A P Hinv HP.
  - exists av, A, P. simpl. auto.
  - destruct (read_dequeues av i x (l ++ rest) A P Hinv HP)
      as (av1 & Hr & Hinv1 & _).
    destruct (IH av1 i rest _ _ Hinv1) as (av' & A' & P' & Hrs & Hinv' & Hi & Hj).
    { by rewrite upd_eq. }
    exists av', A', P'.
    split; [cbn [read_all length]; rewrite Hr; cbn; by rewrite Hrs|].
    split; [exact Hinv'|]. split; [exact Hi|].
    intros j Hne. rewrite Hj by done. by apply upd_ne.
Qed.

(** C3: packets written to an empty queue while they fit under the
    capacity bound, with abort never set, all get enqueued (each write
    returns 0), and the same number of successive reads then return
    exactly these packets, in the order written, each once: after them
    the queue is empty and a further read stores no packet. *)
Theorem packet_queue_fifo av i pkts A P :
  queues_inv sizeof_item av A P ->
  P i = [] ->
  q_abort (get_queue av i) = 0 ->
  Forall packet_ok pkts ->
  queue_bytes sizeof_item pkts <= MAX_QUEUE_SIZE ->
  exists av1 av2,
    write_all sizeof_item malloc av i pkts = Some av1 /\
    read_all sizeof_item av1 i (length pkts) = Some (pkts, av2) /\
    q_length (get_queue av2 i) = 0 /\
    (forall r p s, _packet_queue_read sizeof_item av2 i = Ret (r, p) s -> p = None).
Proof.
  intros Hinv Hempty Hab Hok Hfit.
  destruct (write_all_spec pkts av i A P Hinv Hab Hok)
    as (av1 & A1 & P1 & Hw & Hinv1 & Hi & _ & _).
  { by rewrite Hempty. }
  rewrite Hempty in Hi. simpl in Hi.
  destruct (read_all_spec pkts av1 i [] A1 P1 Hinv1)
    as (av2 & A2 & P2 & Hr & Hinv2 & Hi2 & _).
  { by rewrite app_nil_r. }
  exists av1, av2. split; [exact Hw|]. split; [exact Hr|]. split.
  - destruct (inv_rep _ _ _ _ Hinv2 i) as [Hlen _ _ _ _ _ _ _].
    by rewrite Hlen, Hi2.
  - intros r p s. rewrite read_empty.
    + repeat case_match; congruence.
    + destruct (inv_rep _ _ _ _ Hinv2 i) as [Hlen _ _ _ _ _ _ _].
      by rewrite Hlen, Hi2.
Qed.



(** C6 (amended): when a read finds its queue empty and [input_stall]
    set, it returns status 0, which differs from the end-of-stream
    status -1 and the abort status -2, without waiting, storing a
    packet or changing the state.  The flag is the one flag of the
    pipeline: a write that waits on either queue sets it, and a read of
    any empty queue then returns in this way. *)
Theorem read_empty_stalled av i :
  q_length (get_queue av i) = 0 ->
  input_stall av <> 0 ->
  (exists r, _packet_queue_read sizeof_item av i = Ret (r, None) av /\
             r = 0 /\ r <> -1 /\ r <> -2)
  /\
  (forall av0 j pk,
     _packet_queue_write sizeof_item malloc av0 j (Some pk) = Wait av ->
     forall k, q_length (get_queue av k) = 0 ->
               _packet_queue_read sizeof_item av k = Ret (0, None) av).
Proof.
  intros Hlen Hstall. split.
  - exists 0. rewrite read_empty by done.
    destruct (Z.eqb_spec (input_stall av) 0); [done|]. simpl. auto with lia.
  - intros av0 j pk Hw k Hk. rewrite read_empty by done.
    unfold _packet_queue_write in Hw.
    destruct (write_must_wait _ _ _); [|repeat case_match; discriminate].
    injection Hw as <-. reflexivity.
Qed.

(** [_packet_queue_flush] frees every cell of the queue and hands
    every queued packet to [av_packet_unref], but it leaves [length] at
    -1 and does not touch [size]. *)
Lemma flush_loop_spec i : forall addrs pkts av,
  chain (heap av) (q_first (get_queue av i)) addrs pkts ->
  NoDup addrs ->
  q_length (get_queue av i) = Z.of_nat (length pkts) ->
  Z.of_nat (length pkts) <= INT_MAX ->
  exists av',
    flush_loop (length pkts) av i = Some av' /\
    q_length (get_queue av' i) = -1 /\
    q_size (get_queue av' i) = q_size (get_queue av i) /\
    unreffed av' = unreffed av ++ pkts /\
    (forall a, a ∈ addrs -> heap av' !! a = None) /\
    (forall a, a ∉ addrs -> heap av' !! a = heap av !! a) /\
    (forall j, j <> i -> get_queue av' j = get_queue av j).
Proof.
  induction addrs as [|a addrs IH]; intros [|x pkts] av Hc Hnd Hlen Hmax;
    simpl in Hc; try tauto.
  - exists (set_queue av i (set_length (get_queue av i) (-1))).
    simpl in *. rewrite Hlen. simpl.
    split; [done|]. rewrite get_set_queue, heap_set_queue. simpl.
    split; [done|]. split; [done|]. split; [by destruct i; simpl; rewrite app_nil_r|].
    split; [intros a Ha; inversion Ha|]. split; [done|].
    intros j Hne. by rewrite get_set_queue_ne.
  - destruct Hc as (Hfirst & nx & Ha & Hc).
    apply NoDup_cons in Hnd as [Hnotin Hnd].
    cbn [flush_loop length].
    cbn [length] in Hlen, Hmax. rewrite Nat2Z.inj_succ in Hlen, Hmax.
    destruct (Z.eqb_spec (q_length (get_queue av i)) 0) as [H0|_].
    { lia. }
    cbn [q_first set_length]. rewrite Hfirst, Ha. cbn [item_next item_pkt].
    match goal with |- context [flush_loop _ ?s i] => set (av1 := s) end.
    destruct (IH pkts av1) as (av' & Hf & Hl' & Hs' & Hu' & Hin & Hout & Hoth).
    + subst av1. rewrite get_queue_set_heap, get_queue_log_unref, get_set_queue.
      simpl. destruct i; simpl;
        (eapply chain_ext; [|exact Hc]);
        intros b Hb; (rewrite lookup_delete_ne; [done|]); intros <-; done.
    + done.
    + subst av1. rewrite get_queue_set_heap, get_queue_log_unref, get_set_queue.
      simpl. rewrite Hlen.
      rewrite to_int_id; [lia|range].
    + lia.
    + exists av'. split; [exact Hf|].
      assert (Hq1 : q_size (get_queue av1 i) = q_size (get_queue av i)).
      { subst av1.
        rewrite get_queue_set_heap, get_queue_log_unref, get_set_queue. done. }
      assert (Hh1 : heap av1 = delete a (heap av)).
      { subst av1. by destruct i. }
      split; [done|]. split; [congruence|]. split.
      { rewrite Hu'. subst av1. destruct i; simpl; by rewrite <- app_assoc. }
      split.
      { intros b Hb. apply elem_of_cons in Hb as [->|Hb]; [|by apply Hin].
        rewrite Hout by done. rewrite Hh1. apply lookup_delete_eq. }
      split.
      { intros b Hb. apply not_elem_of_cons in Hb as [Hne Hb].
        rewrite Hout by done. rewrite Hh1. by apply lookup_delete_ne. }
      intros j Hne. rewrite Hoth by done. subst av1.
      rewrite get_queue_set_heap, get_queue_log_unref.
      by rewrite get_set_queue_ne.
Qed.

Lemma to_int_mod x : to_int x mod 2 ^ 32 = x mod 2 ^ 32.
Proof.
  unfold to_int.
  rewrite Zminus_mod, Z.mod_mod by lia.
  rewrite <- Zminus_mod. f_equal. lia.
Qed.

(** The recursion argument of [flush_loop] is the number of rounds the
    loop makes: giving it more changes nothing, so the loop never ends
    for want of it. *)
Lemma flush_loop_fuel n : forall m av i,
  in_int (q_length (get_queue av i)) ->
  (Z.to_nat (q_length (get_queue av i) mod 2 ^ 32) <= n)%nat ->
  flush_loop (n + m) av i = flush_loop n av i.
Proof.
  induction n as [|n IH]; intros m av i Hin Hn.
  - assert (H0 : q_length (get_queue av i) = 0).
    { pose proof (Z.mod_pos_bound (q_length (get_queue av i)) (2 ^ 32)).
      unfold in_int, INT_MIN, INT_MAX in Hin.
      destruct (Z_lt_ge_dec (q_length (get_queue av i)) 0).
      - rewrite <- (Z.mod_add _ 1) in Hn by lia.
        rewrite Z.mod_small in Hn; lia.
      - rewrite Z.mod_small in Hn; lia. }
    destruct m; simpl; by rewrite H0.
  - cbn [Nat.add flush_loop].
    destruct (q_length (get_queue av i) =? 0) eqn:H0; [done|].
    apply Z.eqb_neq in H0.
    destruct (q_first _) as [p|]; [|done].
    destruct (heap av !! p) as [it|]; [|done].
    apply IH.
    + rewrite get_queue_set_heap, get_queue_log_unref, get_set_queue. simpl.
      apply to_int_range.
    + rewrite get_queue_set_heap, get_queue_log_unref, get_set_queue. simpl.
      rewrite to_int_mod.
      assert (q_length (get_queue av i) mod 2 ^ 32 <> 0).
      { unfold in_int, INT_MIN, INT_MAX in Hin.
        destruct (Z_lt_ge_dec (q_length (get_queue av i)) 0).
        - rewrite <- (Z.mod_add _ 1) by lia. rewrite Z.mod_small; lia.
        - rewrite Z.mod_small; lia. }
      pose proof (Z.mod_pos_bound (q_length (get_queue av i)) (2 ^ 32)).
      rewrite Zminus_mod, (Z.mod_small 1), Z.mod_small by lia. lia.
Qed.

Lemma flush_spec av i A P :
  queues_inv sizeof_item av A P ->
  exists av',
    _packet_queue_flush av i = Ret 0 av' /\
    q_length (get_queue av' i) = -1 /\
    q_size (get_queue av' i) = queue_bytes sizeof_item (P i) /\
    unreffed av' = unreffed av ++ P i /\
    (forall a, a ∈ A i -> heap av' !! a = None).
Proof.
  intros [Hrep Hdis].
  destruct (Hrep i) as [Hlen Hsize Hbound Hchain Hlast Hnd Hoks Habrt].
  pose proof (queue_bytes_bounds sizeof_item (P i) ltac:(lia) Hoks) as Hcount.
  destruct (flush_loop_spec i (A i) (P i) av Hchain Hnd Hlen)
    as (av' & Hf & Hl' & Hs' & Hu' & Hin & _).
  { range. }
  exists av'. unfold _packet_queue_flush.
  rewrite Hlen, Z.mod_small, Nat2Z.id, Hf.
  - repeat split; try done. congruence.
  - range.
Qed.


(** Changing a flag of a queue keeps it well formed. *)
Lemma inv_set_flags av i q' A P :
  queues_inv sizeof_item av A P ->
  q_length q' = q_length (get_queue av i) ->
  q_size q' = q_size (get_queue av i) ->
  q_first q' = q_first (get_queue av i) ->
  q_last q' = q_last (get_queue av i) ->
  q_abort q' = 0 \/ q_abort q' = 1 ->
  queues_inv sizeof_item (set_queue av i q') A P.
Proof.
  intros [Hrep Hdis] Hl Hs Hf Hla Hab. split; [|done].
  intros j. rewrite heap_set_queue.
  destruct (decide (i = j)) as [<-|Hne].
  - rewrite get_set_queue.
    destruct (Hrep i) as [H1 H2 H3 H4 H5 H6 H7 H8].
    split; rewrite ?Hl, ?Hs, ?Hf, ?Hla; done.
  - rewrite get_set_queue_ne by done. apply Hrep.
Qed.

Lemma inv_same_queues av av' A P :
  queues_inv sizeof_item av A P ->
  heap av' = heap av -> (forall j, get_queue av' j = get_queue av j) ->
  queues_inv sizeof_item av' A P.
Proof.
  intros [Hrep Hdis] Hh Hq. split; [|done].
  intros j. rewrite Hh, Hq. apply Hrep.
Qed.

(** Every call other than flush keeps both queues well formed. *)
Lemma queue_step_inv av op A P :
  queues_inv sizeof_item av A P -> plain_op op ->
  exists av' A' P',
    queue_step sizeof_item malloc av op = Some av' /\ queues_inv sizeof_item av' A' P'.
Proof.
  intros Hinv Hop. destruct op as [i [pk|]|i|i|i]; simpl in Hop; [| | | |done].
  - (* write of a packet *)
    pose proof (rep_size_nonneg _ _ _ _ (inv_rep _ _ _ _ Hinv i)) as Hsz.
    pose proof (rep_abort _ _ _ _ _ (inv_rep _ _ _ _ Hinv i)) as Hab.
    pose proof (rep_size _ _ _ _ _ (inv_rep _ _ _ _ Hinv i)) as Hsize.
    cbn [queue_step].
    destruct (write_must_wait sizeof_item (get_queue av i) pk) eqn:Hw.
    + unfold _packet_queue_write. rewrite Hw. simpl.
      eexists _, A, P. split; [done|].
      eapply inv_same_queues; [exact Hinv|done|by intros []].
    + destruct Hab as [Hab|Hab].
      * rewrite write_must_wait_spec, Hab in Hw by done. simpl in Hw.
        apply Z.ltb_ge in Hw.
        destruct (write_enqueues av i pk A P Hinv Hab Hop) as (av' & -> & Hinv' & _).
        { lia. }
        eexists _, _, _. split; [done|exact Hinv'].
      * unfold _packet_queue_write. rewrite Hw, Hab. simpl.
        eexists _, A, P. split; [done|].
        eapply inv_same_queues; [exact Hinv|done|by intros []].
  - (* write of the NULL packet *)
    eexists _, A, P. split; [done|].
    apply inv_set_flags; try done.
    apply (rep_abort _ _ _ _ _ (inv_rep _ _ _ _ Hinv i)).
  - (* read *)
    cbn [queue_step].
    destruct (P i) as [|x rest] eqn:HP.
    + rewrite read_empty.
      2:{ rewrite (rep_length _ _ _ _ _ (inv_rep _ _ _ _ Hinv i)), HP. done. }
      exists av, A, P. split; [|done]. by repeat case_match.
    + destruct (read_dequeues av i x rest A P Hinv HP) as (av' & -> & Hinv' & _).
      eexists _, _, _. split; [done|exact Hinv'].
  - (* abort *)
    eexists _, A, P. split; [done|].
    apply inv_set_flags; try done. by right.
Qed.

Lemma queue_run_inv ops : forall av A P,
  queues_inv sizeof_item av A P -> Forall plain_op ops ->
  exists av' A' P',
    queue_run sizeof_item malloc av ops = Some av' /\ queues_inv sizeof_item av' A' P'.
Proof.
  induction ops as [|op ops IH]; intros av A P Hinv Hops.
  - exists av, A, P. done.
  - apply Forall_cons in Hops as [Hop Hops].
    destruct (queue_step_inv av op A P Hinv Hop) as (av1 & A1 & P1 & Hs & Hinv1).
    destruct (IH av1 A1 P1 Hinv1 Hops) as (av' & A' & P' & Hr & Hinv').
    exists av', A', P'. split; [|done]. cbn [queue_run]. by rewrite Hs.
Qed.

(** Without flush the accounting of the queue is exact: after any
    sequence of writes, reads and aborts on initialised queues, each
    queue holds a list of packets that [length] counts and [size] sums
    up with the per-entry overhead, and no queue has length 0 and a
    positive size. *)
Lemma queue_accounting_without_flush av0 ops :
  Forall plain_op ops ->
  exists av P,
    queue_run sizeof_item malloc
      (_packet_queue_init (_packet_queue_init av0 VideoQ) AudioQ) ops = Some av /\
    forall i,
      q_length (get_queue av i) = Z.of_nat (length (P i)) /\
      q_size (get_queue av i) = queue_bytes sizeof_item (P i) /\
      ~ (q_length (get_queue av i) = 0 /\ 0 < q_size (get_queue av i)).
Proof.
  intros Hops.
  destruct (queue_run_inv ops _ _ _ (init_inv av0) Hops) as (av & A & P & Hr & Hinv).
  exists av, P. split; [done|]. intros i.
  destruct (inv_rep _ _ _ _ Hinv i) as [Hlen Hsize _ _ _ _ _ _].
  split; [done|]. split; [done|].
  intros [H0 Hpos]. rewrite Hlen in H0.
  assert (P i = []) as HP by (apply length_zero_iff_nil; lia).
  rewrite Hsize, HP in Hpos. simpl in Hpos. lia.
Qed.


(** ** Further properties of the packet queue *)

(** The well-formedness of the queues depends only on the entries of
    the two tables. *)
Lemma queues_inv_ext av A P A' P' :
  (forall j, A' j = A j) -> (forall j, P' j = P j) ->
  queues_inv sizeof_item av A P -> queues_inv sizeof_item av A' P'.
Proof.
  intros HA HP [Hrep Hdis]. split.
  - intros j. rewrite HA, HP. apply Hrep.
  - intros a. rewrite !HA. apply Hdis.
Qed.

(** Reads of a queue that holds [l ++ rest] return [l] and leave
    [rest]; they change neither the flags nor the other queue. *)
Lemma read_all_keeps l : forall av i rest A P,
  queues_inv sizeof_item av A P ->
  P i = l ++ rest ->
  exists av' A',
    read_all sizeof_item av i (length l) = Some (l, av') /\
    queues_inv sizeof_item av' A' (upd P i rest) /\
    input_stall av' = input_stall av /\ unreffed av' = unreffed av /\
    (forall j, q_abort (get_queue av' j) = q_abort (get_queue av j) /\
               q_eof (get_queue av' j) = q_eof (get_queue av j)).
Proof.
  induction l as [|x l IH]; intros av i rest A P Hinv HP.
  - exists av, A. simpl. split; [done|]. split; [|done].
    eapply queues_inv_ext; [| |exact Hinv]; [done|].
    intros j. unfold upd. destruct (decide (j = i)) as [->|]; by rewrite ?HP.
  - destruct (read_dequeues av i x (l ++ rest) A P Hinv HP)
      as (av1 & Hr & Hinv1 & Hst1 & Hun1 & Hfl1).
    destruct (IH av1 i rest _ _ Hinv1) as (av' & A' & Hrs & Hinv' & Hst & Hun & Hfl).
    { by rewrite upd_eq. }
    exists av', A'.
    split; [cbn [read_all length]; rewrite Hr; cbn; by rewrite Hrs|].
    split.
    { eapply queues_inv_ext; [| |exact Hinv']; [done|].
      intros j. unfold upd. by destruct (decide (j = i)). }
    split; [congruence|]. split; [congruence|].
    intros j. destruct (Hfl j) as [-> ->]. apply Hfl1.
Qed.

(** After any sequence of writes, reads and aborts on freshly
    initialised queues, the counters of each queue describe what the
    queue holds: there is a list of packets that the next reads return
    in order, [length] is its length, [size] is the sum of the packet
    sizes plus the per-entry overhead, and [size] lies between 0 and
    [MAX_QUEUE_SIZE].  No call of such a sequence faults. *)
Theorem queue_counters_match_contents av0 ops :
  Forall plain_op ops ->
  exists av P,
    queue_run sizeof_item malloc
      (_packet_queue_init (_packet_queue_init av0 VideoQ) AudioQ) ops = Some av /\
    forall i,
      q_length (get_queue av i) = Z.of_nat (length (P i)) /\
      q_size (get_queue av i) = queue_bytes sizeof_item (P i) /\
      0 <= q_size (get_queue av i) <= MAX_QUEUE_SIZE /\
      exists av', read_all sizeof_item av i (length (P i)) = Some (P i, av').
Proof.
  intros Hops.
  destruct (queue_run_inv ops _ _ _ (init_inv av0) Hops) as (av & A & P & Hr & Hinv).
  exists av, P. split; [done|]. intros i.
  pose proof (rep_size_nonneg _ _ _ _ (inv_rep _ _ _ _ Hinv i)) as Hsz.
  destruct (inv_rep _ _ _ _ Hinv i) as [Hlen Hsize _ _ _ _ _ _].
  split; [done|]. split; [done|]. split; [done|].
  destruct (read_all_keeps (P i) av i [] A P Hinv) as (av' & _ & Hra & _).
  { by rewrite app_nil_r. }
  by exists av'.
Qed.

(** The end of the stream is delivered behind the queued packets: the
    write of the NULL packet returns 0 at once, whatever the queue
    holds, and the reads that follow return every queued packet, in
    order, before a read returns the end-of-stream status -1; that
    read and every later one store no packet and leave the state as it
    is. *)
Theorem end_of_stream_follows_queued_packets av i A P :
  queues_inv sizeof_item av A P ->
  input_stall av = 0 ->
  q_abort (get_queue av i) = 0 ->
  exists av1 av2,
    _packet_queue_write sizeof_item malloc av i None = Ret 0 av1 /\
    read_all sizeof_item av1 i (length (P i)) = Some (P i, av2) /\
    _packet_queue_read sizeof_item av2 i = Ret (-1, None) av2.
Proof.
  intros Hinv Hstall Hab.
  set (av1 := set_queue av i (set_eof (get_queue av i) 1)).
  assert (Hinv1 : queues_inv sizeof_item av1 A P).
  { apply inv_set_flags; try done.
    apply (rep_abort _ _ _ _ _ (inv_rep _ _ _ _ Hinv i)). }
  destruct (read_all_keeps (P i) av1 i [] A P Hinv1)
    as (av2 & A2 & Hra & Hinv2 & Hst & _ & Hfl).
  { by rewrite app_nil_r. }
  exists av1, av2. split; [done|]. split; [done|].
  rewrite read_empty.
  2:{ rewrite (rep_length _ _ _ _ _ (inv_rep _ _ _ _ Hinv2 i)).
      by rewrite upd_eq. }
  destruct (Hfl i) as [Ha He].
  subst av1. rewrite get_set_queue in Ha, He. simpl in Ha, He.
  rewrite Hst, Ha, He, Hab.
  replace (input_stall (set_queue av i _)) with (input_stall av) by (by destruct i).
  by rewrite Hstall.
Qed.

(** Abort does not discard what is queued: after [_packet_queue_abort]
    the reads still return every queued packet, in order, and only
    then the abort status -2, also when the end of the stream was
    signalled before. *)
Theorem abort_keeps_queued_packets av i A P :
  queues_inv sizeof_item av A P ->
  input_stall av = 0 ->
  exists av2,
    read_all sizeof_item (_packet_queue_abort av i) i (length (P i))
    = Some (P i, av2) /\
    _packet_queue_read sizeof_item av2 i = Ret (-2, None) av2.
Proof.
  intros Hinv Hstall.
  set (av1 := _packet_queue_abort av i).
  assert (Hinv1 : queues_inv sizeof_item av1 A P).
  { apply inv_set_flags; try done. by right. }
  destruct (read_all_keeps (P i) av1 i [] A P Hinv1)
    as (av2 & A2 & Hra & Hinv2 & Hst & _ & Hfl).
  { by rewrite app_nil_r. }
  exists av2. split; [done|].
  rewrite read_empty.
  2:{ rewrite (rep_length _ _ _ _ _ (inv_rep _ _ _ _ Hinv2 i)).
      by rewrite upd_eq. }
  destruct (Hfl i) as [Ha He].
  subst av1. unfold _packet_queue_abort in Ha. rewrite get_set_queue in Ha.
  simpl in Ha. rewrite Hst, Ha.
  replace (input_stall (_packet_queue_abort av i)) with (input_stall av)
    by (by destruct i).
  by rewrite Hstall.
Qed.

(** The flush loop leaves the abort flag of every queue as it is. *)
Lemma flush_loop_abort n : forall av i j av',
  flush_loop n av i = Some av' ->
  q_abort (get_queue av' j) = q_abort (get_queue av j).
Proof.
  assert (Hset : forall av i j v,
            q_abort (get_queue (set_queue av i (set_length (get_queue av i) v)) j)
            = q_abort (get_queue av j)).
  { intros av i j v. destruct (decide (j = i)) as [->|Hne].
    - by rewrite get_set_queue.
    - by rewrite get_set_queue_ne. }
  induction n as [|n IH]; intros av i j av'; cbn [flush_loop].
  - destruct (_ =? 0); intros [= <-]; apply Hset.
  - destruct (_ =? 0); [intros [= <-]; apply Hset|].
    destruct (q_first _) as [p|]; [|discriminate].
    destruct (heap av !! p) as [it|]; [|discriminate].
    intros Hf. rewrite (IH _ _ _ _ Hf).
    rewrite get_queue_set_heap, get_queue_log_unref.
    destruct (decide (j = i)) as [->|Hne].
    + by rewrite get_set_queue.
    + by rewrite get_set_queue_ne.
Qed.

(** No call lowers an abort flag. *)
Lemma queue_step_abort av op av' j :
  queue_step sizeof_item malloc av op = Some av' ->
  q_abort (get_queue av j) = 1 -> q_abort (get_queue av' j) = 1.
Proof.
  destruct op as [i [pk|]|i|i|i]; cbn [queue_step].
  - unfold _packet_queue_write.
    destruct (write_must_wait _ _ _).
    { intros [= <-]. by rewrite get_queue_set_input_stall. }
    cbv zeta. destruct (q_abort (get_queue av i) =? 1).
    { intros [= <-]. by rewrite get_queue_log_unref, get_queue_set_input_stall. }
    destruct (link_item _ _ _) as [[h' q']|] eqn:Hlink; [|discriminate].
    intros [= <-].
    destruct (decide (j = i)) as [->|Hne].
    + rewrite get_set_queue. simpl.
      unfold link_item in Hlink.
      destruct (_ =? 0); [by injection Hlink as <- <-|].
      destruct (q_last _); [|discriminate].
      destruct (_ !! _); [|discriminate]. by injection Hlink as <- <-.
    + rewrite get_set_queue_ne by done.
      by rewrite get_queue_set_heap, get_queue_set_input_stall.
  - intros [= <-].
    destruct (decide (j = i)) as [->|Hne].
    + by rewrite get_set_queue.
    + by rewrite get_set_queue_ne.
  - unfold _packet_queue_read.
    destruct (_ =? 0).
    { destruct (negb _); [by intros [= <-]|].
      destruct (_ || _); by intros [= <-]. }
    destruct (q_first _) as [p|]; [|discriminate].
    destruct (heap av !! p) as [it|]; [|discriminate].
    intros [= <-].
    destruct (decide (j = i)) as [->|Hne].
    + by rewrite get_set_queue.
    + rewrite get_set_queue_ne by done. by rewrite get_queue_set_heap.
  - intros [= <-]. unfold _packet_queue_abort.
    destruct (decide (j = i)) as [->|Hne].
    + by rewrite get_set_queue.
    + by rewrite get_set_queue_ne.
  - unfold _packet_queue_flush.
    destruct (flush_loop _ av i) as [av1|] eqn:Hf; [|discriminate].
    intros [= <-]. by rewrite (flush_loop_abort _ _ _ j _ Hf).
Qed.

(** Abort is final.  Once [_packet_queue_abort] has run on a queue, no
    later write, read, abort or flush on either queue clears its abort
    flag, and every later write of a packet to it returns -2 at once:
    it never waits, however full the queue is, it enqueues nothing and
    allocates nothing, and it hands the packet to [av_packet_unref]. *)
Theorem abort_is_final av i ops av' :
  queue_run sizeof_item malloc (_packet_queue_abort av i) ops = Some av' ->
  q_abort (get_queue av' i) = 1 /\
  forall pk,
    _packet_queue_write sizeof_item malloc av' i (Some pk)
    = Ret (-2) (log_unref (set_input_stall av' 0) pk).
Proof.
  intros Hrun.
  assert (Hab : q_abort (get_queue av' i) = 1).
  { assert (H0 : q_abort (get_queue (_packet_queue_abort av i) i) = 1).
    { unfold _packet_queue_abort. by rewrite get_set_queue. }
    revert Hrun H0. generalize (_packet_queue_abort av i).
    induction ops as [|op ops IH]; intros s; cbn [queue_run].
    - by intros [= <-].
    - destruct (queue_step _ _ s op) as [s1|] eqn:Hs; [|discriminate].
      intros Hrun H0. apply (IH s1 Hrun). by eapply queue_step_abort. }
  split; [done|]. intros pk.
  unfold _packet_queue_write, write_must_wait. by rewrite Hab.
Qed.

(** Packets written behind queued ones are read behind them, and the
    other queue is not touched: after writes to queue [i] that fit, the
    reads of [i] return what it held before followed by the packets
    written, in order, and the reads of the other queue return what
    that queue held. *)
Theorem queues_do_not_interfere av i pkts A P :
  queues_inv sizeof_item av A P ->
  q_abort (get_queue av i) = 0 ->
  Forall packet_ok pkts ->
  queue_bytes sizeof_item (P i ++ pkts) <= MAX_QUEUE_SIZE ->
  exists av1,
    write_all sizeof_item malloc av i pkts = Some av1 /\
    (exists av2,
       read_all sizeof_item av1 i (length (P i ++ pkts))
       = Some (P i ++ pkts, av2)) /\
    (forall j, j <> i ->
       exists av2,
         read_all sizeof_item av1 j (length (P j)) = Some (P j, av2)).
Proof.
  intros Hinv Hab Hok Hfit.
  destruct (write_all_spec pkts av i A P Hinv Hab Hok Hfit)
    as (av1 & A1 & P1 & Hw & Hinv1 & Hi & Hj & _).
  exists av1. split; [done|]. split.
  - destruct (read_all_keeps (P i ++ pkts) av1 i [] A1 P1 Hinv1)
      as (av2 & _ & Hra & _).
    { by rewrite app_nil_r. }
    by exists av2.
  - intros j Hne.
    destruct (read_all_keeps (P j) av1 j [] A1 P1 Hinv1) as (av2 & _ & Hra & _).
    { rewrite app_nil_r. by apply Hj. }
    by exists av2.
Qed.

(** Back-pressure and its release.  A write that would take the queue
    over [MAX_QUEUE_SIZE] waits and raises [input_stall]; once a read
    has taken the oldest packet out and the new packet fits, the same
    write returns 0, lowers [input_stall] and enqueues the packet
    behind the remaining ones. *)
Theorem stalled_write_resumes_after_read av i x rest pk A P :
  queues_inv sizeof_item av A P ->
  P i = x :: rest ->
  q_abort (get_queue av i) = 0 ->
  packet_ok pk ->
  MAX_QUEUE_SIZE < queue_bytes sizeof_item (P i) + pkt_size pk + sizeof_item ->
  queue_bytes sizeof_item rest + pkt_size pk + sizeof_item <= MAX_QUEUE_SIZE ->
  exists av1 av2 av3 av4,
    _packet_queue_write sizeof_item malloc av i (Some pk) = Wait av1 /\
    input_stall av1 = 1 /\
    _packet_queue_read sizeof_item av1 i = Ret (0, Some x) av2 /\
    _packet_queue_write sizeof_item malloc av2 i (Some pk) = Ret 0 av3 /\
    input_stall av3 = 0 /\
    read_all sizeof_item av3 i (length (rest ++ [pk])) = Some (rest ++ [pk], av4).
Proof.
  intros Hinv HP Hab Hok Hover Hfit.
  pose proof (rep_size_nonneg _ _ _ _ (inv_rep _ _ _ _ Hinv i)) as Hsz.
  pose proof (rep_size _ _ _ _ _ (inv_rep _ _ _ _ Hinv i)) as Hsize.
  set (av1 := set_input_stall av 1).
  assert (Hinv1 : queues_inv sizeof_item av1 A P).
  { eapply inv_same_queues; [exact Hinv|done|by intros []]. }
  destruct (read_dequeues av1 i x rest A P Hinv1 HP)
    as (av2 & Hr & Hinv2 & _ & _ & Hfl2).
  destruct (write_enqueues av2 i pk _ _ Hinv2) as (av3 & Hw & Hinv3 & Hst3 & _).
  { destruct (Hfl2 i) as [-> _]. subst av1.
    by rewrite get_queue_set_input_stall. }
  { done. }
  { by rewrite upd_eq. }
  destruct (read_all_keeps (rest ++ [pk]) av3 i [] _ _ Hinv3) as (av4 & _ & Hra & _).
  { by rewrite app_nil_r, !upd_eq. }
  exists av1, av2, av3, av4.
  split.
  { unfold _packet_queue_write. rewrite write_must_wait_spec by done.
    rewrite Hab. simpl.
    replace (MAX_QUEUE_SIZE <? _) with true; [done|].
    symmetry. apply Z.ltb_lt. lia. }
  done.
Qed.

(** [_packet_queue_flush] (and with it [_packet_queue_free]) releases
    everything the queue holds: it returns 0 without waiting, hands
    every queued packet to [av_packet_unref] in queue order, frees
    every cell of the queue and no other cell, and leaves the other
    queue as it is. *)
Theorem flush_releases_every_packet av i A P :
  queues_inv sizeof_item av A P ->
  exists av',
    _packet_queue_flush av i = Ret 0 av' /\
    unreffed av' = unreffed av ++ P i /\
    (forall a, a ∈ A i -> heap av' !! a = None) /\
    (forall a, a ∉ A i -> heap av' !! a = heap av !! a) /\
    (forall j, j <> i -> get_queue av' j = get_queue av j).
Proof.
  intros [Hrep Hdis].
  destruct (Hrep i) as [Hlen Hsize Hbound Hchain Hlast Hnd Hoks Habrt].
  pose proof (queue_bytes_bounds sizeof_item (P i) ltac:(lia) Hoks) as Hcount.
  destruct (flush_loop_spec i (A i) (P i) av Hchain Hnd Hlen)
    as (av' & Hf & _ & _ & Hu' & Hin & Hout & Hoth).
  { range. }
  exists av'. unfold _packet_queue_flush.
  rewrite Hlen, Z.mod_small, Nat2Z.id, Hf; [done|range].
Qed.

(** ** The input thread *)

Lemma queue_bytes_filter_app (f : AVPacket -> bool) l p rest :
  queue_bytes sizeof_item (l ++ filter f (p :: rest))
  = queue_bytes sizeof_item ((l ++ (if f p then [p] else [])) ++ filter f rest).
Proof.
  f_equal. rewrite <- app_assoc. f_equal.
  destruct (f p) eqn:Hf.
  - by rewrite filter_cons_True by (by rewrite Hf).
  - rewrite filter_cons_False; [done|]. rewrite Hf. by intros [].
Qed.

(** The two closing writes on well-formed queues. *)
Lemma input_thread_end_spec {T : Type} (subs : T) av A P :
  queues_inv sizeof_item av A P ->
  exists av',
    input_thread_end sizeof_item malloc subs av = Ret subs av' /\
    queues_inv sizeof_item av' A P /\
    input_stall av' = input_stall av /\ unreffed av' = unreffed av /\
    (forall j, q_eof (get_queue av' j) = 1 /\
               q_abort (get_queue av' j) = q_abort (get_queue av j)).
Proof.
  intros Hinv. unfold input_thread_end, _packet_queue_write.
  set (av1 := set_queue av VideoQ (set_eof (get_queue av VideoQ) 1)).
  assert (Hinv1 : queues_inv sizeof_item av1 A P).
  { apply inv_set_flags; try done.
    apply (rep_abort _ _ _ _ _ (inv_rep _ _ _ _ Hinv VideoQ)). }
  eexists. split; [done|]. split.
  { apply inv_set_flags; try done.
    apply (rep_abort _ _ _ _ _ (inv_rep _ _ _ _ Hinv1 AudioQ)). }
  split; [done|]. split; [done|]. by intros [].
Qed.

(** The input thread on well-formed queues with room for what it
    routes to them. *)
Lemma _input_thread_spec streams subtitles reads : forall subs av A P,
  queues_inv sizeof_item av A P ->
  (forall j, q_abort (get_queue av j) = 0) ->
  input_stall av = 0 ->
  Forall packet_ok (input_packets reads) ->
  (forall j,
     queue_bytes sizeof_item
       (P j ++ filter (fun p => routed_to streams j p) (input_packets reads))
     <= MAX_QUEUE_SIZE) ->
  exists subs' av' A',
    _input_thread sizeof_item malloc reads streams subtitles subs av
    = Ret subs' av' /\
    queues_inv sizeof_item av' A'
      (fun j => P j ++ filter (fun p => routed_to streams j p) (input_packets reads)) /\
    input_stall av' = 0 /\
    (forall j, q_eof (get_queue av' j) = 1 /\ q_abort (get_queue av' j) = 0) /\
    unreffed av'
    = unreffed av ++ filter (fun p => not_routed streams p) (input_packets reads) /\
    subs'
    = subs ++ (if subtitles
               then filter (fun p => stream_is (subtitle_stream streams) p)
                      (filter (fun p => not_routed streams p) (input_packets reads))
               else []).
Proof.
  induction reads as [|[r pkt] reads IH]; intros subs av A P Hinv Hab Hstall Hok Hfit.
  - cbn [_input_thread input_packets].
    destruct (input_thread_end_spec subs av A P Hinv)
      as (av' & Hend & Hinv' & Hst' & Hun' & Hfl').
    exists subs, av', A. split; [done|]. split.
    { eapply queues_inv_ext; [| |exact Hinv']; [done|].
      intros j. cbn [filter]. by rewrite filter_nil, app_nil_r. }
    split; [congruence|]. split.
    { intros j. destruct (Hfl' j) as [-> ->]. by rewrite Hab. }
    cbn [filter]. rewrite !filter_nil, !app_nil_r.
    split; [done|]. destruct subtitles; by rewrite app_nil_r.
  - cbn [_input_thread input_packets] in *.
    destruct (r =? AVERROR_EAGAIN); [by apply (IH subs av A P)|].
    destruct (r <? 0).
    { destruct (input_thread_end_spec subs av A P Hinv)
        as (av' & Hend & Hinv' & Hst' & Hun' & Hfl').
      exists subs, av', A. split; [done|]. split.
      { eapply queues_inv_ext; [| |exact Hinv']; [done|].
        intros j. by rewrite filter_nil, app_nil_r. }
      split; [congruence|]. split.
      { intros j. destruct (Hfl' j) as [-> ->]. by rewrite Hab. }
      rewrite !filter_nil, !app_nil_r.
      split; [done|]. destruct subtitles; by rewrite app_nil_r. }
    apply Forall_cons in Hok as [Hpkt Hok].
    assert (Hle : forall j l,
              queue_bytes sizeof_item l
              <= queue_bytes sizeof_item
                   (l ++ filter (fun p => routed_to streams j p) (input_packets reads))).
    { intros j l. rewrite queue_bytes_app.
      assert (Forall packet_ok
                (filter (fun p => routed_to streams j p) (input_packets reads)))
        by (apply Forall_forall; intros x Hx;
            apply list_elem_of_filter in Hx as [_ Hx];
            by eapply Forall_forall).
      pose proof (queue_bytes_bounds sizeof_item _ ltac:(lia) H). lia. }
    destruct (stream_is (video_stream streams) pkt) eqn:Hv.
    + (* video *)
      assert (Hfit' := Hfit VideoQ).
      rewrite queue_bytes_filter_app in Hfit'. cbn [routed_to] in Hfit'.
      rewrite Hv in Hfit'.
      destruct (write_enqueues av VideoQ pkt A P Hinv (Hab VideoQ) Hpkt)
        as (av1 & -> & Hinv1 & Hst1 & Hun1 & Hfl1).
      { pose proof (Hle VideoQ (P VideoQ ++ [pkt])) as Hl.
        rewrite queue_bytes_app in Hl. simpl in Hl. lia. }
      destruct (IH subs av1 _ _ Hinv1)
        as (subs' & av' & A' & Hrun & Hinv' & Hst' & Hfl' & Hun' & Hsubs').
      { intros j. destruct (Hfl1 j) as [-> _]. apply Hab. }
      { done. }
      { done. }
      { intros j. destruct j; [by rewrite upd_eq|].
        rewrite upd_ne by done. specialize (Hfit AudioQ).
        rewrite queue_bytes_filter_app in Hfit. cbn [routed_to] in Hfit.
        rewrite Hv in Hfit. cbn [negb andb] in Hfit.
        by rewrite app_nil_r in Hfit. }
      exists subs', av', A'. split; [done|]. split.
      { eapply queues_inv_ext; [| |exact Hinv']; [done|].
        intros j. destruct j.
        - rewrite upd_eq. cbn [routed_to].
          rewrite filter_cons_True by (by rewrite Hv). by rewrite <- app_assoc.
        - rewrite upd_ne by done. cbn [routed_to].
          rewrite filter_cons_False; [done|]. rewrite Hv. by intros []. }
      split; [done|]. split; [done|].
      unfold not_routed at 1 3. rewrite filter_cons_False.
      2:{ rewrite Hv. by intros []. }
      rewrite Hun', Hun1. split; [done|]. exact Hsubs'.
    + destruct (stream_is (audio_stream streams) pkt) eqn:Ha.
      * (* audio *)
        assert (Hfit' := Hfit AudioQ).
        rewrite queue_bytes_filter_app in Hfit'. cbn [routed_to] in Hfit'.
        rewrite Hv, Ha in Hfit'. cbn [negb andb] in Hfit'.
        destruct (write_enqueues av AudioQ pkt A P Hinv (Hab AudioQ) Hpkt)
          as (av1 & -> & Hinv1 & Hst1 & Hun1 & Hfl1).
        { pose proof (Hle AudioQ (P AudioQ ++ [pkt])) as Hl.
          rewrite queue_bytes_app in Hl. simpl in Hl. lia. }
        destruct (IH subs av1 _ _ Hinv1)
          as (subs' & av' & A' & Hrun & Hinv' & Hst' & Hfl' & Hun' & Hsubs').
        { intros j. destruct (Hfl1 j) as [-> _]. apply Hab. }
        { done. }
        { done. }
        { intros j. destruct j; [|by rewrite upd_eq].
          rewrite upd_ne by done. specialize (Hfit VideoQ).
          rewrite queue_bytes_filter_app in Hfit. cbn [routed_to] in Hfit.
          rewrite Hv in Hfit. by rewrite app_nil_r in Hfit. }
        exists subs', av', A'. split; [done|]. split.
        { eapply queues_inv_ext; [| |exact Hinv']; [done|].
          intros j. destruct j.
          - rewrite upd_ne by done. cbn [routed_to].
            rewrite filter_cons_False; [done|]. rewrite Hv. by intros [].
          - rewrite upd_eq. cbn [routed_to].
            rewrite filter_cons_True by (by rewrite Hv, Ha).
            by rewrite <- app_assoc. }
        split; [done|]. split; [done|].
        unfold not_routed at 1 3. rewrite filter_cons_False.
        2:{ rewrite Hv, Ha. by intros []. }
        rewrite Hun', Hun1. split; [done|]. exact Hsubs'.
      * (* neither queue *)
        assert (Hnr : not_routed streams pkt = true)
          by (unfold not_routed; by rewrite Hv, Ha).
        assert (Hinvu : queues_inv sizeof_item (log_unref av pkt) A P).
        { eapply inv_same_queues; [exact Hinv|done|by intros []]. }
        assert (Hfitu : forall j,
                  queue_bytes sizeof_item
                    (P j ++ filter (fun p => routed_to streams j p)
                              (input_packets reads)) <= MAX_QUEUE_SIZE).
        { intros j. specialize (Hfit j).
          rewrite filter_cons_False in Hfit; [done|].
          destruct j; cbn [routed_to]; rewrite Hv, ?Ha; by intros []. }
        assert (Hrouted : forall j,
                  filter (fun p => routed_to streams j p) (pkt :: input_packets reads)
                  = filter (fun p => routed_to streams j p) (input_packets reads)).
        { intros j. rewrite filter_cons_False; [done|].
          destruct j; cbn [routed_to]; rewrite Hv, ?Ha; by intros []. }
        rewrite (filter_cons_True (fun p => not_routed streams p)) by (by rewrite Hnr).
        destruct (stream_is (subtitle_stream streams) pkt && subtitles) eqn:Hs.
        -- destruct (IH (subs ++ [pkt]) (log_unref av pkt) A P Hinvu)
             as (subs' & av' & A' & Hrun & Hinv' & Hst' & Hfl' & Hun' & Hsubs').
           { intros j. by rewrite get_queue_log_unref. }
           { done. }
           { done. }
           { done. }
           exists subs', av', A'. split; [done|]. split.
           { eapply queues_inv_ext; [| |exact Hinv']; [done|].
             intros j. by rewrite Hrouted. }
           split; [done|]. split; [done|].
           split; [rewrite Hun'; simpl; by rewrite <- app_assoc|].
           apply andb_true_iff in Hs as [Hs ->].
           rewrite filter_cons_True by (by rewrite Hs).
           rewrite Hsubs'. by rewrite <- app_assoc.
        -- destruct (IH subs (log_unref av pkt) A P Hinvu)
             as (subs' & av' & A' & Hrun & Hinv' & Hst' & Hfl' & Hun' & Hsubs').
           { intros j. by rewrite get_queue_log_unref. }
           { done. }
           { done. }
           { done. }
           exists subs', av', A'. split; [done|]. split.
           { eapply queues_inv_ext; [| |exact Hinv']; [done|].
             intros j. by rewrite Hrouted. }
           split; [done|]. split; [done|].
           split; [rewrite Hun'; simpl; by rewrite <- app_assoc|].
           rewrite Hsubs'. destruct subtitles; [|done].
           rewrite andb_true_r in Hs.
           rewrite filter_cons_False; [done|]. rewrite Hs. by intros [].
Qed.

(** The input thread loses no packet and keeps the order of each
    stream.  On well-formed queues with room for what is routed to
    them, the thread runs through to its end without waiting; the video
    queue then holds behind its former content exactly the packets of
    the video stream, in the order in which [av_read_frame] delivered
    them, and the audio queue those of the audio stream; the reads of
    either queue return them and then report the end of the stream;
    every other packet, and no packet that was routed, went to
    [av_packet_unref], and the subtitle decoder got the packets of the
    subtitle stream among those when subtitles are enabled. *)
Theorem input_thread_routes_every_packet streams subtitles reads av A P :
  queues_inv sizeof_item av A P ->
  (forall j, q_abort (get_queue av j) = 0) ->
  input_stall av = 0 ->
  Forall packet_ok (input_packets reads) ->
  (forall j,
     queue_bytes sizeof_item
       (P j ++ filter (fun p => routed_to streams j p) (input_packets reads))
     <= MAX_QUEUE_SIZE) ->
  exists subs av',
    _input_thread sizeof_item malloc reads streams subtitles [] av = Ret subs av' /\
    (forall j,
       let l := P j ++ filter (fun p => routed_to streams j p) (input_packets reads) in
       exists s,
         read_all sizeof_item av' j (length l) = Some (l, s) /\
         _packet_queue_read sizeof_item s j = Ret (-1, None) s) /\
    unreffed av'
    = unreffed av ++ filter (fun p => not_routed streams p) (input_packets reads) /\
    subs = (if subtitles
            then filter (fun p => stream_is (subtitle_stream streams) p)
                   (filter (fun p => not_routed streams p) (input_packets reads))
            else []).
Proof.
  intros Hinv Hab Hstall Hok Hfit.
  destruct (_input_thread_spec streams subtitles reads [] av A P Hinv Hab Hstall Hok Hfit)
    as (subs & av' & A' & Hrun & Hinv' & Hst' & Hfl' & Hun' & Hsubs).
  exists subs, av'. split; [done|]. split; [|done].
  intros j l.
  destruct (read_all_keeps l av' j [] A' _ Hinv') as (s & A2 & Hra & Hinv2 & Hst & _ & Hfl).
  { by rewrite app_nil_r. }
  exists s. split; [done|].
  rewrite read_empty.
  2:{ rewrite (rep_length _ _ _ _ _ (inv_rep _ _ _ _ Hinv2 j)).
      by rewrite upd_eq. }
  destruct (Hfl j) as [Ha He]. destruct (Hfl' j) as [He' Ha'].
  by rewrite Hst, Hst', Ha, He, Ha', He'.
Qed.

(** The two closing writes leave everything but the EOF flags. *)
Lemma input_thread_end_aborted {T : Type} (subs : T) av :
  exists av',
    input_thread_end sizeof_item malloc subs av = Ret subs av' /\
    heap av' = heap av /\ unreffed av' = unreffed av /\
    forall j, get_queue av' j = set_eof (get_queue av j) 1.
Proof.
  unfold input_thread_end, _packet_queue_write.
  eexists. split; [done|]. split; [done|]. split; [done|]. by intros [].
Qed.

(** After abort the input thread only releases.  Once both queues are
    aborted, the thread never waits in a write, whatever the sizes: it
    goes on reading until the demuxer ends or [thread_abort] is seen,
    enqueues and allocates nothing, and hands every packet it reads to
    [av_packet_unref] exactly once, the routed ones through the write
    that returns -2. *)
Theorem input_thread_after_abort_only_releases streams subtitles reads :
  forall subs av,
  (forall j, q_abort (get_queue av j) = 1) ->
  exists subs' av',
    _input_thread sizeof_item malloc reads streams subtitles subs av
    = Ret subs' av' /\
    heap av' = heap av /\
    unreffed av' = unreffed av ++ input_packets reads /\
    forall j, get_queue av' j = set_eof (get_queue av j) 1.
Proof.
  induction reads as [|[r pkt] reads IH]; intros subs av Hab.
  - cbn [_input_thread input_packets]. rewrite app_nil_r.
    destruct (input_thread_end_aborted subs av) as (av' & H1 & H2 & H3 & H4).
    by exists subs, av'.
  - cbn [_input_thread input_packets].
    destruct (r =? AVERROR_EAGAIN); [by apply IH|].
    destruct (r <? 0).
    { rewrite app_nil_r.
      destruct (input_thread_end_aborted subs av) as (av' & H1 & H2 & H3 & H4).
      by exists subs, av'. }
    assert (Hw : forall i,
              _packet_queue_write sizeof_item malloc av i (Some pkt)
              = Ret (-2) (log_unref (set_input_stall av 0) pkt)).
    { intros i. unfold _packet_queue_write, write_must_wait. by rewrite Hab. }
    assert (Hab' : forall j,
              q_abort (get_queue (log_unref (set_input_stall av 0) pkt) j) = 1).
    { intros j. by rewrite get_queue_log_unref, get_queue_set_input_stall. }
    assert (Hab'' : forall j, q_abort (get_queue (log_unref av pkt) j) = 1).
    { intros j. by rewrite get_queue_log_unref. }
    destruct (stream_is (video_stream streams) pkt);
      [|destruct (stream_is (audio_stream streams) pkt);
        [|destruct (stream_is (subtitle_stream streams) pkt && subtitles)]].
    + rewrite Hw.
      destruct (IH subs _ Hab') as (subs' & av' & Hrun & Hh & Hun & Hq).
      exists subs', av'. split; [done|]. split; [done|]. split.
      * rewrite Hun. simpl. by rewrite <- app_assoc.
      * intros j. rewrite Hq.
        by rewrite get_queue_log_unref, get_queue_set_input_stall.
    + rewrite Hw.
      destruct (IH subs _ Hab') as (subs' & av' & Hrun & Hh & Hun & Hq).
      exists subs', av'. split; [done|]. split; [done|]. split.
      * rewrite Hun. simpl. by rewrite <- app_assoc.
      * intros j. rewrite Hq.
        by rewrite get_queue_log_unref, get_queue_set_input_stall.
    + destruct (IH (subs ++ [pkt]) _ Hab'') as (subs' & av' & Hrun & Hh & Hun & Hq).
      exists subs', av'. split; [done|]. split; [done|]. split.
      * rewrite Hun. simpl. by rewrite <- app_assoc.
      * intros j. rewrite Hq. by rewrite get_queue_log_unref.
    + destruct (IH subs _ Hab'') as (subs' & av' & Hrun & Hh & Hun & Hq).
      exists subs', av'. split; [done|]. split; [done|]. split.
      * rewrite Hun. simpl. by rewrite <- app_assoc.
      * intros j. rewrite Hq. by rewrite get_queue_log_unref.
Qed.

(** ** The decoder threads *)

Lemma decode_released_app t1 t2 :
  decode_released (t1 ++ t2) = decode_released t1 ++ decode_released t2.
Proof. apply omap_app. Qed.

Lemma decode_sent_app t1 t2 :
  decode_sent (t1 ++ t2) = decode_sent t1 ++ decode_sent t2.
Proof. apply omap_app. Qed.

(** The codec calls of a round always return; they send what the
    round holds, and release it unless the decoder answered
    [EAGAIN]. *)
Lemma decode_codec_spec video send_r receive_r pkt ppkt av :
  exists cont pkt' ppkt' t av',
    decode_codec video send_r receive_r pkt ppkt av
    = Ret (cont, pkt', ppkt', t) av' /\
    decode_sent t = [if ppkt then Some pkt else None] /\
    head t = Some (DSend (if ppkt then Some pkt else None)) /\
    ((ppkt = true /\ send_r <> AVERROR_EAGAIN /\
      t !! 1%nat = Some (DUnref pkt) /\
      decode_released t = match pkt with PktHolds p => [p] | _ => [] end /\
      av' = match pkt with PktHolds p => log_unref av p | _ => av end /\
      pkt' = PktBlank /\ ppkt' = false)
     \/ ((ppkt = false \/ send_r = AVERROR_EAGAIN) /\
         decode_released t = [] /\ av' = av /\ pkt' = pkt /\ ppkt' = ppkt)).
Proof.
  unfold decode_codec.
  destruct ppkt; cbn [andb].
  - destruct (Z.eqb_spec send_r AVERROR_EAGAIN) as [Hs|Hs]; cbn [negb].
    + rewrite andb_false_r.
      destruct (receive_r =? 0); [|destruct (negb _)];
        eexists _, _, _, _, _; (split; [reflexivity|]);
        (split; [done|]); (split; [done|]); right; by repeat split; auto.
    + rewrite andb_true_r.
      destruct (video && (send_r <? 0));
        [|destruct (receive_r =? 0); [|destruct (negb _)]];
        eexists _, _, _, _, _; (split; [reflexivity|]);
        (split; [done|]); (split; [done|]); left;
        (split; [done|]); (split; [done|]); (split; [done|]);
        (split; [by destruct pkt|]); done.
  - destruct (video && (send_r <? 0) && negb (send_r =? AVERROR_EAGAIN));
      [|destruct (receive_r =? 0); [|destruct (negb _)]];
      eexists _, _, _, _, _; (split; [reflexivity|]);
      (split; [done|]); (split; [done|]); right; by repeat split; auto.
Qed.

(** A read that returns through the stall exit feeds the decoder a
    stale packet.  When a decoder thread reads its queue while the
    queue is empty and [input_stall] is up, the read returns 0 without
    storing a packet, and the thread takes that for a packet: it hands
    to [avcodec_send_packet] its local [pkt] as the round found it, a
    packet reset by [av_packet_unref] in an earlier round or, in the
    thread's first round, memory never written, and then, unless the
    decoder answers [EAGAIN], hands it to [av_packet_unref].  The queue
    is left as it was. *)
Theorem stalled_read_sends_stale_packet video i send_r receive_r pkt av :
  q_length (get_queue av i) = 0 ->
  input_stall av <> 0 ->
  pkt = PktUninit \/ pkt = PktBlank ->
  exists cont pkt' ppkt' t,
    decode_round sizeof_item video i send_r receive_r pkt false av
    = Ret (cont, pkt', ppkt', DSend (Some pkt) :: t) av /\
    (send_r <> AVERROR_EAGAIN -> head t = Some (DUnref pkt) /\ pkt' = PktBlank).
Proof.
  intros Hlen Hstall Hpkt. unfold decode_round.
  rewrite read_empty by done.
  destruct (Z.eqb_spec (input_stall av) 0) as [?|_]; [done|]. cbn [negb].
  change (0 =? -2) with false. change (0 <=? 0) with true. cbv iota.
  destruct (decode_codec_spec video send_r receive_r pkt true av)
    as (cont & pkt' & ppkt' & t & av' & Hrun & _ & Hhead & Hcase).
  rewrite Hrun.
  destruct t as [|e t]; [done|]. injection Hhead as ->.
  destruct Hcase as [(_ & Hs & H1 & _ & Hav & Hp & _)|([?|Hs] & _ & Hav & _)];
    [| done |].
  - exists cont, pkt', ppkt', t. split.
    + f_equal. rewrite Hav. by destruct Hpkt as [-> | ->].
    + intros _. split; [|done]. by destruct t.
  - exists cont, pkt', ppkt', t. by rewrite Hav.
Qed.

(** A decoder thread behind an input thread that has ended, with the
    calls on the inbound buffer taken as events: no read of the queue
    parks it, it sends NULL or packets of the queue, and it releases
    the packets in queue order. *)
Lemma decode_thread_order video i rounds : forall pkt ppkt av A Q,
  queues_inv sizeof_item av A Q ->
  input_stall av = 0 ->
  q_eof (get_queue av i) = 1 ->
  q_abort (get_queue av i) = 0 ->
  (ppkt = true -> exists x, pkt = PktHolds x) ->
  let held := if ppkt then match pkt with PktHolds x => [x] | _ => [] end
              else [] in
  exists t av',
    decode_thread sizeof_item video i rounds pkt ppkt av = Ret t av' /\
    decode_released t `prefix_of` held ++ Q i /\
    unreffed av' = unreffed av ++ decode_released t /\
    Forall (null_or_queued (held ++ Q i)) (decode_sent t) /\
    last t = Some DAbort.
Proof.
  induction rounds as [|[send_r receive_r] rounds IH];
    intros pkt ppkt av A Q Hinv Hstall Heof Hab Hheld held.
  { cbn [decode_thread]. exists [DAbort], av. split; [done|].
    split; [apply prefix_nil|]. split; [by rewrite app_nil_r|]. done. }
  (* what follows the codec calls of a round, for a thread that holds
     [h] and finds [Q'] queued *)
  assert (Hafter : forall av0 A0 Q0 pkt0 ppkt0 (h : list AVPacket),
            queues_inv sizeof_item av0 A0 Q0 ->
            input_stall av0 = 0 ->
            q_eof (get_queue av0 i) = 1 -> q_abort (get_queue av0 i) = 0 ->
            (ppkt0 = true -> exists x, pkt0 = PktHolds x) ->
            h = (if ppkt0 then match pkt0 with PktHolds x => [x] | _ => [] end
                 else []) ->
            exists t av',
              match decode_codec video send_r receive_r pkt0 ppkt0 av0 with
              | Ret (true, pkt', ppkt', t) av' =>
                  match decode_thread sizeof_item video i rounds pkt' ppkt' av' with
                  | Ret t' av'' => Ret (t ++ t') av''
                  | Wait s => Wait s
                  | Fault => Fault
                  end
              | Ret (false, _, _, t) av' => Ret (t ++ [DAbort]) av'
              | Wait s => Wait s
              | Fault => Fault
              end = Ret t av' /\
              decode_released t `prefix_of` h ++ Q0 i /\
              unreffed av' = unreffed av0 ++ decode_released t /\
              Forall (null_or_queued (h ++ Q0 i)) (decode_sent t) /\
              last t = Some DAbort).
  { intros av0 A0 Q0 pkt0 ppkt0 h Hinv0 Hstall0 Heof0 Hab0 Hheld0 ->.
    destruct (decode_codec_spec video send_r receive_r pkt0 ppkt0 av0)
      as (cont & pkt' & ppkt' & t & av' & -> & Hsent & _ & Hcase).
    assert (Hsent_ok : Forall
              (null_or_queued
                 ((if ppkt0 then match pkt0 with PktHolds x => [x] | _ => [] end
                   else []) ++ Q0 i)) (decode_sent t)).
    { rewrite Hsent. apply Forall_singleton.
      destruct ppkt0; [|done].
      destruct (Hheld0 eq_refl) as [x ->]. cbn [null_or_queued app].
      apply elem_of_cons. by left. }
    destruct Hcase as [(-> & Hs & _ & Hrel & -> & -> & ->)|(Hor & Hrel & -> & -> & ->)].
    - (* the packet held was released *)
      destruct (Hheld0 eq_refl) as [x ->]. cbn [app] in *.
      destruct cont.
      + assert (Hinvu : queues_inv sizeof_item (log_unref av0 x) A0 Q0).
        { eapply inv_same_queues; [exact Hinv0|done|by intros []]. }
        assert (Heofu : q_eof (get_queue (log_unref av0 x) i) = 1)
          by (by rewrite get_queue_log_unref).
        assert (Habu : q_abort (get_queue (log_unref av0 x) i) = 0)
          by (by rewrite get_queue_log_unref).
        assert (Hnone : false = true -> exists y, PktBlank = PktHolds y) by done.
        destruct (IH PktBlank false (log_unref av0 x) A0 Q0 Hinvu Hstall0 Heofu
                    Habu Hnone)
          as (t' & av'' & -> & Hpre & Hun & Hall & Hlast).
        cbn [app] in *.
        exists (t ++ t'), av''. split; [done|].
        rewrite decode_released_app, decode_sent_app, Hrel.
        split; [by apply prefix_cons|]. split.
        { rewrite Hun. simpl. by rewrite <- app_assoc. }
        split.
        { apply Forall_app. split; [done|].
          eapply Forall_impl; [exact Hall|].
          intros [[| |p]|]; cbn [null_or_queued]; try done.
          intros Hp. apply elem_of_cons. by right. }
        rewrite last_app, Hlast. done.
      + exists (t ++ [DAbort]), (log_unref av0 x). split; [done|].
        rewrite decode_released_app, decode_sent_app, Hrel. simpl.
        split; [apply prefix_cons, prefix_nil|]. split; [done|].
        split; [by rewrite app_nil_r|]. by rewrite last_snoc.
    - (* nothing was released *)
      destruct cont.
      + destruct (IH pkt0 ppkt0 av0 A0 Q0 Hinv0 Hstall0 Heof0 Hab0 Hheld0)
          as (t' & av'' & -> & Hpre & Hun & Hall & Hlast).
        exists (t ++ t'), av''. split; [done|].
        rewrite decode_released_app, decode_sent_app, Hrel.
        split; [done|]. split; [done|]. split; [by apply Forall_app|].
        rewrite last_app, Hlast. done.
      + exists (t ++ [DAbort]), av0. split; [done|].
        rewrite decode_released_app, decode_sent_app, Hrel. simpl.
        split; [apply prefix_nil|]. split; [by rewrite app_nil_r|].
        split; [by rewrite app_nil_r|]. by rewrite last_snoc. }
  cbn [decode_thread]. unfold decode_round.
  destruct ppkt.
  - by apply (Hafter av A Q pkt true).
  - subst held. cbn [app].
    destruct (Q i) as [|x rest] eqn:HQ.
    + (* the queue is empty: end of stream *)
      rewrite read_empty.
      2:{ rewrite (rep_length _ _ _ _ _ (inv_rep _ _ _ _ Hinv i)). by rewrite HQ. }
      rewrite Hstall, Hab, Heof. simpl.
      destruct (Hafter av A Q pkt false [] Hinv Hstall Heof Hab)
        as (t & av' & Hrun & Hpre & Hun & Hall & Hlast); [done|done|].
      rewrite HQ in Hpre, Hall. by exists t, av'.
    + destruct (read_dequeues av i x rest A Q Hinv HQ)
        as (av1 & -> & Hinv1 & Hst1 & Hun1 & Hfl1).
      simpl.
      assert (Hst1' : input_stall av1 = 0) by congruence.
      assert (Heof1 : q_eof (get_queue av1 i) = 1)
        by (destruct (Hfl1 i) as [_ ->]; done).
      assert (Hab1 : q_abort (get_queue av1 i) = 0)
        by (destruct (Hfl1 i) as [-> _]; done).
      assert (Hx : true = true -> exists y, PktHolds x = PktHolds y)
        by (intros _; by exists x).
      destruct (Hafter av1 _ _ (PktHolds x) true [x] Hinv1 Hst1' Heof1 Hab1 Hx eq_refl)
        as (t & av' & Hrun & Hpre & Hun & Hall & Hlast).
      rewrite upd_eq in Hpre, Hall. exists t, av'.
      split; [done|]. split; [done|]. split; [congruence|]. done.
Qed.

(** The decoder gets the packets in queue order.  Behind an input
    thread that has ended, with no stall pending, in every run of a
    decoder thread up to its closing abort, however the codec answers:
    everything the thread sends to the decoder is a packet of its
    queue or, once the queue is empty, NULL, the flush; the packets it
    hands to [av_packet_unref] are an initial part of the queue, in
    queue order: none is released twice and none is passed over.  The
    calls on the inbound frame buffer, on which the thread waits while
    the buffer is full, are events of the trace; nothing is said here
    about waiting or about reaching the end. *)
Theorem decoder_gets_packets_in_queue_order video i rounds av A P t av' :
  queues_inv sizeof_item av A P ->
  input_stall av = 0 ->
  q_eof (get_queue av i) = 1 ->
  q_abort (get_queue av i) = 0 ->
  decode_thread sizeof_item video i rounds PktUninit false av = Ret t av' ->
  decode_released t `prefix_of` P i /\
  unreffed av' = unreffed av ++ decode_released t /\
  Forall (null_or_queued (P i)) (decode_sent t).
Proof.
  intros Hinv Hstall Heof Hab Hrun.
  destruct (decode_thread_order video i rounds PktUninit false av A P
              Hinv Hstall Heof Hab)
    as (t0 & av0 & Hrun0 & Hpre & Hun & Hall & _); [done|].
  rewrite Hrun in Hrun0. injection Hrun0 as <- <-. done.
Qed.

End PacketQueueFacts.

(** ** The queue on concrete states *)

Lemma sizeof_item_example_bounds : 0 < sizeof_item_example <= MAX_QUEUE_SIZE.
Proof. by vm_compute. Qed.

Lemma malloc_example_unused h : malloc_example h ∉ dom h.
Proof. unfold malloc_example. apply (is_fresh (dom h)). Qed.

Lemma packet_queue_fifo_witness :
  exists av1 av2,
    write_all sizeof_item_example malloc_example
        av_opened VideoQ [packet_a; packet_b; packet_c]
    = Some av1 /\
    read_all sizeof_item_example av1 VideoQ 3
    = Some ([packet_a; packet_b; packet_c], av2) /\
    q_length (get_queue av2 VideoQ) = 0 /\
    (forall r p s,
       _packet_queue_read sizeof_item_example av2 VideoQ = Ret (r, p) s -> p = None).
Proof.
  apply (packet_queue_fifo sizeof_item_example sizeof_item_example_bounds
           malloc_example malloc_example_unused
           av_opened VideoQ [packet_a; packet_b; packet_c]
           (fun _ => []) (fun _ => [])).
  - apply init_inv.
  - reflexivity.
  - reflexivity.
  - repeat constructor; by vm_compute.
  - by vm_compute.
Defined.


Lemma read_empty_stalled_witness :
  (exists r,
     _packet_queue_read sizeof_item_example av_video_stalled AudioQ
     = Ret (r, None) av_video_stalled /\ r = 0 /\ r <> -1 /\ r <> -2)
  /\
  (forall av0 j pk,
     _packet_queue_write sizeof_item_example malloc_example
         av0 j (Some pk) = Wait av_video_stalled ->
     forall k, q_length (get_queue av_video_stalled k) = 0 ->
               _packet_queue_read sizeof_item_example av_video_stalled k
               = Ret (0, None) av_video_stalled).
Proof.
  apply (read_empty_stalled sizeof_item_example malloc_example
           av_video_stalled AudioQ).
  - reflexivity.
  - by vm_compute.
Defined.

(** C6, as stated, fails.  The input thread waits to write to the full
    video queue; the audio queue is empty and no write to it waits.  A
    read of the audio queue returns at once with status 0 on account of
    the video queue's stall, and 0 is also the status with which a read
    of the video queue returns a packet. *)
Lemma stall_status_counterexample :
  _packet_queue_write sizeof_item_example malloc_example
      av_video_full VideoQ (Some packet_more)
  = Wait av_video_stalled /\
  q_length (get_queue av_video_stalled AudioQ) = 0 /\
  (forall av',
     _packet_queue_write sizeof_item_example malloc_example
         av_video_stalled AudioQ (Some packet_a)
     <> Wait av') /\
  exists r_stall r_success av',
    _packet_queue_read sizeof_item_example av_video_stalled AudioQ
    = Ret (r_stall, None) av_video_stalled /\
    _packet_queue_read sizeof_item_example av_video_stalled VideoQ
    = Ret (r_success, Some packet_big) av' /\
    r_stall = r_success.
Proof.
  split; [by vm_compute|]. split; [by vm_compute|]. split.
  - intros p. vm_compute. discriminate.
  - eexists _, _, _. split; [|split]; [vm_compute; reflexivity ..|reflexivity].
Qed.

(** C5 at the failing input: one packet is written to the video queue
    of a freshly opened pipeline and the queue is flushed.  The packet
    is released and no cell is left, so nothing is queued; yet [length]
    is -1 and [size] still counts the packet and its overhead. *)
Lemma flush_leaves_stale_counters :
  exists av1 av2,
    _packet_queue_write sizeof_item_example malloc_example
        av_opened VideoQ (Some packet_a)
    = Ret 0 av1 /\
    _packet_queue_flush av1 VideoQ = Ret 0 av2 /\
    heap av2 = ∅ /\
    unreffed av2 = [packet_a] /\
    q_length (get_queue av2 VideoQ) = -1 /\
    q_size (get_queue av2 VideoQ) = pkt_size packet_a + sizeof_item_example /\
    q_size (get_queue av2 VideoQ) <> queue_bytes sizeof_item_example [].
Proof.
  eexists _, _.
  split; [vm_compute; reflexivity|].
  split; [vm_compute; reflexivity|].
  split; [by vm_compute|].
  split; [by vm_compute|].
  split; [by vm_compute|].
  split; by vm_compute.
Qed.

(** ** The double buffer *)

(** A take that returns leaves the ready flag clear or the abort flag
    set, so the next publish does not wait. *)
Lemma flip_leaves_free d0 f d :
  _frame_dbuffer_flip d0 = Ret f d -> dbuffer_busy d = false.
Proof.
  unfold _frame_dbuffer_flip, dbuffer_busy.
  destruct ((d_ready d0 =? 0) && (d_abort d0 =? 0)); [discriminate|].
  destruct (Z.eqb_spec (d_abort d0) 0) as [H0|Hn0]; simpl.
  - intros [= <- <-]. simpl. done.
  - intros [= <- <-]. destruct (Z.eqb_spec (d_abort d0) 0); [done|].
    by destruct (negb _).
Qed.

Lemma flip_front d0 p d : _frame_dbuffer_flip d0 = Ret (Some p) d -> p = d_frame_0 d.
Proof.
  unfold _frame_dbuffer_flip.
  destruct ((d_ready d0 =? 0) && (d_abort d0 =? 0)); [discriminate|].
  destruct (negb (d_abort d0 =? 0)); [discriminate|].
  by intros [= <- <-].
Qed.

Lemma flip_abort d0 f d :
  _frame_dbuffer_flip d0 = Ret f d ->
  (f = None /\ d_abort d <> 0 /\ d = d0) \/ (exists p, f = Some p /\ d_abort d = 0).
Proof.
  unfold _frame_dbuffer_flip.
  destruct ((d_ready d0 =? 0) && (d_abort d0 =? 0)); [discriminate|].
  destruct (Z.eqb_spec (d_abort d0) 0) as [H0|Hn0]; simpl.
  - intros [= <- <-]. right. eexists. split; [done|]. simpl.
    by destruct (d_repeat d0 =? 0).
  - intros [= <- <-]. by left.
Qed.

(** C7: a take that follows a repeat publish does not swap the slots;
    after a take, a publish with [repeat = 1] and the next take both
    return without waiting, the take gives the same result as the one
    before it, and the frame stored at that pointer is what it was,
    even if the producer filled the back slot in between.  A take
    changes the slots only if [repeat] is 0 when it runs. *)
Theorem repeat_publish_keeps_front {F : Type} (d0 d : _frame_dbuffer_t)
    (f : option loc) (mem : gmap loc F) (c : F) :
  _frame_dbuffer_flip d0 = Ret f d ->
  d_frame_0 d <> d_frame_1 d ->
  (exists d1 d2,
     _frame_dbuffer_ready d 1 = Ret tt d1 /\
     _frame_dbuffer_flip d1 = Ret f d2 /\
     slots d2 = slots d /\
     (forall p, f = Some p -> write_back mem d c !! p = mem !! p))
  /\
  (forall b r b1 g b2,
     r <> 0 ->
     _frame_dbuffer_ready b r = Ret tt b1 ->
     _frame_dbuffer_flip b1 = Ret g b2 ->
     slots b2 = slots b)
  /\
  (forall b g b', _frame_dbuffer_flip b = Ret g b' ->
     slots b' <> slots b -> d_repeat b = 0).
Proof.
  intros Htake Hslots. split; [|split].
  - pose proof (flip_leaves_free _ _ _ Htake) as Hfree.
    unfold _frame_dbuffer_ready. rewrite Hfree.
    destruct (flip_abort _ _ _ Htake) as [(-> & Hab & ->)|(p & -> & Hab)].
    + eexists _, _. split; [reflexivity|].
      unfold _frame_dbuffer_flip. simpl.
      destruct (Z.eqb_spec (d_abort d0) 0); [done|]. simpl.
      split; [done|]. split; [done|]. intros p [=].
    + eexists _, _. split; [reflexivity|].
      unfold _frame_dbuffer_flip. simpl. rewrite Hab. simpl.
      apply flip_front in Htake as ->.
      split; [done|]. split; [done|].
      intros p [= <-]. unfold write_back. by rewrite lookup_insert_ne.
  - intros b r b1 g b2 Hr.
    unfold _frame_dbuffer_ready. destruct (dbuffer_busy b); [discriminate|].
    intros [= <-]. unfold _frame_dbuffer_flip. simpl.
    destruct (negb (d_abort b =? 0)).
    + by intros [= <- <-].
    + destruct (Z.eqb_spec r 0); [done|]. by intros [= <- <-].
  - intros b g b'. unfold _frame_dbuffer_flip.
    destruct ((d_ready b =? 0) && (d_abort b =? 0)); [discriminate|].
    destruct (negb (d_abort b =? 0)).
    + intros [= <- <-]. done.
    + destruct (Z.eqb_spec (d_repeat b) 0); [done|].
      intros [= <- <-]. done.
Qed.

Lemma repeat_publish_keeps_front_witness :
  (exists d1 d2,
     _frame_dbuffer_ready dbuffer_taken 1 = Ret tt d1 /\
     _frame_dbuffer_flip d1 = Ret (Some 2%positive) d2 /\
     slots d2 = slots dbuffer_taken /\
     (forall p, Some 2%positive = Some p ->
        write_back (<[2%positive := 20]> (<[1%positive := 10]> ∅)) dbuffer_taken 30 !! p
        = (<[2%positive := 20]> (<[1%positive := 10]> ∅) : gmap loc Z) !! p))
  /\
  (forall b r b1 g b2,
     r <> 0 ->
     _frame_dbuffer_ready b r = Ret tt b1 ->
     _frame_dbuffer_flip b1 = Ret g b2 ->
     slots b2 = slots b)
  /\
  (forall b g b', _frame_dbuffer_flip b = Ret g b' ->
     slots b' <> slots b -> d_repeat b = 0).
Proof.
  apply (repeat_publish_keeps_front
           (mkDbuffer 1 0 0 1%positive 2%positive) dbuffer_taken
           (Some 2%positive) (<[2%positive := 20]> (<[1%positive := 10]> ∅)) 30).
  - reflexivity.
  - by vm_compute.
Defined.

(** ** The video post-process worker *)

Lemma to_int64_range x : in_int64 (to_int64 x).
Proof.
  unfold in_int64, INT64_MIN, INT64_MAX, to_int64.
  pose proof (Z.mod_pos_bound (x + 2 ^ 63) (2 ^ 64)). lia.
Qed.

Lemma video_publishes_app t1 t2 :
  video_publishes (t1 ++ t2) = video_publishes t1 ++ video_publishes t2.
Proof. apply omap_app. Qed.

Lemma video_scales_app t1 t2 :
  video_scales (t1 ++ t2) = video_scales t1 ++ video_scales t2.
Proof. apply omap_app. Qed.

Lemma video_skips_app t1 t2 :
  video_skips (t1 ++ t2) = (video_skips t1 + video_skips t2)%nat.
Proof. unfold video_skips. by rewrite omap_app, length_app. Qed.

Lemma video_publishes_repeats k :
  video_publishes (replicate k (VPublish 1)) = replicate k 1.
Proof. induction k as [|k IH]; [done|]. simpl. by rewrite <- IH. Qed.

Lemma video_scales_repeats k : video_scales (replicate k (VPublish 1)) = [].
Proof. induction k as [|k IH]; [done|]. simpl. by rewrite <- IH. Qed.

Lemma video_skips_repeats k : video_skips (replicate k (VPublish 1)) = 0%nat.
Proof. induction k as [|k IH]; [done|]. simpl. by rewrite <- IH. Qed.

(** C's division is defined exactly where the divisor is not 0 and
    the quotient fits. *)
Lemma div_defined_spec lo a b :
  div_defined lo a b = true <-> b <> 0 /\ ~ (a = lo /\ b = -1).
Proof.
  unfold div_defined.
  destruct (Z.eqb_spec b 0), (Z.eqb_spec a lo), (Z.eqb_spec b (-1));
    simpl; split; try done; try lia; try (by intros [? []]);
    intros _; (split; [done|]); intros []; done.
Qed.

Lemma video_start_time_set av v :
  video_start_time (set_video_start_time av v) = v.
Proof. by destruct av. Qed.

Lemma video_settings_set av v :
  video_settings (set_video_start_time av v) = video_settings av.
Proof. by destruct av. Qed.

Lemma video_hooks_defined_set av v frame text :
  video_hooks_defined (set_video_start_time av v) frame text
  = video_hooks_defined av frame text.
Proof. by destruct av. Qed.

(** What [video_hooks_defined] asks of the time base and the time
    stamp. *)
Lemma video_hooks_defined_spec av frame text :
  let tb := video_stream_time_base av in
  let pts := best_effort_timestamp frame in
  video_hooks_defined av frame text = true <->
  (conf_timestamp av = true ->
   num tb <> 0 /\ ~ (den tb = INT_MIN /\ num tb = -1) /\
   den tb ÷ num tb <> 0 /\ ~ (pts = INT64_MIN /\ den tb ÷ num tb = -1)) /\
  (conf_subtitles av || conf_txsubtitles av = true -> text = true ->
   den tb ÷ 1000 <> 0 /\ ~ (pts = INT64_MIN /\ den tb ÷ 1000 = -1)).
Proof.
  cbv zeta. unfold video_hooks_defined. cbv zeta.
  rewrite andb_true_iff.
  destruct (conf_timestamp av), (conf_subtitles av || conf_txsubtitles av), text;
    cbn [implb andb]; rewrite ?andb_true_iff, ?div_defined_spec;
    intuition congruence.
Qed.

(** With the timestamp overlay and the subtitles switched off no hook
    divides. *)
Lemma video_hooks_defined_off av frame text :
  conf_timestamp av = false ->
  conf_subtitles av = false -> conf_txsubtitles av = false ->
  video_hooks_defined av frame text = true.
Proof. unfold video_hooks_defined. by intros -> -> ->. Qed.

Lemma set_video_start_time_twice av a b :
  set_video_start_time (set_video_start_time av a) b = set_video_start_time av b.
Proof. by destruct av. Qed.

Lemma set_video_start_time_same av :
  set_video_start_time av (video_start_time av) = av.
Proof. by destruct av. Qed.

(** The timestamp overlay has its three numbers exactly when both of
    its divisions are defined. *)
Lemma video_timestamp_eq av frame :
  let tb := video_stream_time_base av in
  video_timestamp av frame
  = if div_defined INT_MIN (den tb) (num tb)
       && div_defined INT64_MIN (best_effort_timestamp frame) (den tb ÷ num tb)
    then
      let sec := to_int (best_effort_timestamp frame ÷ (den tb ÷ num tb)) in
      Some (sec ÷ 3600, (sec - 3600 * (sec ÷ 3600)) ÷ 60,
            sec - 3600 * (sec ÷ 3600) - (sec - 3600 * (sec ÷ 3600)) ÷ 60 * 60)
    else None.
Proof.
  cbv zeta. unfold video_timestamp, c_div.
  destruct (div_defined INT_MIN _ _); [|done]. cbn [andb].
  by destruct (div_defined INT64_MIN _ _).
Qed.

(** The hooks return when their divisions are defined; they publish
    nothing and leave the context alone. *)
Lemma video_hooks_spec frame text av :
  video_hooks_defined av frame text = true ->
  exists t,
    video_hooks frame text av = (Some tt, av, t) /\
    video_publishes t = [] /\ video_scales t = [] /\
    video_reduces t = [] /\ video_skips t = 0%nat.
Proof.
  unfold video_hooks_defined, video_hooks. cbv zeta.
  unfold fbind at 1. unfold lift at 1, wget.
  rewrite video_timestamp_eq. cbv zeta.
  unfold video_subtitle_time, c_div.
  generalize (div_defined INT_MIN (den (video_stream_time_base av))
                (num (video_stream_time_base av))) as d1.
  generalize (div_defined INT64_MIN (best_effort_timestamp frame)
                (den (video_stream_time_base av)
                 ÷ num (video_stream_time_base av))) as d2.
  generalize (div_defined INT64_MIN (best_effort_timestamp frame)
                (den (video_stream_time_base av) ÷ 1000)) as d3.
  intros d3 d2 d1.
  destruct (conf_logo av), (conf_timestamp av), (conf_subtitles av),
    (conf_txsubtitles av), text, d1, d2, d3;
    cbn [implb andb orb]; intros H; try discriminate H;
    eexists; (split; [reflexivity|]); done.
Qed.

(** A hook whose division is not defined ends the worker there. *)
Lemma video_hooks_die frame text av :
  video_hooks_defined av frame text = false ->
  exists t,
    video_hooks frame text av = (None, av, t) /\
    video_publishes t = [] /\ video_scales t = [] /\
    video_reduces t = [] /\ video_skips t = 0%nat.
Proof.
  unfold video_hooks_defined, video_hooks. cbv zeta.
  unfold fbind at 1. unfold lift at 1, wget.
  rewrite video_timestamp_eq. cbv zeta.
  unfold video_subtitle_time, c_div.
  generalize (div_defined INT_MIN (den (video_stream_time_base av))
                (num (video_stream_time_base av))) as d1.
  generalize (div_defined INT64_MIN (best_effort_timestamp frame)
                (den (video_stream_time_base av)
                 ÷ num (video_stream_time_base av))) as d2.
  generalize (div_defined INT64_MIN (best_effort_timestamp frame)
                (den (video_stream_time_base av) ÷ 1000)) as d3.
  intros d3 d2 d1.
  destruct (conf_logo av), (conf_timestamp av), (conf_subtitles av),
    (conf_txsubtitles av), text, d1, d2, d3;
    cbn [implb andb orb]; intros H; try discriminate H;
    eexists; (split; [reflexivity|]); done.
Qed.

(** The hooks neither release the frame nor touch the outbound
    buffer. *)
Lemma video_hooks_trace frame text av :
  Forall (fun e => e <> VRelease /\ e <> VAbort) (video_hooks frame text av).2.
Proof.
  unfold video_hooks, fbind, lift, trap, fret, emit, wget.
  destruct (conf_logo av), (conf_timestamp av), (conf_subtitles av),
    (conf_txsubtitles av), text,
    (video_timestamp av frame) as [[[h m] s]|],
    (video_subtitle_time av frame) as [ms|];
    cbn [orb app fst snd];
    repeat (apply Forall_cons; split; [by split|]); by apply Forall_nil.
Qed.

Lemma video_reduces_app t1 t2 :
  video_reduces (t1 ++ t2) = video_reduces t1 ++ video_reduces t2.
Proof. apply omap_app. Qed.

(** [video_scale_publish] in terms of its hooks. *)
Lemma video_scale_publish_unfold frame text av :
  video_scale_publish frame text av
  = let '(o, av1, t1) := video_hooks frame text av in
    let t := [VBackBuffer; VScale frame;
              VReduce (video_reduce_args av frame).1 (video_reduce_args av frame).2]
             ++ t1 in
    match o with
    | Some _ =>
        (Some tt, set_video_start_time av1 (to_int64 (video_start_time av1 + 1)),
         t ++ [VRelease; VPublish 0])
    | None => (None, av1, t)
    end.
Proof.
  unfold video_scale_publish, fbind, lift, emit, wget, wput.
  cbv beta iota zeta.
  by destruct (video_hooks frame text av) as [[[[]|] av1] t1].
Qed.

(** Scaling and publishing a frame whose hooks return: one
    [sws_scale], one [av_reduce] on the products of
    [video_reduce_args], one publish with [repeat = 0], and the clock
    moves on by one. *)
Lemma video_scale_publish_spec frame text av :
  video_hooks_defined av frame text = true ->
  exists t,
    video_scale_publish frame text av
    = (Some tt, set_video_start_time av (to_int64 (video_start_time av + 1)), t) /\
    video_publishes t = [0] /\
    video_scales t = [frame] /\
    video_reduces t = [video_reduce_args av frame] /\
    video_skips t = 0%nat.
Proof.
  intros Hd.
  destruct (video_hooks_spec frame text av Hd) as (th & Hrun & Hp & Hs & Hr & Hk).
  rewrite video_scale_publish_unfold, Hrun. cbv beta iota zeta.
  eexists. split; [reflexivity|].
  rewrite !video_publishes_app, !video_scales_app, !video_reduces_app,
    !video_skips_app, Hp, Hs, Hr, Hk.
  repeat split; reflexivity.
Qed.

(** The same frame when a hook divides by zero: the frame was scaled
    and its ratio reduced, but it is neither released nor published,
    and the clock stays. *)
Lemma video_scale_publish_dies frame text av :
  video_hooks_defined av frame text = false ->
  exists t,
    video_scale_publish frame text av = (None, av, t) /\
    video_publishes t = [] /\
    video_scales t = [frame] /\
    video_reduces t = [video_reduce_args av frame] /\
    video_skips t = 0%nat /\
    Forall (fun e => e <> VRelease /\ e <> VAbort) t.
Proof.
  intros Hd.
  destruct (video_hooks_die frame text av Hd) as (th & Hrun & Hp & Hs & Hr & Hk).
  pose proof (video_hooks_trace frame text av) as Htr.
  rewrite Hrun in Htr. cbn [snd] in Htr.
  rewrite video_scale_publish_unfold, Hrun. cbv beta iota zeta.
  eexists. split; [reflexivity|].
  rewrite !video_publishes_app, !video_scales_app, !video_reduces_app,
    !video_skips_app, Hp, Hs, Hr, Hk.
  do 4 (split; [reflexivity|]).
  apply Forall_app. split; [|done].
  repeat (apply Forall_cons; split; [by split|]). by apply Forall_nil.
Qed.

(** The call of [av_reduce] comes before the hooks: it is made with
    the products of [video_reduce_args] whatever the hooks do. *)
Lemma video_scale_publish_reduces frame text av :
  video_reduces (video_scale_publish frame text av).2
  = [video_reduce_args av frame].
Proof.
  destruct (video_hooks_defined av frame text) eqn:Hd.
  - destruct (video_scale_publish_spec frame text av Hd) as (t & -> & _ & _ & Hr & _).
    exact Hr.
  - destruct (video_scale_publish_dies frame text av Hd) as (t & -> & _ & _ & Hr & _).
    exact Hr.
Qed.

(** The repeat loop publishes [pts] repeats and moves the clock on by
    [pts]; it leaves [pts] at 0. *)
Lemma video_repeat_loop_spec n : forall pts av,
  n = Z.to_nat pts -> 0 <= pts <= INT64_MAX ->
  in_int64 (video_start_time av) ->
  video_start_time av + pts <= INT64_MAX ->
  video_repeat_loop n pts av
  = (0, set_video_start_time av (video_start_time av + pts),
     replicate n (VPublish 1)).
Proof.
  induction n as [|n IH]; intros pts av Hn Hpts Hst Hmax.
  - assert (pts = 0) as -> by lia. destruct av. simpl.
    unfold wret. simpl. by rewrite Z.add_0_r.
  - assert (0 < pts) as Hpos by lia.
    cbn [video_repeat_loop].
    destruct (Z.ltb_spec 0 pts) as [_|?]; [|lia].
    unfold in_int64, INT64_MIN, INT64_MAX in *.
    unfold wbind, emit, wget, wput.
    rewrite (to_int64_id (pts - 1)) by range.
    rewrite (to_int64_id (_ + 1)) by range.
    rewrite IH; try (destruct av; simpl in *; lia).
    destruct av. unfold set_video_start_time. simpl.
    replace (video_start_time0 + 1 + (pts - 1)) with (video_start_time0 + pts)
      by lia.
    reflexivity.
Qed.

Lemma to_int64_add_l a b : to_int64 (to_int64 a + b) = to_int64 (a + b).
Proof.
  unfold to_int64. f_equal.
  replace ((a + 2 ^ 63) mod 2 ^ 64 - 2 ^ 63 + b + 2 ^ 63)
    with ((a + 2 ^ 63) mod 2 ^ 64 + b) by ring.
  rewrite Zplus_mod_idemp_l. f_equal. ring.
Qed.

(** The repeat loop with the wrap-around of the clock left in: [pts]
    repeats, and the clock moved on by [pts]. *)
Lemma video_repeat_loop_wrap n : forall pts av,
  n = Z.to_nat pts -> 0 <= pts <= INT64_MAX ->
  in_int64 (video_start_time av) ->
  video_repeat_loop n pts av
  = (0, set_video_start_time av (to_int64 (video_start_time av + pts)),
     replicate n (VPublish 1)).
Proof.
  induction n as [|n IH]; intros pts av Hn Hpts Hst.
  - assert (pts = 0) as -> by lia. destruct av. simpl in *.
    unfold wret, set_video_start_time. simpl.
    by rewrite Z.add_0_r, to_int64_id.
  - assert (0 < pts) as Hpos by lia.
    cbn [video_repeat_loop].
    destruct (Z.ltb_spec 0 pts) as [_|?]; [|lia].
    unfold wbind, emit, wget, wput.
    rewrite (to_int64_id (pts - 1)) by range.
    rewrite IH; [|lia|range|destruct av; apply to_int64_range].
    destruct av. unfold set_video_start_time. simpl.
    rewrite to_int64_add_l.
    replace (video_start_time0 + 1 + (pts - 1)) with (video_start_time0 + pts)
      by lia.
    reflexivity.
Qed.

Section VideoFacts.

Variable av_rescale_q : Z -> AVRational -> AVRational -> Z.

(** [video_scaler_frame] with the worker's sequencing written out. *)
Lemma video_scaler_frame_unfold frame text av :
  video_scaler_frame av_rescale_q frame text av
  = if negb (best_effort_timestamp frame =? AV_NOPTS_VALUE) then
      let d := to_int64 (av_rescale_q (best_effort_timestamp frame)
                           (video_stream_time_base av) (video_time_base av)
                         - video_start_time av) in
      if d <? 0 then (Some tt, av, [VUnref])
      else
        let '(_, av1, t1) := video_repeat_loop (Z.to_nat d) d av in
        let '(o, av2, t2) := video_scale_publish frame text av1 in
        (o, av2, t1 ++ t2)
    else video_scale_publish frame text av.
Proof.
  unfold video_scaler_frame.
  destruct (negb (best_effort_timestamp frame =? AV_NOPTS_VALUE)); [|done].
  unfold fbind at 1. unfold lift at 1, wget. cbv zeta.
  destruct (_ <? 0); [done|].
  unfold fbind, lift.
  destruct (video_repeat_loop _ _ av) as [[p av1] t1].
  by destruct (video_scale_publish frame text av1) as [[o av2] t2].
Qed.

(** The frame-rate conversion step, for a frame that carries a time
    stamp: with [d] the rescaled time stamp less the clock, a negative
    [d] skips the frame, and otherwise the worker publishes [d]
    repeats, then scales the frame and, if the hooks return, publishes
    it, and the clock moves on by [d + 1]. *)
Lemma video_scaler_frame_spec frame text av :
  best_effort_timestamp frame <> AV_NOPTS_VALUE ->
  let d := to_int64 (av_rescale_q (best_effort_timestamp frame)
                       (video_stream_time_base av) (video_time_base av)
                     - video_start_time av) in
  (d < 0 -> video_scaler_frame av_rescale_q frame text av = (Some tt, av, [VUnref])) /\
  (0 <= d -> in_int64 (video_start_time av) ->
   video_start_time av + d + 1 <= INT64_MAX ->
   video_hooks_defined av frame text = true ->
   exists t,
     video_scaler_frame av_rescale_q frame text av
     = (Some tt, set_video_start_time av (video_start_time av + d + 1), t) /\
     video_publishes t = replicate (Z.to_nat d) 1 ++ [0] /\
     video_scales t = [frame] /\
     video_skips t = 0%nat).
Proof.
  intros Hpts d. rewrite video_scaler_frame_unfold.
  destruct (Z.eqb_spec (best_effort_timestamp frame) AV_NOPTS_VALUE) as [?|_];
    [done|]. simpl negb. cbv iota. fold d. cbv zeta.
  split.
  - intros Hneg. destruct (Z.ltb_spec d 0); [|lia]. reflexivity.
  - intros Hd Hst Hmax Hhooks. cbv zeta. destruct (Z.ltb_spec d 0); [lia|].
    pose proof (to_int64_range
                  (av_rescale_q (best_effort_timestamp frame)
                     (video_stream_time_base av) (video_time_base av)
                   - video_start_time av)) as Hrange.
    fold d in Hrange.
    rewrite (video_repeat_loop_spec (Z.to_nat d) d av eq_refl) by
      (try done; range).
    rewrite <- (video_hooks_defined_set av (video_start_time av + d)) in Hhooks.
    destruct (video_scale_publish_spec frame text
                (set_video_start_time av (video_start_time av + d)) Hhooks)
      as (t & -> & Hp & Hs & _ & Hk).
    eexists. split.
    + destruct av. unfold set_video_start_time. simpl.
      rewrite to_int64_id
        by (unfold in_int64, INT64_MIN, INT64_MAX in *; simpl in *; lia).
      reflexivity.
    + rewrite video_publishes_app, video_scales_app, video_skips_app, Hp, Hs, Hk.
      by rewrite video_publishes_repeats, video_scales_repeats, video_skips_repeats.
Qed.

Lemma _video_scaler_thread_cons frame text rest av :
  _video_scaler_thread av_rescale_q ((frame, text) :: rest) av
  = let '(o, av1, t1) := video_scaler_frame av_rescale_q frame text av in
    match o with
    | Some _ =>
        let '(o2, av2, t2) := _video_scaler_thread av_rescale_q rest av1 in
        (o2, av2, t1 ++ t2)
    | None => (None, av1, t1)
    end.
Proof.
  cbn [_video_scaler_thread]. unfold fbind.
  by destruct (video_scaler_frame _ _ _ _) as [[[[]|] av1] t1].
Qed.

(** One frame on a clock with equal source and output time bases, for
    a time stamp [p] that rescaling leaves as it is: met at clock
    [s <= p], the frame is preceded by [p - s] repeats and leaves the
    clock at [p + 1]. *)
Lemma video_frame_step tb frame text av p :
  av_rescale_q p tb tb = p ->
  video_stream_time_base av = tb -> video_time_base av = tb ->
  best_effort_timestamp frame = p ->
  0 <= video_start_time av <= p -> p < INT64_MAX ->
  video_hooks_defined av frame text = true ->
  exists t,
    video_scaler_frame av_rescale_q frame text av
    = (Some tt, set_video_start_time av (p + 1), t) /\
    video_publishes t = replicate (Z.to_nat (p - video_start_time av)) 1 ++ [0] /\
    video_scales t = [frame].
Proof.
  intros Hq Hstb Htb Hp Hs Hmax Hhooks.
  assert (Hin : in_int64 p) by range.
  assert (Hne : best_effort_timestamp frame <> AV_NOPTS_VALUE).
  { rewrite Hp. range. }
  destruct (video_scaler_frame_spec frame text av Hne) as [_ Hgo].
  rewrite Hstb, Htb, Hp, Hq in Hgo.
  rewrite to_int64_id in Hgo
    by range.
  destruct Hgo as (t & Hrun & Hpub & Hsc & _).
  - lia.
  - range.
  - lia.
  - done.
  - exists t. rewrite Hrun. split; [|done].
    replace (video_start_time av + (p - video_start_time av) + 1) with (p + 1)
      by lia.
    reflexivity.
Qed.

(** ** Frame-rate conversion when the hooks return *)

(** The drift scenario.  With equal source and output time bases, on
    which rescaling leaves the time stamps 0, 1 and 2 as they are, the
    clock at 0, and hooks whose divisions are defined: the worker
    publishes three times without repeat for frames stamped 0, 1, 2,
    and publishes normal, repeat, normal for frames stamped 0, 2; the
    clock ends at 3 in both runs, nothing else in the context changes,
    and every frame is scaled once. *)
Theorem video_drift_publishes tb av f0 f1 f2 x0 x1 x2 :
  (forall a, 0 <= a <= 2 -> av_rescale_q a tb tb = a) ->
  video_stream_time_base av = tb -> video_time_base av = tb ->
  video_start_time av = 0 ->
  best_effort_timestamp f0 = 0 ->
  best_effort_timestamp f1 = 1 ->
  best_effort_timestamp f2 = 2 ->
  video_hooks_defined av f0 x0 = true ->
  video_hooks_defined av f1 x1 = true ->
  video_hooks_defined av f2 x2 = true ->
  (exists av' t,
     _video_scaler_thread av_rescale_q [(f0, x0); (f1, x1); (f2, x2)] av
     = (Some tt, av', t) /\
     video_start_time av' = 3 /\ video_settings av' = video_settings av /\
     video_publishes t = [0; 0; 0] /\ video_scales t = [f0; f1; f2])
  /\
  (exists av' t,
     _video_scaler_thread av_rescale_q [(f0, x0); (f2, x2)] av
     = (Some tt, av', t) /\
     video_start_time av' = 3 /\ video_settings av' = video_settings av /\
     video_publishes t = [0; 1; 0] /\ video_scales t = [f0; f2]).
Proof.
  intros Hq Hstb Htb Hst H0 H1 H2 D0 D1 D2.
  assert (Hmax : forall p, p <= 2 -> p < INT64_MAX) by range.
  destruct (video_frame_step tb f0 x0 av 0 (Hq 0 ltac:(lia)) Hstb Htb H0)
    as (t0 & R0 & P0 & S0); [lia|apply Hmax; lia|done|].
  rewrite Hst in P0. simpl in P0. change (0 + 1) with 1 in R0.
  set (av1 := set_video_start_time av 1) in *.
  assert (Hstb1 : video_stream_time_base av1 = tb) by (by destruct av).
  assert (Htb1 : video_time_base av1 = tb) by (by destruct av).
  assert (Hst1 : video_start_time av1 = 1) by (by destruct av).
  assert (D1' : video_hooks_defined av1 f1 x1 = true)
    by (subst av1; by rewrite video_hooks_defined_set).
  assert (D2' : video_hooks_defined av1 f2 x2 = true)
    by (subst av1; by rewrite video_hooks_defined_set).
  split.
  - destruct (video_frame_step tb f1 x1 av1 1 (Hq 1 ltac:(lia)) Hstb1 Htb1 H1)
      as (t1 & R1 & P1 & S1); [lia|apply Hmax; lia|done|].
    rewrite Hst1 in P1. simpl in P1. change (1 + 1) with 2 in R1.
    subst av1. rewrite set_video_start_time_twice in R1.
    set (av2 := set_video_start_time av 2) in *.
    assert (Hstb2 : video_stream_time_base av2 = tb) by (by destruct av).
    assert (Htb2 : video_time_base av2 = tb) by (by destruct av).
    assert (Hst2 : video_start_time av2 = 2) by (by destruct av).
    assert (D2'' : video_hooks_defined av2 f2 x2 = true)
      by (subst av2; by rewrite video_hooks_defined_set).
    destruct (video_frame_step tb f2 x2 av2 2 (Hq 2 ltac:(lia)) Hstb2 Htb2 H2)
      as (t2 & R2 & P2 & S2); [lia|apply Hmax; lia|done|].
    rewrite Hst2 in P2. simpl in P2. change (2 + 1) with 3 in R2.
    subst av2. rewrite set_video_start_time_twice in R2.
    eexists _, _.
    rewrite _video_scaler_thread_cons, R0. cbv beta iota.
    rewrite _video_scaler_thread_cons, R1. cbv beta iota.
    rewrite _video_scaler_thread_cons, R2. cbv beta iota.
    cbn [_video_scaler_thread]. unfold lift, emit.
    split; [reflexivity|].
    rewrite video_start_time_set, video_settings_set.
    rewrite !video_publishes_app, !video_scales_app, P0, P1, P2, S0, S1, S2.
    done.
  - destruct (video_frame_step tb f2 x2 av1 2 (Hq 2 ltac:(lia)) Hstb1 Htb1 H2)
      as (t2 & R2 & P2 & S2); [lia|apply Hmax; lia|done|].
    rewrite Hst1 in P2. simpl in P2. change (2 + 1) with 3 in R2.
    subst av1. rewrite set_video_start_time_twice in R2.
    eexists _, _.
    rewrite _video_scaler_thread_cons, R0. cbv beta iota.
    rewrite _video_scaler_thread_cons, R2. cbv beta iota.
    cbn [_video_scaler_thread]. unfold lift, emit.
    split; [reflexivity|].
    rewrite video_start_time_set, video_settings_set.
    rewrite !video_publishes_app, !video_scales_app, P0, P2, S0, S2.
    done.
Qed.

(** A frame without a time stamp takes no part in the drift
    correction.  Whatever the clock holds, a frame stamped
    [AV_NOPTS_VALUE] whose hooks return is not skipped and not
    preceded by a repeat: it is scaled once and published once with
    [repeat = 0], and [video_start_time] is incremented as an
    [int64_t], which below [INT64_MAX] makes it exactly one more;
    nothing else in the context changes. *)
Theorem video_nopts_bypasses_drift frame text av :
  best_effort_timestamp frame = AV_NOPTS_VALUE ->
  video_hooks_defined av frame text = true ->
  (exists av' t,
     video_scaler_frame av_rescale_q frame text av = (Some tt, av', t) /\
     video_start_time av' = to_int64 (video_start_time av + 1) /\
     video_settings av' = video_settings av /\
     video_publishes t = [0] /\
     video_scales t = [frame] /\
     video_skips t = 0%nat)
  /\
  (in_int64 (video_start_time av) -> video_start_time av < INT64_MAX ->
   to_int64 (video_start_time av + 1) = video_start_time av + 1).
Proof.
  intros Hpts Hhooks. split.
  - rewrite video_scaler_frame_unfold, Hpts. simpl.
    destruct (video_scale_publish_spec frame text av Hhooks)
      as (t & Hrun & Hp & Hs & _ & Hk).
    eexists _, t. split; [exact Hrun|].
    by rewrite video_start_time_set, video_settings_set.
  - intros Hin Hlt. apply to_int64_id. range.
Qed.

(** ** Further properties of the video worker *)

(** One frame, whatever happens to it: the clock moves on by the number
    of publishes, and the frame is scaled once and published, or
    skipped, or scaled once and lost in a hook. *)
Lemma video_scaler_frame_cases frame text av :
  in_int64 (video_start_time av) ->
  let r := video_scaler_frame av_rescale_q frame text av in
  let d := to_int64 (av_rescale_q (best_effort_timestamp frame)
                       (video_stream_time_base av) (video_time_base av)
                     - video_start_time av) in
  r.1.2 = set_video_start_time av
            (to_int64 (video_start_time av
                       + Z.of_nat (length (video_publishes r.2)))) /\
  ((r.1.1 = Some tt /\ video_hooks_defined av frame text = true /\
    video_scales r.2 = [frame] /\ video_skips r.2 = 0%nat /\
    exists k, video_publishes r.2 = replicate k 1 ++ [0])
   \/ (r.1.1 = Some tt /\ video_scales r.2 = [] /\ video_skips r.2 = 1%nat /\
       video_publishes r.2 = [] /\
       best_effort_timestamp frame <> AV_NOPTS_VALUE /\ d < 0)
   \/ (r.1.1 = None /\ video_hooks_defined av frame text = false /\
       video_scales r.2 = [frame] /\ video_skips r.2 = 0%nat /\
       Forall (fun e => e <> VRelease /\ e <> VAbort) r.2 /\
       exists k, video_publishes r.2 = replicate k 1)).
Proof.
  intros Hst. cbv zeta. rewrite video_scaler_frame_unfold.
  assert (Hsame : set_video_start_time av (to_int64 (video_start_time av + Z.of_nat 0))
                  = av).
  { destruct av. unfold set_video_start_time. simpl in *.
    by rewrite Z.add_0_r, to_int64_id. }
  destruct (Z.eqb_spec (best_effort_timestamp frame) AV_NOPTS_VALUE) as [Hno|Hpts];
    cbn [negb].
  - destruct (video_hooks_defined av frame text) eqn:Hd.
    + destruct (video_scale_publish_spec frame text av Hd)
        as (t & -> & Hp & Hs & _ & Hk).
      cbn [fst snd]. rewrite Hp, Hs, Hk. split; [done|].
      left. split; [done|]. split; [done|]. split; [done|].
      split; [done|]. by exists 0%nat.
    + destruct (video_scale_publish_dies frame text av Hd)
        as (t & -> & Hp & Hs & _ & Hk & Hrel).
      cbn [fst snd]. rewrite Hp, Hs, Hk. split; [by cbn [length]; rewrite Hsame|].
      right. right. split; [done|]. split; [done|]. split; [done|].
      split; [done|]. split; [done|]. by exists 0%nat.
  - cbv zeta.
    set (d := to_int64 _).
    destruct (Z.ltb_spec d 0) as [Hneg|Hpos].
    + simpl. split; [by rewrite Hsame|]. right. left. done.
    + pose proof (to_int64_range
                    (av_rescale_q (best_effort_timestamp frame)
                       (video_stream_time_base av) (video_time_base av)
                     - video_start_time av)) as Hrange.
      fold d in Hrange.
      rewrite (video_repeat_loop_wrap (Z.to_nat d) d av eq_refl) by (done || range).
      set (av1 := set_video_start_time av (to_int64 (video_start_time av + d))).
      destruct (video_hooks_defined av frame text) eqn:Hd.
      * assert (Hd1 : video_hooks_defined av1 frame text = true)
          by (subst av1; by rewrite video_hooks_defined_set).
        destruct (video_scale_publish_spec frame text av1 Hd1)
          as (t & -> & Hp & Hs & _ & Hk).
        cbn [fst snd].
        rewrite video_publishes_app, video_scales_app, video_skips_app, Hp, Hs, Hk.
        rewrite video_publishes_repeats, video_scales_repeats, video_skips_repeats.
        split.
        -- rewrite length_app, length_replicate. simpl.
           subst av1. rewrite set_video_start_time_twice, ?video_start_time_set.
           rewrite to_int64_add_l. do 2 f_equal. lia.
        -- left. split; [done|]. split; [done|]. split; [done|].
           split; [done|]. by eexists.
      * assert (Hd1 : video_hooks_defined av1 frame text = false)
          by (subst av1; by rewrite video_hooks_defined_set).
        destruct (video_scale_publish_dies frame text av1 Hd1)
          as (t & -> & Hp & Hs & _ & Hk & Hrel).
        cbn [fst snd].
        rewrite video_publishes_app, video_scales_app, video_skips_app, Hp, Hs, Hk.
        rewrite video_publishes_repeats, video_scales_repeats, video_skips_repeats.
        split.
        -- rewrite app_nil_r, length_replicate, Z2Nat.id by lia. done.
        -- right. right. split; [done|]. split; [done|]. split; [done|].
           split; [done|]. split.
           ++ apply Forall_app. split; [|done].
              apply Forall_replicate. by split.
           ++ exists (Z.to_nat d). by rewrite app_nil_r.
Qed.

(** The output clock counts the published frames.  Whatever frames the
    decoder hands over, with or without time stamps, if the divisions
    of the hooks are defined for each of them the worker is not ended
    by a hook, and when it ends [video_start_time] has moved on (as an
    [int64_t]) by exactly the number of publishes, repeats included,
    with nothing else in the context changed; every frame was either
    skipped or scaled once, the scaled frames are in the order in which
    they came, and each of them was published with [repeat = 0]. *)
Theorem video_clock_counts_publishes rounds av :
  in_int64 (video_start_time av) ->
  Forall (fun r => video_hooks_defined av r.1 r.2 = true) rounds ->
  let r := _video_scaler_thread av_rescale_q rounds av in
  r.1.1 = Some tt /\
  video_start_time r.1.2
  = to_int64 (video_start_time av + Z.of_nat (length (video_publishes r.2))) /\
  video_settings r.1.2 = video_settings av /\
  (length (video_scales r.2) + video_skips r.2)%nat = length rounds /\
  sublist (video_scales r.2) (rounds.*1) /\
  length (filter (fun x => x = 0) (video_publishes r.2)) = length (video_scales r.2).
Proof.
  revert av. induction rounds as [|[frame text] rounds IH]; intros av Hst Hall.
  - simpl. rewrite Z.add_0_r, to_int64_id by done. done.
  - cbv zeta. rewrite _video_scaler_thread_cons.
    apply Forall_cons in Hall as [Hd Hall]. cbn [fst snd] in Hd.
    destruct (video_scaler_frame_cases frame text av Hst) as [Hav1 Hcase].
    destruct (video_scaler_frame av_rescale_q frame text av) as [[o av1] t1].
    cbn [fst snd] in Hav1, Hcase.
    assert (Ho : o = Some tt).
    { destruct Hcase as [(-> & _)|[(-> & _)|(_ & Hno & _)]]; [done|done|].
      by rewrite Hd in Hno. }
    subst o.
    assert (Hst1 : in_int64 (video_start_time av1)).
    { rewrite Hav1, video_start_time_set. apply to_int64_range. }
    assert (Hall1 : Forall (fun r => video_hooks_defined av1 r.1 r.2 = true) rounds).
    { eapply Forall_impl; [exact Hall|]. intros [f x] Hfx.
      by rewrite Hav1, video_hooks_defined_set. }
    specialize (IH av1 Hst1 Hall1). cbv zeta in IH.
    destruct (_video_scaler_thread av_rescale_q rounds av1) as [[o2 av2] t2].
    cbn [fst snd] in IH |- *.
    destruct IH as (Ho2 & Hclock & Hset & Hcount & Hsub & Hzero).
    rewrite video_publishes_app, video_scales_app, video_skips_app.
    rewrite !length_app, filter_app, length_app.
    split; [done|]. split.
    { rewrite Hclock, Hav1, video_start_time_set.
      rewrite to_int64_add_l. f_equal. lia. }
    split.
    { by rewrite Hset, Hav1, video_settings_set. }
    rewrite fmap_cons. cbn [fst].
    destruct Hcase as [(_ & _ & Hs & Hk & k & Hp)|[(_ & Hs & Hk & Hp & _)|(Hno & _)]];
      [| |done]; rewrite Hs, Hk, Hp.
    + split; [simpl; lia|]. split; [by apply sublist_skip|].
      rewrite filter_app.
      assert (Hrep : filter (fun x => x = 0) (replicate k 1) = []).
      { clear. induction k as [|k IHk]; [done|]. cbn [replicate].
        by rewrite filter_cons_False. }
      rewrite Hrep. cbn [app]. rewrite filter_cons_True by done.
      rewrite filter_nil. cbn [length]. lia.
    + split; [simpl; lia|]. split; [by apply sublist_cons|]. simpl. lia.
Qed.

(** The clock follows the time stamps.  A frame that carries a time
    stamp, rescaled to [p] ticks of the output clock: if [p] lies
    before the clock the frame is dropped, nothing is scaled or
    published and the clock stays; otherwise, if the divisions of the
    hooks are defined, the frame is published behind as many repeats
    as the clock lags, and the clock then stands at [p + 1], however
    far it was off before, with nothing else in the context changed. *)
Theorem video_clock_follows_time_stamps frame text av :
  best_effort_timestamp frame <> AV_NOPTS_VALUE ->
  let p := av_rescale_q (best_effort_timestamp frame)
             (video_stream_time_base av) (video_time_base av) in
  in_int64 (video_start_time av) ->
  in_int64 (p - video_start_time av) ->
  p < INT64_MAX ->
  (p < video_start_time av ->
   video_scaler_frame av_rescale_q frame text av = (Some tt, av, [VUnref])) /\
  (video_start_time av <= p ->
   video_hooks_defined av frame text = true ->
   exists av' t,
     video_scaler_frame av_rescale_q frame text av = (Some tt, av', t) /\
     video_start_time av' = p + 1 /\
     video_settings av' = video_settings av /\
     video_publishes t = replicate (Z.to_nat (p - video_start_time av)) 1 ++ [0] /\
     video_scales t = [frame]).
Proof.
  intros Hpts p Hst Hd Hmax.
  destruct (video_scaler_frame_spec frame text av Hpts) as [Hskip Hgo].
  fold p in Hskip, Hgo. rewrite (to_int64_id _ Hd) in Hskip, Hgo.
  split.
  - intros Hlt. apply Hskip. lia.
  - intros Hle Hhooks.
    destruct Hgo as (t & Hrun & Hp & Hs & _); [lia|done|lia|done|].
    eexists _, t. split; [exact Hrun|].
    rewrite video_start_time_set, video_settings_set.
    split; [lia|]. done.
Qed.

(** A division by zero in the subtitle hook ends the worker.  With
    subtitles or teletext subtitles enabled and a text subtitle
    loaded, on a stream whose time base has a denominator between
    -1000 and 1000, [time_base.den / 1000] is 0 and the position of
    the subtitle is a division by zero.  A frame that the worker
    does not skip gets that far: it is scaled after the repeats it
    calls for, but it is neither released nor published, no later
    frame is looked at, the outbound buffer is not aborted, and the
    clock has moved on by the repeats only. *)
Theorem subtitle_division_ends_video_worker frame rest av :
  in_int64 (video_start_time av) ->
  conf_subtitles av || conf_txsubtitles av = true ->
  -1000 < den (video_stream_time_base av) < 1000 ->
  (best_effort_timestamp frame = AV_NOPTS_VALUE \/
   0 <= to_int64 (av_rescale_q (best_effort_timestamp frame)
                    (video_stream_time_base av) (video_time_base av)
                  - video_start_time av)) ->
  den (video_stream_time_base av) ÷ 1000 = 0 /\
  video_subtitle_time av frame = None /\
  exists k av' t,
    _video_scaler_thread av_rescale_q ((frame, true) :: rest) av = (None, av', t) /\
    video_publishes t = replicate k 1 /\
    video_start_time av' = to_int64 (video_start_time av + Z.of_nat k) /\
    video_settings av' = video_settings av /\
    video_scales t = [frame] /\
    Forall (fun e => e <> VRelease /\ e <> VAbort) t.
Proof.
  intros Hst Hsub Hden Hgo.
  assert (Hq : den (video_stream_time_base av) ÷ 1000 = 0)
    by (apply Z.quot_small_iff; lia).
  assert (Hnone : video_subtitle_time av frame = None).
  { unfold video_subtitle_time, c_div, div_defined. by rewrite Hq. }
  assert (Hd : video_hooks_defined av frame true = false).
  { unfold video_hooks_defined. cbv zeta. rewrite Hsub, Hq.
    unfold div_defined at 3. cbn [Z.eqb orb negb andb implb].
    apply andb_false_r. }
  split; [done|]. split; [done|].
  rewrite _video_scaler_thread_cons.
  destruct (video_scaler_frame_cases frame true av Hst) as [Hav1 Hcase].
  destruct (video_scaler_frame av_rescale_q frame true av) as [[o av1] t1].
  cbn [fst snd] in Hav1, Hcase.
  destruct Hcase
    as [(_ & Hyes & _)|[(_ & _ & _ & _ & Hpts & Hneg)|(-> & _ & Hs & _ & Hrel & k & Hp)]].
  - by rewrite Hd in Hyes.
  - destruct Hgo as [?|?]; [done|lia].
  - exists k, av1, t1. split; [done|]. split; [done|].
    split; [by rewrite Hav1, video_start_time_set, Hp, length_replicate|].
    split; [by rewrite Hav1, video_settings_set|]. done.
Qed.

End VideoFacts.

(** C9 (amended): a frame whose sample aspect ratio has a zero
    numerator or a zero denominator is scaled with the ratio 1:1 in
    its place: the products handed to [av_reduce] are those of the
    same frame with ratio 1:1.  A ratio with no zero in it is used as
    it is. *)
Theorem zero_ratio_falls_back_to_square av frame text :
  num (sample_aspect_ratio frame) = 0 \/ den (sample_aspect_ratio frame) = 0 ->
  video_ratio frame = mkRational 1 1 /\
  video_reduce_args av frame
  = video_reduce_args av (with_ratio frame (mkRational 1 1)) /\
  video_reduces (video_scale_publish frame text av).2
  = [video_reduce_args av (with_ratio frame (mkRational 1 1))]
  /\
  (forall other,
     num (sample_aspect_ratio other) <> 0 ->
     den (sample_aspect_ratio other) <> 0 ->
     video_ratio other = sample_aspect_ratio other).
Proof.
  intros Hzero.
  assert (Hr : video_ratio frame = mkRational 1 1).
  { unfold video_ratio.
    destruct Hzero as [-> | ->]; simpl; [done|]. by rewrite orb_true_r. }
  assert (Ha : video_reduce_args av frame
               = video_reduce_args av (with_ratio frame (mkRational 1 1))).
  { unfold video_reduce_args. rewrite Hr. done. }
  split; [done|]. split; [done|]. split.
  - by rewrite video_scale_publish_reduces, Ha.
  - intros other Hn Hd. unfold video_ratio.
    destruct (Z.eqb_spec (num (sample_aspect_ratio other)) 0); [done|].
    destruct (Z.eqb_spec (den (sample_aspect_ratio other)) 0); done.
Qed.

(** ** The workers on concrete inputs *)

(** On equal, valid time bases [av_rescale_q_near] is the identity. *)
Lemma av_rescale_q_near_same tb a :
  0 < num tb -> 0 < den tb -> av_rescale_q_near a tb tb = a.
Proof.
  intros Hn Hd. unfold av_rescale_q_near.
  assert (Hc : 0 < num tb * den tb) by nia.
  destruct (Z.leb_spec (num tb * den tb) 0); [lia|].
  destruct (Z.ltb_spec (num tb * den tb) 0); [lia|]. simpl.
  rewrite Z.div_add_l by lia.
  rewrite (Z.div_small (_ / 2)).
  2:{ split; [apply Z.div_pos; lia|]. apply Z.div_lt_upper_bound; lia. }
  destruct (Z.ltb_spec a 0); lia.
Qed.

(** C1: the three publishes are not made on every stream.  On a
    stream and an output clock of 25 ticks per second, the clock at 0,
    with subtitles enabled and a text subtitle loaded, the worker
    scales the frame stamped 0 and is then ended by the division by
    [time_base.den / 1000 = 0] in the subtitle hook: for the frames
    stamped 0, 1, 2 and for the frames stamped 0, 2 alike nothing is
    published and the clock is still at 0. *)
Theorem video_drift_dies_in_subtitle_hook :
  video_stream_time_base video_ctx_25_text = video_time_base video_ctx_25_text /\
  video_start_time video_ctx_25_text = 0 /\
  den (video_stream_time_base video_ctx_25_text) ÷ 1000 = 0 /\
  (exists av' t,
     _video_scaler_thread av_rescale_q_near
       [(video_frame 0 square, true); (video_frame 1 square, true);
        (video_frame 2 square, true)] video_ctx_25_text
     = (None, av', t) /\
     video_publishes t = [] /\ video_start_time av' = 0 /\
     video_scales t = [video_frame 0 square] /\ VAbort ∉ t)
  /\
  (exists av' t,
     _video_scaler_thread av_rescale_q_near
       [(video_frame 0 square, true); (video_frame 2 square, true)]
       video_ctx_25_text
     = (None, av', t) /\
     video_publishes t = [] /\ video_start_time av' = 0 /\
     video_scales t = [video_frame 0 square] /\ VAbort ∉ t).
Proof.
  split; [reflexivity|]. split; [reflexivity|]. split; [reflexivity|].
  split; eexists _, _; (split; [vm_compute; reflexivity|]);
    (split; [reflexivity|]); (split; [reflexivity|]); (split; [reflexivity|]);
    intros Hin;
    repeat (apply elem_of_cons in Hin as [Hin|Hin]; [discriminate Hin|]);
    by apply elem_of_nil in Hin.
Qed.

(** C10: a frame without a time stamp is not always published.  In
    the same context, with subtitles enabled, a text subtitle loaded
    and a time base of 1/25, a frame stamped [AV_NOPTS_VALUE] is
    scaled, and the worker is then ended by the division by
    [time_base.den / 1000 = 0]: the frame is not published and the
    clock is not incremented. *)
Theorem video_nopts_dies_in_subtitle_hook :
  best_effort_timestamp (video_frame AV_NOPTS_VALUE square) = AV_NOPTS_VALUE /\
  video_subtitle_time video_ctx_25_text (video_frame AV_NOPTS_VALUE square) = None /\
  exists av' t,
    video_scaler_frame av_rescale_q_near (video_frame AV_NOPTS_VALUE square) true
      video_ctx_25_text
    = (None, av', t) /\
    video_publishes t = [] /\
    video_start_time av' = video_start_time video_ctx_25_text /\
    video_scales t = [video_frame AV_NOPTS_VALUE square].
Proof.
  split; [reflexivity|]. split; [reflexivity|].
  eexists _, _. split; [vm_compute; reflexivity|]. done.
Qed.

Lemma video_drift_publishes_witness :
  (exists av' t,
     _video_scaler_thread av_rescale_q_near
       [(video_frame 0 square, false); (video_frame 1 square, false);
        (video_frame 2 square, false)] video_ctx_osd
     = (Some tt, av', t) /\
     video_start_time av' = 3 /\
     video_settings av' = video_settings video_ctx_osd /\
     video_publishes t = [0; 0; 0] /\
     video_scales t
     = [video_frame 0 square; video_frame 1 square; video_frame 2 square])
  /\
  (exists av' t,
     _video_scaler_thread av_rescale_q_near
       [(video_frame 0 square, false); (video_frame 2 square, false)] video_ctx_osd
     = (Some tt, av', t) /\
     video_start_time av' = 3 /\
     video_settings av' = video_settings video_ctx_osd /\
     video_publishes t = [0; 1; 0] /\
     video_scales t = [video_frame 0 square; video_frame 2 square]).
Proof.
  apply (video_drift_publishes av_rescale_q_near (mkRational 1 25) video_ctx_osd
           (video_frame 0 square) (video_frame 1 square) (video_frame 2 square)
           false false false);
    try reflexivity.
  intros a _. apply av_rescale_q_near_same; reflexivity.
Defined.

Lemma video_nopts_bypasses_drift_witness :
  (exists av' t,
     video_scaler_frame av_rescale_q_near (video_frame AV_NOPTS_VALUE square) false
       video_ctx_osd
     = (Some tt, av', t) /\
     video_start_time av' = to_int64 (video_start_time video_ctx_osd + 1) /\
     video_settings av' = video_settings video_ctx_osd /\
     video_publishes t = [0] /\
     video_scales t = [video_frame AV_NOPTS_VALUE square] /\
     video_skips t = 0%nat)
  /\
  (in_int64 (video_start_time video_ctx_osd) ->
   video_start_time video_ctx_osd < INT64_MAX ->
   to_int64 (video_start_time video_ctx_osd + 1) = video_start_time video_ctx_osd + 1).
Proof.
  apply (video_nopts_bypasses_drift av_rescale_q_near
           (video_frame AV_NOPTS_VALUE square) false video_ctx_osd).
  - reflexivity.
  - reflexivity.
Defined.

Lemma zero_ratio_falls_back_to_square_witness :
  video_ratio frame_zero_ratio = mkRational 1 1 /\
  video_reduce_args video_ctx_25 frame_zero_ratio
  = video_reduce_args video_ctx_25 (with_ratio frame_zero_ratio (mkRational 1 1)) /\
  video_reduces (video_scale_publish frame_zero_ratio false video_ctx_25).2
  = [video_reduce_args video_ctx_25
       (with_ratio frame_zero_ratio (mkRational 1 1))]
  /\
  (forall other,
     num (sample_aspect_ratio other) <> 0 ->
     den (sample_aspect_ratio other) <> 0 ->
     video_ratio other = sample_aspect_ratio other).
Proof.
  apply (zero_ratio_falls_back_to_square video_ctx_25 frame_zero_ratio false).
  left. reflexivity.
Defined.

(** C9, as stated, fails on a frame whose sample aspect ratio is -1:1.
    Its numerator is not positive, yet the scaler keeps the ratio: the
    first product handed to [av_reduce] is negative, where the ratio
    1:1 gives a positive one. *)
Lemma negative_ratio_counterexample :
  num (sample_aspect_ratio frame_negative_ratio) <= 0 /\
  video_ratio frame_negative_ratio = mkRational (-1) 1 /\
  video_ratio frame_negative_ratio <> mkRational 1 1 /\
  video_reduce_args video_ctx_25 frame_negative_ratio = (-414720, 414720) /\
  video_reduce_args video_ctx_25 (with_ratio frame_negative_ratio (mkRational 1 1))
  = (414720, 414720) /\
  exists t,
    video_scaler_frame av_rescale_q_near frame_negative_ratio false video_ctx_25
    = (Some tt, set_video_start_time video_ctx_25 1, t) /\
    video_reduces t = [(-414720, 414720)].
Proof.
  split; [by vm_compute|]. split; [reflexivity|]. split; [discriminate|].
  split; [reflexivity|]. split; [reflexivity|].
  eexists. split; vm_compute; reflexivity.
Qed.

(** ** The audio post-process worker *)

Section AudioFacts.

Variable av_rescale_q : Z -> AVRational -> AVRational -> Z.
Variable av_sample_fmt_is_planar : Z -> Z.
Variable av_get_bytes_per_sample : Z -> Z.


(** [audio_sync] with the worker's sequencing written out. *)
Lemma audio_sync_unfold frame av :
  audio_sync av_rescale_q frame av
  = if negb (best_effort_timestamp frame =? AV_NOPTS_VALUE) then
      let d := to_int64 (av_rescale_q (best_effort_timestamp frame)
                           (audio_stream_time_base av) (audio_time_base av)
                         - audio_start_time av) in
      if to_int64 (d + nb_samples frame) <=? 0 then (ASkip, av, [AUnref])
      else if d <? to_int (- allowed_error av) then (AFeed (to_int (- d)), av, [])
      else if allowed_error av <? d then
        (AFeed 0, set_audio_start_time av (to_int64 (audio_start_time av + d)),
         [AInjectSilence (to_int d)])
      else (AFeed 0, av, [])
    else (AFeed 0, av, []).
Proof.
  unfold audio_sync.
  destruct (negb (best_effort_timestamp frame =? AV_NOPTS_VALUE)); [|done].
  unfold wbind at 1. unfold wget at 1. cbv zeta.
  destruct (_ <=? 0); [done|].
  destruct (_ <? to_int _); [done|].
  destruct (_ <? _); done.
Qed.

(** The drift check, for a frame that carries a time stamp and is not
    wholly in the past: with [d] the rescaled time stamp less the
    clock, the first [-d] samples are left out when [d] is below minus
    the tolerance, [d] samples of silence are injected and the clock is
    moved on by [d] when [d] is above the tolerance, and nothing is
    done in between. *)
Lemma audio_sync_spec frame av :
  best_effort_timestamp frame <> AV_NOPTS_VALUE ->
  let d := to_int64 (av_rescale_q (best_effort_timestamp frame)
                       (audio_stream_time_base av) (audio_time_base av)
                     - audio_start_time av) in
  0 <= allowed_error av <= INT_MAX ->
  0 < to_int64 (d + nb_samples frame) ->
  (d < - allowed_error av ->
   audio_sync av_rescale_q frame av = (AFeed (to_int (- d)), av, [])) /\
  (- allowed_error av <= d <= allowed_error av ->
   audio_sync av_rescale_q frame av = (AFeed 0, av, [])) /\
  (allowed_error av < d ->
   audio_sync av_rescale_q frame av
   = (AFeed 0, set_audio_start_time av (to_int64 (audio_start_time av + d)),
      [AInjectSilence (to_int d)])).
Proof.
  intros Hpts d Htol Hnext. rewrite audio_sync_unfold.
  destruct (Z.eqb_spec (best_effort_timestamp frame) AV_NOPTS_VALUE) as [?|_];
    [done|]. cbn [negb]. cbv zeta. fold d.
  destruct (Z.leb_spec (to_int64 (d + nb_samples frame)) 0); [lia|].
  rewrite (to_int_id (- allowed_error av))
    by range.
  split; [|split].
  - intros Hlow. destruct (Z.ltb_spec d (- allowed_error av)); [|lia].
    reflexivity.
  - intros Hmid. destruct (Z.ltb_spec d (- allowed_error av)); [lia|].
    destruct (Z.ltb_spec (allowed_error av) d); [lia|]. reflexivity.
  - intros Hhigh. destruct (Z.ltb_spec d (- allowed_error av)); [lia|].
    destruct (Z.ltb_spec (allowed_error av) d); [|lia]. reflexivity.
Qed.


(** ** Further properties of the audio worker *)

Lemma to_int64_add_0 a : in_int64 a -> to_int64 (a + 0) = a.
Proof. intros H. rewrite Z.add_0_r. by apply to_int64_id. Qed.

(** The resample loop, once it has offered its input: every further
    call offers no input, and the clock stays. *)
Lemma audio_convert_loop_drain rs : forall input av rest av' t,
  in_int64 (audio_start_time av) ->
  audio_convert_loop rs input 0 av = Some (rest, av', t) ->
  av' = av /\
  audio_converts t = replicate (length (audio_converts t)) (None, 0) /\
  ((rs = audio_published t ++ 0 :: rest /\ Forall (fun r => 0 < r) (audio_published t))
   \/ (exists ps r, audio_published t = ps ++ [r] /\ r < 0 /\
         Forall (fun r => 0 < r) ps /\ rs = audio_published t ++ rest)).
Proof.
  induction rs as [|r rs IH]; intros input av rest av' t Hst; [done|].
  cbn [audio_convert_loop]. simpl (0 =? 0). cbn [negb].
  assert (Hav : set_audio_start_time av (to_int64 (audio_start_time av + 0)) = av).
  { destruct av. unfold set_audio_start_time. simpl in *.
    by rewrite to_int64_add_0. }
  rewrite Hav.
  destruct (Z.eqb_spec r 0) as [->|Hr0].
  - intros [= <- <- <-]. simpl. split; [done|]. split; [done|]. by left.
  - destruct (Z.ltb_spec 0 r) as [Hpos|Hneg].
    + destruct (audio_convert_loop rs input 0 av) as [[[rest1 av1] t1]|] eqn:Hrec;
        [|discriminate].
      intros [= <- <- <-].
      destruct (IH _ _ _ _ _ Hst Hrec) as (-> & Hc & Hp).
      split; [done|]. simpl.
      split; [by rewrite <- Hc|].
      destruct Hp as [[-> Hall]|(ps & r' & Hps & Hr' & Hall & ->)].
      * left. split; [done|]. by apply Forall_cons.
      * right. exists (r :: ps), r'. rewrite Hps. split; [done|].
        split; [done|]. split; [by apply Forall_cons|]. done.
    + intros [= <- <- <-]. simpl. split; [done|]. split; [done|].
      right. exists [], r. split; [done|]. split; [lia|]. by split.
Qed.

(** The resample loop: its first call and the clock it leaves. *)
Lemma audio_convert_loop_first rs input count av rest av' t :
  in_int64 (audio_start_time av) ->
  audio_convert_loop rs input count av = Some (rest, av', t) ->
  head (audio_converts t)
  = Some (if negb (count =? 0) then Some input else None, count) /\
  av' = match audio_published t with
        | [] => av
        | _ :: _ =>
            set_audio_start_time av (to_int64 (audio_start_time av + count))
        end.
Proof.
  intros Hst. destruct rs as [|r rs]; [done|].
  cbn [audio_convert_loop].
  destruct (r =? 0); [by intros [= <- <- <-]|].
  destruct (0 <? r); [|by intros [= <- <- <-]].
  destruct (audio_convert_loop rs input 0 _) as [[[rest1 av1] t1]|] eqn:Hrec;
    [|discriminate].
  intros [= <- <- <-].
  apply audio_convert_loop_drain in Hrec as (-> & _ & _).
  - done.
  - destruct av. apply to_int64_range.
Qed.

(** The resample loop.  The frame's samples are offered to
    [swr_convert] once, in the first call; every further call drains
    the resampler with a NULL input and a count of 0.  The blocks
    published carry the positive results of the calls, in order, and
    the loop ends at the first result that is not positive: a 0 is not
    published, but a negative result, an error of the resampler, is
    published as the sample count of a last block.  The clock moves on
    by the frame's sample count if the first call returned a non-zero
    result, and not at all if it returned 0. *)
Theorem audio_samples_offered_once rs input count av rest av' t :
  in_int64 (audio_start_time av) ->
  audio_convert_loop rs input count av = Some (rest, av', t) ->
  audio_converts t
  = (if negb (count =? 0) then Some input else None, count)
      :: replicate (length (audio_converts t) - 1) (None, 0) /\
  ((rs = audio_published t ++ 0 :: rest /\ Forall (fun r => 0 < r) (audio_published t))
   \/ (exists ps r, audio_published t = ps ++ [r] /\ r < 0 /\
         Forall (fun r => 0 < r) ps /\ rs = audio_published t ++ rest)) /\
  av' = match audio_published t with
        | [] => av
        | _ :: _ =>
            set_audio_start_time av (to_int64 (audio_start_time av + count))
        end.
Proof.
  intros Hst. destruct rs as [|r rs]; [done|].
  cbn [audio_convert_loop].
  destruct (Z.eqb_spec r 0) as [->|Hr0].
  - intros [= <- <- <-]. simpl. split; [done|]. split; [by left|done].
  - destruct (Z.ltb_spec 0 r) as [Hpos|Hneg].
    + destruct (audio_convert_loop rs input 0 _) as [[[rest1 av1] t1]|] eqn:Hrec;
        [|discriminate].
      intros [= <- <- <-].
      apply audio_convert_loop_drain in Hrec as (-> & Hc & Hp).
      2:{ destruct av. apply to_int64_range. }
      simpl. rewrite Nat.sub_0_r. split; [by rewrite <- Hc|]. split; [|done].
      destruct Hp as [[-> Hall]|(ps & r' & Hps & Hr' & Hall & ->)].
      * left. split; [done|]. by apply Forall_cons.
      * right. exists (r :: ps), r'. rewrite Hps. split; [done|].
        split; [done|]. split; [by apply Forall_cons|]. done.
    + intros [= <- <- <-]. simpl. split; [done|]. split; [|done].
      right. exists [], r. split; [done|]. split; [lia|]. by split.
Qed.

Lemma audio_published_app t1 t2 :
  audio_published (t1 ++ t2) = audio_published t1 ++ audio_published t2.
Proof. apply omap_app. Qed.

Lemma audio_converts_app t1 t2 :
  audio_converts (t1 ++ t2) = audio_converts t1 ++ audio_converts t2.
Proof. apply omap_app. Qed.

Lemma audio_silences_app t1 t2 :
  audio_silences (t1 ++ t2) = audio_silences t1 ++ audio_silences t2.
Proof. apply omap_app. Qed.

(** The resample loop injects no silence. *)
Lemma audio_convert_loop_silences rs : forall input count av rest av' t,
  audio_convert_loop rs input count av = Some (rest, av', t) ->
  audio_silences t = [].
Proof.
  induction rs as [|r rs IH]; intros input count av rest av' t; [done|].
  cbn [audio_convert_loop].
  destruct (r =? 0); [by intros [= <- <- <-]|].
  destruct (0 <? r); [|by intros [= <- <- <-]].
  destruct (audio_convert_loop rs input 0 _) as [[[rest1 av1] t1]|] eqn:Hrec;
    [|discriminate].
  intros [= <- <- <-]. simpl. by eapply IH.
Qed.

(** The closing [av_frame_unref] adds nothing to what a trace
    publishes, converts or injects. *)
Lemma audio_trace_release t :
  audio_published (t ++ [ARelease]) = audio_published t /\
  audio_converts (t ++ [ARelease]) = audio_converts t /\
  audio_silences (t ++ [ARelease]) = audio_silences t.
Proof.
  rewrite audio_published_app, audio_converts_app, audio_silences_app.
  by rewrite !app_nil_r.
Qed.

(** The audio clock follows the time stamps.  A frame of [nb] samples
    that carries a time stamp, rescaled to [p] samples of the audio
    clock, and whose first [swr_convert] call returns a non-zero
    result: a frame that ends at or before the clock is dropped
    without a call of the resampler; a frame that starts more than the
    tolerance before the clock has the samples before the clock left
    out, and one that starts more than the tolerance after it has the
    gap filled with silence, and in both cases the clock then stands at
    the end of the frame, [p + nb]; a frame within the tolerance is
    resampled whole and the clock moves on by [nb], keeping its
    offset. *)
Theorem audio_clock_follows_time_stamps rs frame av :
  best_effort_timestamp frame <> AV_NOPTS_VALUE ->
  let p := av_rescale_q (best_effort_timestamp frame)
             (audio_stream_time_base av) (audio_time_base av) in
  let d := p - audio_start_time av in
  let nb := nb_samples frame in
  - 2 ^ 61 <= audio_start_time av <= 2 ^ 61 ->
  - 2 ^ 61 <= p <= 2 ^ 61 ->
  0 < nb <= INT_MAX -> 0 <= allowed_error av <= INT_MAX ->
  (d + nb <= 0 ->
   audio_scaler_frame av_rescale_q av_sample_fmt_is_planar
     av_get_bytes_per_sample rs frame av = Some (rs, av, [AUnref])) /\
  (0 < d + nb ->
   forall rest av' t,
     audio_scaler_frame av_rescale_q av_sample_fmt_is_planar
       av_get_bytes_per_sample rs frame av = Some (rest, av', t) ->
     audio_published t <> [] ->
     audio_start_time av'
     = (if (d <? - allowed_error av) || (allowed_error av <? d)
        then p + nb else audio_start_time av + nb) /\
     audio_silences t = (if allowed_error av <? d then [to_int d] else []) /\
     head (audio_converts t)
     = Some (Some (_audio_offset av_sample_fmt_is_planar av_get_bytes_per_sample
                     (data frame)
                     (if d <? - allowed_error av then - d else 0)
                     (nb_channels av) (sample_fmt av)),
             if d <? - allowed_error av then nb + d else nb)).
Proof.
  intros Hpts p d nb Hst' Hp Hnb Htol.
  assert (Hdeq : d = p - audio_start_time av) by reflexivity.
  assert (Hnbeq : nb = nb_samples frame) by reflexivity.
  assert (Hst : in_int64 (audio_start_time av)) by range.
  assert (Hd : in_int64 d) by range.
  assert (Hd64 : to_int64 d = d) by (by apply to_int64_id).
  split.
  - intros Hpast. unfold audio_scaler_frame. rewrite audio_sync_unfold.
    destruct (Z.eqb_spec (best_effort_timestamp frame) AV_NOPTS_VALUE) as [?|_];
      [done|]. cbn [negb]. cbv zeta. fold p. fold d. rewrite Hd64. fold nb.
    rewrite to_int64_id by range.
    destruct (Z.leb_spec (d + nb) 0); [done|lia].
  - intros Hnext rest av' t.
    destruct (audio_sync_spec frame av Hpts Htol) as (Hlow & Hmid & Hhigh).
    { fold p. fold d. rewrite Hd64. fold nb. rewrite to_int64_id by range. done. }
    fold p in Hlow, Hmid, Hhigh. fold d in Hlow, Hmid, Hhigh.
    rewrite Hd64 in Hlow, Hmid, Hhigh.
    unfold audio_scaler_frame. fold nb.
    destruct (Z.ltb_spec d (- allowed_error av)) as [Hlt|Hge].
    + (* trimmed *)
      rewrite Hlow by done. cbn [orb].
      rewrite (to_int_id (- d)) by range.
      replace (nb - - d) with (nb + d) by lia.
      rewrite (to_int_id (nb + d)) by range.
      destruct (audio_convert_loop _ _ _ _) as [[[rest1 av1] t1]|] eqn:Hloop;
        [|discriminate].
      intros [= <- <- <-] Hpub.
      pose proof (audio_convert_loop_silences _ _ _ _ _ _ _ Hloop) as Hsil.
      apply audio_convert_loop_first in Hloop as (Hc & Hav); [|done].
      destruct (audio_trace_release t1) as (Hp1 & Hc1 & Hs1).
      cbn [app] in Hpub |- *. rewrite Hp1 in Hpub. rewrite Hc1, Hs1, Hsil, Hc.
      destruct (Z.ltb_spec (allowed_error av) d); [lia|].
      destruct (Z.eqb_spec (nb + d) 0); [lia|]. cbn [negb].
      split; [|done].
      destruct (audio_published t1); [done|]. rewrite Hav.
      destruct av. simpl in *. rewrite to_int64_id by range. lia.
    + destruct (Z.ltb_spec (allowed_error av) d) as [Hgt|Hle].
      * (* silence *)
        rewrite Hhigh by done. cbn [orb].
        rewrite Z.sub_0_r, (to_int_id nb) by range.
        destruct (audio_convert_loop _ _ _ _) as [[[rest1 av1] t1]|] eqn:Hloop;
          [|discriminate].
        intros [= <- <- <-] Hpub.
        pose proof (audio_convert_loop_silences _ _ _ _ _ _ _ Hloop) as Hsil.
        apply audio_convert_loop_first in Hloop as (Hc & Hav).
        2:{ destruct av. apply to_int64_range. }
        destruct (audio_trace_release t1) as (Hp1 & Hc1 & Hs1).
        cbn [app] in Hpub |- *.
        change (audio_published (AInjectSilence (to_int d) :: t1 ++ [ARelease]))
          with (audio_published (t1 ++ [ARelease])) in Hpub.
        change (audio_converts (AInjectSilence (to_int d) :: t1 ++ [ARelease]))
          with (audio_converts (t1 ++ [ARelease])).
        change (audio_silences (AInjectSilence (to_int d) :: t1 ++ [ARelease]))
          with (to_int d :: audio_silences (t1 ++ [ARelease])).
        rewrite Hp1 in Hpub. rewrite Hc1, Hs1, Hsil, Hc.
        destruct (Z.eqb_spec nb 0); [lia|]. cbn [negb].
        split; [|by destruct av].
        destruct (audio_published t1); [done|]. rewrite Hav.
        destruct av. simpl in *.
        rewrite to_int64_add_l. rewrite to_int64_id by range. lia.
      * (* within the tolerance *)
        rewrite Hmid by lia. cbn [orb].
        rewrite Z.sub_0_r, (to_int_id nb) by range.
        destruct (audio_convert_loop _ _ _ _) as [[[rest1 av1] t1]|] eqn:Hloop;
          [|discriminate].
        intros [= <- <- <-] Hpub.
        pose proof (audio_convert_loop_silences _ _ _ _ _ _ _ Hloop) as Hsil.
        apply audio_convert_loop_first in Hloop as (Hc & Hav); [|done].
        destruct (audio_trace_release t1) as (Hp1 & Hc1 & Hs1).
        cbn [app] in Hpub |- *. rewrite Hp1 in Hpub. rewrite Hc1, Hs1, Hsil, Hc.
        destruct (Z.eqb_spec nb 0); [lia|]. cbn [negb].
        split; [|done].
        destruct (audio_published t1); [done|]. rewrite Hav.
        destruct av. simpl in *. rewrite to_int64_id by range. lia.
Qed.

End AudioFacts.



(** ** The pull API *)

Lemma stream_done_bool stream eof :
  stream_done stream eof <-> bool_decide (is_Some stream) && (eof =? 0) = false.
Proof.
  unfold stream_done.
  case_bool_decide as Hs; destruct (Z.eqb_spec eof 0) as [He|He]; simpl;
    split; try done; auto.
  intros H. by specialize (H Hs).
Qed.

Lemma _av_ffmpeg_eof_spec av :
  (_av_ffmpeg_eof av = 1 <-> av_streams_done av) /\
  (_av_ffmpeg_eof av = 0 <-> ~ av_streams_done av).
Proof.
  unfold _av_ffmpeg_eof, av_streams_done.
  rewrite !stream_done_bool.
  destruct (bool_decide (is_Some (video_stream av)) && (video_eof av =? 0)),
    (bool_decide (is_Some (audio_stream av)) && (audio_eof av =? 0));
    simpl; split; split; try done; try (by intros [? ?]); try (by intros []);
    by intros _ [? ?].
Qed.

Lemma flags_kept_refl av : flags_kept av av.
Proof. by repeat split. Qed.

Lemma flags_kept_trans av1 av2 av3 :
  flags_kept av1 av2 -> flags_kept av2 av3 -> flags_kept av1 av3.
Proof.
  intros (H1 & H2 & H3 & H4 & H5 & H6) (K1 & K2 & K3 & K4 & K5 & K6).
  repeat split; try congruence; auto.
Qed.

Lemma read_video_finish_flags av frame :
  forall av', left_by (read_video_finish av frame) = Some av' -> flags_kept av av'.
Proof.
  intros av'. destruct frame; simpl; intros [= <-]; [apply flags_kept_refl|].
  by repeat split.
Qed.

Lemma _av_ffmpeg_read_video_flags av kb now av' :
  left_by (_av_ffmpeg_read_video av kb now) = Some av' -> flags_kept av av'.
Proof.
  unfold _av_ffmpeg_read_video.
  destruct (video_stream av) eqn:Hv; [|intros [= <-]; apply flags_kept_refl].
  set (av1 := match kb with
              | KbChar 32 => set_paused av (Z.lxor (paused av) 1 mod 256)
              | _ => av
              end).
  assert (H1 : flags_kept av av1).
  { subst av1. destruct kb as [|c|c]; try apply flags_kept_refl.
    destruct (decide (c = 32)) as [->|Hne]; [by repeat split|].
    repeat case_match; try apply flags_kept_refl; by repeat split. }
  clearbody av1.
  set (nav := match kb with
              | KbEscape 67 => AVSEEK_FWD
              | KbEscape 68 => AVSEEK_RWD
              | _ => 0
              end).
  clearbody nav.
  set (av2 := if (nav =? AVSEEK_FWD) || (nav =? AVSEEK_RWD)
              then add_start_times av1 nav else av1).
  assert (H2 : flags_kept av av2).
  { subst av2. destruct (_ || _); [|done].
    eapply flags_kept_trans; [exact H1|]. by repeat split. }
  clearbody av2. clear H1 av1.
  destruct (negb (paused av2 =? 0)).
  - intros H. apply read_video_finish_flags in H.
    eapply flags_kept_trans; [exact H2|].
    eapply flags_kept_trans; [|exact H]. by repeat split.
  - destruct (_frame_dbuffer_flip (out_video_buffer av2)) as [frame d|d|];
      [| |discriminate].
    + cbv zeta. set (av3 := set_out_video_buffer av2 d).
      assert (H3 : flags_kept av av3).
      { eapply flags_kept_trans; [exact H2|]. by repeat split. }
      clearbody av3.
      assert (Hfin : left_by (read_video_finish av3 frame) = Some av' ->
                     flags_kept av av').
      { intros H. apply read_video_finish_flags in H.
        eapply flags_kept_trans; eauto. }
      destruct (_ <? 5); [|done].
      destruct frame; [done|discriminate].
    + intros [= <-]. eapply flags_kept_trans; [exact H2|]. by repeat split.
Qed.

Lemma _av_ffmpeg_read_audio_flags av av' :
  left_by (_av_ffmpeg_read_audio av) = Some av' -> flags_kept av av'.
Proof.
  unfold _av_ffmpeg_read_audio.
  destruct (audio_stream av); [|intros [= <-]; apply flags_kept_refl].
  destruct (negb (paused av =? 0)); [intros [= <-]; apply flags_kept_refl|].
  destruct (_frame_dbuffer_flip (out_audio_buffer av)) as [[f|] d|d|];
    [| | |discriminate]; intros [= <-]; by repeat split.
Qed.

(** No step lowers an EOF flag or changes which streams are open. *)
Lemma pull_step_flags av op av' :
  pull_step av op = Some av' -> flags_kept av av'.
Proof.
  destruct op; simpl.
  - apply _av_ffmpeg_read_video_flags.
  - apply _av_ffmpeg_read_audio_flags.
  - intros [= <-]. apply flags_kept_refl.
  - destruct (left_by _); intros [= <-]. by repeat split.
  - destruct (left_by _); intros [= <-]. by repeat split.
  - intros [= <-]. by repeat split.
  - intros [= <-]. by repeat split.
Qed.

Lemma pull_run_flags ops : forall av av',
  pull_run av ops = Some av' -> flags_kept av av'.
Proof.
  induction ops as [|op ops IH]; intros av av'; simpl.
  - intros [= <-]. apply flags_kept_refl.
  - destruct (pull_step av op) as [av1|] eqn:Hs; [|discriminate].
    intros Hr. eapply flags_kept_trans; [by apply pull_step_flags in Hs|].
    by apply IH.
Qed.

Lemma flags_kept_done av av' :
  flags_kept av av' -> av_streams_done av -> av_streams_done av'.
Proof.
  intros (Hv & Ha & _ & _ & Hve & Hae).
  unfold av_streams_done, stream_done. rewrite Hv, Ha.
  intros [H1 H2]. split; auto.
Qed.

(** C8 (amended): [_av_ffmpeg_eof] returns 1 exactly when the video
    stream and the audio stream are each absent or have their EOF flag
    up, and 0 otherwise; the subtitle stream and its flag are not
    looked at.  Once it returns 1 it returns 1 after any further pulls
    and buffer activity, because no step lowers an EOF flag. *)
Theorem eof_iff_video_and_audio_done av :
  (_av_ffmpeg_eof av = 1 <-> av_streams_done av) /\
  (_av_ffmpeg_eof av = 0 <-> ~ av_streams_done av) /\
  (forall ops av',
     pull_run av ops = Some av' ->
     (_av_ffmpeg_eof av = 1 -> _av_ffmpeg_eof av' = 1) /\
     (video_eof av <> 0 -> video_eof av' <> 0) /\
     (audio_eof av <> 0 -> audio_eof av' <> 0)).
Proof.
  destruct (_av_ffmpeg_eof_spec av) as [H1 H0].
  split; [done|]. split; [done|].
  intros ops av' Hrun. apply pull_run_flags in Hrun.
  split.
  - intros He. apply (_av_ffmpeg_eof_spec av').
    eapply flags_kept_done; [exact Hrun|]. by apply H1.
  - destruct Hrun as (_ & _ & _ & _ & Hve & Hae). auto.
Qed.

(** C8, as stated, fails when a subtitle stream was opened.  After
    both scalers ended and the renderer pulled once more from each
    outbound buffer, [_av_ffmpeg_eof] returns 1 although the subtitle
    stream is open and its EOF flag is still 0. *)
Lemma subtitle_stream_counterexample :
  exists av,
    pull_run av_pull_opened pull_to_the_end = Some av /\
    is_Some (subtitle_stream av) /\
    subtitle_eof av = 0 /\
    _av_ffmpeg_eof av = 1 /\
    ~ opened_streams_done av.
Proof.
  eexists. split; [vm_compute; reflexivity|].
  split; [by eexists|]. split; [reflexivity|]. split; [reflexivity|].
  intros [_ Hsub]. apply Hsub; [by eexists|reflexivity].
Qed.

(** ** Further properties of the queue on concrete states *)

(** Goals about a concrete list of packets or cells. *)
Ltac packets_ok :=
  repeat (apply Forall_cons; split;
          [unfold packet_ok, INT_MAX; simpl; lia|]);
  apply Forall_nil_2.

Ltac not_in_cells H :=
  repeat (apply elem_of_cons in H as [H|H]; [discriminate|]);
  by apply elem_of_nil in H.

Ltac cells_differ :=
  repeat (apply NoDup_cons; split;
          [let H := fresh in intros H; not_in_cells H|]);
  apply NoDup_nil_2.

Lemma av_queued_inv :
  queues_inv sizeof_item_example av_queued av_queued_addrs av_queued_pkts.
Proof.
  split.
  - intros []; split.
    + reflexivity.
    + reflexivity.
    + by vm_compute.
    + vm_compute. split; [done|]. eexists. split; [done|].
      split; [done|]. eexists. by split.
    + intros a [= <-]. reflexivity.
    + cells_differ.
    + packets_ok.
    + by left.
    + reflexivity.
    + reflexivity.
    + by vm_compute.
    + vm_compute. split; [done|]. eexists. by split.
    + intros a [= <-]. reflexivity.
    + cells_differ.
    + packets_ok.
    + by left.
  - intros a Hv Ha. apply list_elem_of_singleton in Ha as ->. not_in_cells Hv.
Qed.

Lemma av_video_full_inv :
  queues_inv sizeof_item_example av_video_full
    av_video_full_addrs av_video_full_pkts.
Proof.
  split.
  - intros []; split.
    + reflexivity.
    + reflexivity.
    + by vm_compute.
    + vm_compute. split; [done|]. eexists. by split.
    + intros a [= <-]. reflexivity.
    + cells_differ.
    + packets_ok.
    + by left.
    + reflexivity.
    + reflexivity.
    + by vm_compute.
    + exact I.
    + intros a [=].
    + cells_differ.
    + packets_ok.
    + by left.
  - intros a Hv Ha. by apply elem_of_nil in Ha.
Qed.

Lemma queue_counters_match_contents_witness :
  exists av P,
    queue_run sizeof_item_example malloc_example
      (_packet_queue_init (_packet_queue_init av_zeroed VideoQ) AudioQ)
      queue_calls = Some av /\
    forall i,
      q_length (get_queue av i) = Z.of_nat (length (P i)) /\
      q_size (get_queue av i) = queue_bytes sizeof_item_example (P i) /\
      0 <= q_size (get_queue av i) <= MAX_QUEUE_SIZE /\
      exists av', read_all sizeof_item_example av i (length (P i)) = Some (P i, av').
Proof.
  apply (queue_counters_match_contents sizeof_item_example
           sizeof_item_example_bounds malloc_example malloc_example_unused
           av_zeroed queue_calls).
  unfold queue_calls. repeat (apply Forall_cons; split; [try exact I; unfold plain_op, packet_ok, INT_MAX; simpl; lia|]).
  apply Forall_nil_2.
Defined.

Lemma end_of_stream_follows_queued_packets_witness :
  exists av1 av2,
    _packet_queue_write sizeof_item_example malloc_example av_queued VideoQ None
    = Ret 0 av1 /\
    read_all sizeof_item_example av1 VideoQ (length (av_queued_pkts VideoQ))
    = Some (av_queued_pkts VideoQ, av2) /\
    _packet_queue_read sizeof_item_example av2 VideoQ = Ret (-1, None) av2.
Proof.
  apply (end_of_stream_follows_queued_packets sizeof_item_example
           sizeof_item_example_bounds malloc_example
           av_queued VideoQ av_queued_addrs av_queued_pkts av_queued_inv).
  - reflexivity.
  - reflexivity.
Defined.

Lemma abort_keeps_queued_packets_witness :
  exists av2,
    read_all sizeof_item_example (_packet_queue_abort av_queued VideoQ) VideoQ
      (length (av_queued_pkts VideoQ))
    = Some (av_queued_pkts VideoQ, av2) /\
    _packet_queue_read sizeof_item_example av2 VideoQ = Ret (-2, None) av2.
Proof.
  apply (abort_keeps_queued_packets sizeof_item_example
           sizeof_item_example_bounds
           av_queued VideoQ av_queued_addrs av_queued_pkts av_queued_inv).
  reflexivity.
Defined.

Lemma abort_is_final_witness :
  q_abort (get_queue av_aborted VideoQ) = 1 /\
  forall pk,
    _packet_queue_write sizeof_item_example malloc_example av_aborted VideoQ
      (Some pk)
    = Ret (-2) (log_unref (set_input_stall av_aborted 0) pk).
Proof.
  apply (abort_is_final sizeof_item_example malloc_example av_queued VideoQ
           [OpRead VideoQ; OpWrite VideoQ None; OpFlush AudioQ] av_aborted).
  by vm_compute.
Defined.

Lemma queues_do_not_interfere_witness :
  exists av1,
    write_all sizeof_item_example malloc_example av_queued VideoQ [packet_c]
    = Some av1 /\
    (exists av2,
       read_all sizeof_item_example av1 VideoQ
         (length (av_queued_pkts VideoQ ++ [packet_c]))
       = Some (av_queued_pkts VideoQ ++ [packet_c], av2)) /\
    (forall j, j <> VideoQ ->
       exists av2,
         read_all sizeof_item_example av1 j (length (av_queued_pkts j))
         = Some (av_queued_pkts j, av2)).
Proof.
  apply (queues_do_not_interfere sizeof_item_example sizeof_item_example_bounds
           malloc_example malloc_example_unused
           av_queued VideoQ [packet_c] av_queued_addrs av_queued_pkts
           av_queued_inv).
  - reflexivity.
  - packets_ok.
  - by vm_compute.
Defined.

Lemma stalled_write_resumes_after_read_witness :
  exists av1 av2 av3 av4,
    _packet_queue_write sizeof_item_example malloc_example av_video_full VideoQ
      (Some packet_more) = Wait av1 /\
    input_stall av1 = 1 /\
    _packet_queue_read sizeof_item_example av1 VideoQ
    = Ret (0, Some packet_big) av2 /\
    _packet_queue_write sizeof_item_example malloc_example av2 VideoQ
      (Some packet_more) = Ret 0 av3 /\
    input_stall av3 = 0 /\
    read_all sizeof_item_example av3 VideoQ (length ([] ++ [packet_more]))
    = Some ([] ++ [packet_more], av4).
Proof.
  apply (stalled_write_resumes_after_read sizeof_item_example
           sizeof_item_example_bounds malloc_example malloc_example_unused
           av_video_full VideoQ packet_big [] packet_more
           av_video_full_addrs av_video_full_pkts av_video_full_inv).
  - reflexivity.
  - reflexivity.
  - unfold packet_ok, INT_MAX; simpl; lia.
  - by vm_compute.
  - by vm_compute.
Defined.

Lemma flush_releases_every_packet_witness :
  exists av',
    _packet_queue_flush av_queued VideoQ = Ret 0 av' /\
    unreffed av' = unreffed av_queued ++ av_queued_pkts VideoQ /\
    (forall a, a ∈ av_queued_addrs VideoQ -> heap av' !! a = None) /\
    (forall a, a ∉ av_queued_addrs VideoQ -> heap av' !! a = heap av_queued !! a) /\
    (forall j, j <> VideoQ -> get_queue av' j = get_queue av_queued j).
Proof.
  apply (flush_releases_every_packet sizeof_item_example
           sizeof_item_example_bounds
           av_queued VideoQ av_queued_addrs av_queued_pkts av_queued_inv).
Defined.

(** ** Further properties of the double buffer *)

Lemma dbuffer_run_cons d op rest :
  dbuffer_run d (op :: rest)
  = ((dbuffer_run (dbuffer_step d op).1 rest).1,
     (((dbuffer_step d op).2.1 + (dbuffer_run (dbuffer_step d op).1 rest).2.1)%nat,
      ((dbuffer_step d op).2.2 + (dbuffer_run (dbuffer_step d op).1 rest).2.2)%nat)).
Proof.
  cbn [dbuffer_run].
  destruct (dbuffer_step d op) as [d1 [p1 t1]]. cbn [fst snd].
  by destruct (dbuffer_run d1 rest) as [d2 [p2 t2]].
Qed.

(** One call, abort apart, keeps the abort flag clear and the ready
    flag 0 or 1, and raises the ready flag by the publishes less the
    takes it completed. *)
Lemma dbuffer_step_slot d op :
  not_abort op -> d_abort d = 0 -> d_ready d = 0 \/ d_ready d = 1 ->
  let r := dbuffer_step d op in
  d_abort r.1 = 0 /\
  (d_ready r.1 = 0 \/ d_ready r.1 = 1) /\
  d_ready r.1 + Z.of_nat r.2.2 = d_ready d + Z.of_nat r.2.1.
Proof.
  intros Hop Hab Hr.
  destruct op as [|rp| |]; [| | |done]; cbn [dbuffer_step];
    unfold _frame_dbuffer_back_buffer, _frame_dbuffer_ready,
      _frame_dbuffer_flip, dbuffer_busy;
    rewrite Hab; destruct Hr as [Hr|Hr]; rewrite Hr; simpl;
    try (split; [done|]; split; [auto|lia]).
  destruct (d_repeat d =? 0); simpl; (split; [done|]; split; [auto|lia]).
Qed.

(** The buffer holds at most one frame.  In any sequence of calls on an
    initialised buffer that has no abort in it, the producer is never
    more than one publish ahead of the consumer, and the consumer never
    takes a frame that was not published: the completed publishes are
    the completed takes plus the ready flag, which is 0 or 1. *)
Theorem dbuffer_holds_one_frame f0 f1 ops :
  Forall not_abort ops ->
  let r := dbuffer_run (_frame_dbuffer_init f0 f1) ops in
  (d_ready r.1 = 0 \/ d_ready r.1 = 1) /\
  Z.of_nat r.2.1 = Z.of_nat r.2.2 + d_ready r.1.
Proof.
  intros Hops.
  assert (Hgen : forall d, d_abort d = 0 -> d_ready d = 0 \/ d_ready d = 1 ->
            let r := dbuffer_run d ops in
            (d_ready r.1 = 0 \/ d_ready r.1 = 1) /\
            d_ready r.1 + Z.of_nat r.2.2 = d_ready d + Z.of_nat r.2.1).
  { induction Hops as [|op ops Hop Hops IH]; intros d Hab Hr.
    - simpl. split; [done|lia].
    - rewrite dbuffer_run_cons. cbv zeta. cbn [fst snd].
      destruct (dbuffer_step_slot d op Hop Hab Hr) as (Hab1 & Hr1 & Hc1).
      destruct (IH _ Hab1 Hr1) as (Hr2 & Hc2).
      split; [done|]. lia. }
  destruct (Hgen (_frame_dbuffer_init f0 f1)) as [Hr Hc]; [done|by left|].
  split; [done|]. simpl in Hc. lia.
Qed.

(** No call clears the abort flag. *)
Lemma dbuffer_step_abort d op :
  d_abort d = 1 -> d_abort (dbuffer_step d op).1 = 1.
Proof.
  intros Hab. destruct op as [|rp| |]; cbn [dbuffer_step]; [| | |done];
    unfold _frame_dbuffer_back_buffer, _frame_dbuffer_ready,
      _frame_dbuffer_flip, dbuffer_busy;
    rewrite Hab, !andb_false_r; done.
Qed.

(** Abort is final.  After [_frame_dbuffer_abort], whatever calls
    follow, the abort flag stays up, a take returns NULL at once and
    changes nothing, and the producer's calls return at once: no thread
    is left waiting on the buffer. *)
Theorem dbuffer_abort_is_final d ops :
  let d' := (dbuffer_run (_frame_dbuffer_abort d) ops).1 in
  d_abort d' = 1 /\
  _frame_dbuffer_flip d' = Ret None d' /\
  _frame_dbuffer_back_buffer d' = Ret (d_frame_1 d') d' /\
  forall r, exists d'', _frame_dbuffer_ready d' r = Ret tt d''.
Proof.
  assert (Hgen : forall d0, d_abort d0 = 1 -> d_abort (dbuffer_run d0 ops).1 = 1).
  { induction ops as [|op ops IH]; intros d0 Hab; [done|].
    rewrite dbuffer_run_cons. cbn [fst]. apply IH. by apply dbuffer_step_abort. }
  intros d'. assert (Hab : d_abort d' = 1) by (by apply Hgen).
  split; [done|].
  unfold _frame_dbuffer_flip, _frame_dbuffer_back_buffer, _frame_dbuffer_ready,
    dbuffer_busy.
  rewrite Hab, !andb_false_r. simpl.
  split; [done|]. split; [done|]. intros r. by eexists.
Qed.

(** The hand-over.  On a buffer that is free, the producer gets the
    back slot, fills it and publishes with [repeat = 0]; the next take
    returns that very frame, as the producer filled it; the producer's
    next back slot is the former front slot, so that what it writes
    next leaves the frame the consumer holds as it is. *)
Theorem dbuffer_hands_over_back_slot {F : Type} (d : _frame_dbuffer_t)
    (mem : gmap loc F) (c c' : F) :
  d_ready d = 0 -> d_abort d = 0 -> d_frame_0 d <> d_frame_1 d ->
  exists d1 d2,
    _frame_dbuffer_back_buffer d = Ret (d_frame_1 d) d /\
    _frame_dbuffer_ready d 0 = Ret tt d1 /\
    _frame_dbuffer_flip d1 = Ret (Some (d_frame_1 d)) d2 /\
    write_back mem d c !! d_frame_1 d = Some c /\
    _frame_dbuffer_back_buffer d2 = Ret (d_frame_0 d) d2 /\
    write_back (write_back mem d c) d2 c' !! d_frame_1 d = Some c.
Proof.
  intros Hr Hab Hne.
  exists (mkDbuffer 1 0 0 (d_frame_0 d) (d_frame_1 d)),
         (mkDbuffer 0 0 0 (d_frame_1 d) (d_frame_0 d)).
  unfold _frame_dbuffer_back_buffer, _frame_dbuffer_ready, _frame_dbuffer_flip,
    dbuffer_busy, write_back.
  rewrite Hr, Hab. simpl.
  split; [done|]. split; [done|]. split; [done|].
  split; [by rewrite lookup_insert_eq|]. split; [done|].
  rewrite lookup_insert_ne by done. by rewrite lookup_insert_eq.
Qed.

(** The two slots stay the two frames allocated at initialisation:
    whatever calls are made, the front and back pointers are these two
    frames, in one order or the other. *)
Theorem dbuffer_slots_are_the_two_frames f0 f1 ops :
  let d := (dbuffer_run (_frame_dbuffer_init f0 f1) ops).1 in
  slots d = (f0, f1) \/ slots d = (f1, f0).
Proof.
  assert (Hstep : forall d op,
            slots d = (f0, f1) \/ slots d = (f1, f0) ->
            slots (dbuffer_step d op).1 = (f0, f1)
            \/ slots (dbuffer_step d op).1 = (f1, f0)).
  { intros d op Hs. destruct op as [|rp| |]; cbn [dbuffer_step];
      unfold _frame_dbuffer_back_buffer, _frame_dbuffer_ready,
        _frame_dbuffer_flip, dbuffer_busy, slots in *.
    - by destruct (_ && _).
    - by destruct (_ && _).
    - destruct (_ && _); [done|]. destruct (negb _); [done|].
      destruct (d_repeat d =? 0); simpl; [|done].
      destruct Hs as [[= -> ->]|[= -> ->]]; auto.
    - done. }
  assert (Hgen : forall d, slots d = (f0, f1) \/ slots d = (f1, f0) ->
            slots (dbuffer_run d ops).1 = (f0, f1)
            \/ slots (dbuffer_run d ops).1 = (f1, f0)).
  { induction ops as [|op ops IH]; intros d Hs; [done|].
    rewrite dbuffer_run_cons. cbn [fst]. apply IH. by apply Hstep. }
  intros d. apply Hgen. by left.
Qed.

Lemma dbuffer_holds_one_frame_witness :
  let r := dbuffer_run (_frame_dbuffer_init 1 2)
             [DbFlip; DbBackBuffer; DbReady 0; DbReady 1; DbBackBuffer; DbFlip;
              DbReady 1; DbFlip; DbFlip; DbReady 0] in
  (d_ready r.1 = 0 \/ d_ready r.1 = 1) /\
  Z.of_nat r.2.1 = Z.of_nat r.2.2 + d_ready r.1.
Proof.
  apply (dbuffer_holds_one_frame 1 2).
  repeat (apply Forall_cons; split; [exact I|]). apply Forall_nil_2.
Defined.

Lemma dbuffer_hands_over_back_slot_witness :
  exists d1 d2,
    _frame_dbuffer_back_buffer dbuffer_taken = Ret (d_frame_1 dbuffer_taken) dbuffer_taken /\
    _frame_dbuffer_ready dbuffer_taken 0 = Ret tt d1 /\
    _frame_dbuffer_flip d1 = Ret (Some (d_frame_1 dbuffer_taken)) d2 /\
    write_back (<[2%positive := 20]> (<[1%positive := 10]> ∅) : gmap loc Z)
      dbuffer_taken 30 !! d_frame_1 dbuffer_taken = Some 30 /\
    _frame_dbuffer_back_buffer d2 = Ret (d_frame_0 dbuffer_taken) d2 /\
    write_back
      (write_back (<[2%positive := 20]> (<[1%positive := 10]> ∅) : gmap loc Z)
         dbuffer_taken 30) d2 40 !! d_frame_1 dbuffer_taken = Some 30.
Proof.
  apply (dbuffer_hands_over_back_slot dbuffer_taken
           (<[2%positive := 20]> (<[1%positive := 10]> ∅)) 30 40).
  - reflexivity.
  - reflexivity.
  - by vm_compute.
Defined.

(** ** Further properties of the pull API *)

(** The key handling of [_av_ffmpeg_read_video] for a key other than
    the space bar: the state with which the call goes on. *)
Lemma read_video_fault_cases av kb now :
  kb <> KbChar 32 ->
  _av_ffmpeg_read_video av kb now = Fault ->
  is_Some (video_stream av) /\ paused av = 0 /\
  d_abort (out_video_buffer av) <> 0 /\
  to_int64 (now - last_paused av) < 5.
Proof.
  intros Hkb. unfold _av_ffmpeg_read_video.
  destruct (video_stream av) as [v|]; [|discriminate].
  replace (match kb with
           | KbChar 32 => set_paused av (Z.lxor (paused av) 1 mod 256)
           | _ => av
           end) with av.
  2:{ destruct kb as [|c|c]; try done.
      destruct (decide (c = 32)) as [->|Hne]; [done|].
      by repeat case_match. }
  set (nav := match kb with
              | KbEscape 67 => AVSEEK_FWD
              | KbEscape 68 => AVSEEK_RWD
              | _ => 0
              end). clearbody nav.
  set (av1 := if (nav =? AVSEEK_FWD) || (nav =? AVSEEK_RWD)
              then add_start_times av nav else av).
  assert (Hp : paused av1 = paused av) by (subst av1; by destruct (_ || _)).
  assert (Hl : last_paused av1 = last_paused av) by (subst av1; by destruct (_ || _)).
  assert (Hb : out_video_buffer av1 = out_video_buffer av)
    by (subst av1; by destruct (_ || _)).
  clearbody av1. rewrite Hp, Hb.
  destruct (Z.eqb_spec (paused av) 0) as [Hp0|Hpn]; [|discriminate].
  cbn [negb].
  unfold _frame_dbuffer_flip.
  destruct (_ && _); [discriminate|].
  destruct (Z.eqb_spec (d_abort (out_video_buffer av)) 0) as [Ha|Ha]; cbn [negb].
  - cbv zeta. destruct (_ <? 5); discriminate.
  - cbv zeta. replace (last_paused (set_out_video_buffer av1 _)) with (last_paused av)
      by (by rewrite <- Hl).
    destruct (Z.ltb_spec (to_int64 (now - last_paused av)) 5); [|discriminate].
    intros _. split; [by eexists|]. done.
Qed.

(** A pull that meets the end of the video less than 5 seconds after a
    pause dereferences NULL.  For any key other than the space bar,
    [_av_ffmpeg_read_video] faults exactly when a video stream is open,
    the pipeline is not paused, the outbound buffer was aborted (by the
    video worker at the end of the stream, or by close) and the last
    pause lies less than 5 seconds back: the play icon is drawn through
    [frame->data[0]] before [frame] is tested against NULL. *)
Theorem read_video_faults_at_end_after_pause av kb now :
  kb <> KbChar 32 ->
  (_av_ffmpeg_read_video av kb now = Fault
   <-> (is_Some (video_stream av) /\ paused av = 0 /\
        d_abort (out_video_buffer av) <> 0 /\
        to_int64 (now - last_paused av) < 5)).
Proof.
  intros Hkb. split; [by apply read_video_fault_cases|].
  intros ([v Hv] & Hp & Ha & Ht).
  unfold _av_ffmpeg_read_video. rewrite Hv.
  replace (match kb with
           | KbChar 32 => set_paused av (Z.lxor (paused av) 1 mod 256)
           | _ => av
           end) with av.
  2:{ destruct kb as [|c|c]; try done.
      destruct (decide (c = 32)) as [->|Hne]; [done|].
      by repeat case_match. }
  set (nav := match kb with
              | KbEscape 67 => AVSEEK_FWD
              | KbEscape 68 => AVSEEK_RWD
              | _ => 0
              end). clearbody nav.
  set (av1 := if (nav =? AVSEEK_FWD) || (nav =? AVSEEK_RWD)
              then add_start_times av nav else av).
  assert (Hp1 : paused av1 = paused av) by (subst av1; by destruct (_ || _)).
  assert (Hl : last_paused av1 = last_paused av) by (subst av1; by destruct (_ || _)).
  assert (Hb : out_video_buffer av1 = out_video_buffer av)
    by (subst av1; by destruct (_ || _)).
  clearbody av1. rewrite Hp1, Hb, Hp. cbn [negb Z.eqb].
  unfold _frame_dbuffer_flip.
  destruct (Z.eqb_spec (d_abort (out_video_buffer av)) 0) as [?|_]; [done|].
  rewrite andb_false_r. cbn [negb]. cbv zeta.
  replace (last_paused (set_out_video_buffer av1 _)) with (last_paused av)
    by (by rewrite <- Hl).
  by destruct (Z.ltb_spec (to_int64 (now - last_paused av)) 5); [|lia].
Qed.

Lemma read_video_faults_at_end_after_pause_witness :
  _av_ffmpeg_read_video av_pull_ended KbNone 1800000003 = Fault
  <-> (is_Some (video_stream av_pull_ended) /\ paused av_pull_ended = 0 /\
       d_abort (out_video_buffer av_pull_ended) <> 0 /\
       to_int64 (1800000003 - last_paused av_pull_ended) < 5).
Proof.
  apply (read_video_faults_at_end_after_pause av_pull_ended KbNone 1800000003).
  discriminate.
Defined.

(** One quiet pull on a paused pipeline. *)
Lemma paused_pull_step av op :
  paused av <> 0 -> quiet_pull op ->
  exists av',
    pull_step av op = Some av' /\
    paused av' = paused av /\
    out_video_buffer av' = out_video_buffer av /\
    out_audio_buffer av' = out_audio_buffer av /\
    video_eof av' = video_eof av /\ audio_eof av' = audio_eof av /\
    video_stream av' = video_stream av /\ audio_stream av' = audio_stream av.
Proof.
  intros Hp Hop. destruct op as [kb now| | | | | |]; try done.
  - cbn [pull_step]. unfold _av_ffmpeg_read_video.
    destruct (video_stream av) as [v|] eqn:Hv; [|by exists av].
    replace (match kb with
             | KbChar 32 => set_paused av (Z.lxor (paused av) 1 mod 256)
             | _ => av
             end) with av.
    2:{ destruct kb as [|c|c]; try done.
        destruct (decide (c = 32)) as [->|Hne]; [done|].
        by repeat case_match. }
    set (nav := match kb with
                | KbEscape 67 => AVSEEK_FWD
                | KbEscape 68 => AVSEEK_RWD
                | _ => 0
                end). clearbody nav.
    set (av1 := if (nav =? AVSEEK_FWD) || (nav =? AVSEEK_RWD)
                then add_start_times av nav else av).
    assert (H1 : paused av1 = paused av /\
                 out_video_buffer av1 = out_video_buffer av /\
                 out_audio_buffer av1 = out_audio_buffer av /\
                 video_eof av1 = video_eof av /\ audio_eof av1 = audio_eof av /\
                 video_stream av1 = video_stream av /\
                 audio_stream av1 = audio_stream av)
      by (subst av1; by destruct (_ || _)).
    clearbody av1. destruct H1 as (Hp1 & H1).
    rewrite Hp1. destruct (Z.eqb_spec (paused av) 0) as [?|_]; [done|].
    cbn [negb read_video_finish left_by].
    eexists. split; [done|]. by rewrite <- Hv in *.
  - cbn [pull_step]. unfold _av_ffmpeg_read_audio.
    destruct (audio_stream av) eqn:Has; [|by exists av].
    destruct (Z.eqb_spec (paused av) 0) as [?|_]; [done|]. by exists av.
  - by exists av.
Qed.

(** Pause freezes the pull side.  While the pipeline is paused, any
    number of pulls of video and audio and of end-of-file tests, with
    any key but the space bar, return without waiting and leave both
    outbound buffers untouched, so that the workers stay blocked behind
    them; no EOF flag changes, and so [_av_ffmpeg_eof] keeps its value;
    after them a video pull returns the front frame as before and an
    audio pull returns NULL. *)
Theorem pause_freezes_the_pull_side av ops :
  paused av <> 0 -> Forall quiet_pull ops ->
  exists av',
    pull_run av ops = Some av' /\
    paused av' = paused av /\
    out_video_buffer av' = out_video_buffer av /\
    out_audio_buffer av' = out_audio_buffer av /\
    _av_ffmpeg_eof av' = _av_ffmpeg_eof av /\
    (is_Some (video_stream av) ->
     forall now,
       _av_ffmpeg_read_video av' KbNone now
       = Ret (Some (d_frame_0 (out_video_buffer av))) (set_last_paused av' now)) /\
    _av_ffmpeg_read_audio av' = Ret None av'.
Proof.
  intros Hp Hops.
  assert (Hgen : exists av',
            pull_run av ops = Some av' /\
            paused av' = paused av /\
            out_video_buffer av' = out_video_buffer av /\
            out_audio_buffer av' = out_audio_buffer av /\
            video_eof av' = video_eof av /\ audio_eof av' = audio_eof av /\
            video_stream av' = video_stream av /\
            audio_stream av' = audio_stream av).
  { revert av Hp. induction Hops as [|op ops Hop Hops IH]; intros av Hp.
    - by exists av.
    - destruct (paused_pull_step av op Hp Hop)
        as (av1 & Hs & Hp1 & Hv1 & Ha1 & Hve1 & Hae1 & Hvs1 & Has1).
      destruct (IH av1) as (av' & Hr & Hp' & Hv' & Ha' & Hve' & Hae' & Hvs' & Has').
      { by rewrite Hp1. }
      exists av'. cbn [pull_run]. rewrite Hs.
      split; [done|]. repeat split; congruence. }
  destruct Hgen as (av' & Hr & Hp' & Hv' & Ha' & Hve' & Hae' & Hvs' & Has').
  exists av'. split; [done|]. split; [done|]. split; [done|]. split; [done|].
  split; [|split].
  - unfold _av_ffmpeg_eof. by rewrite Hve', Hae', Hvs', Has'.
  - intros [v Hv] now. unfold _av_ffmpeg_read_video.
    rewrite Hvs', Hv. simpl. rewrite Hp'.
    destruct (Z.eqb_spec (paused av) 0) as [?|_]; [done|]. simpl.
    by rewrite Hv'.
  - unfold _av_ffmpeg_read_audio. rewrite Hp'.
    destruct (audio_stream av'); [|done].
    by destruct (Z.eqb_spec (paused av) 0) as [?|_].
Qed.

Lemma pause_freezes_the_pull_side_witness :
  exists av',
    pull_run av_pull_paused
      [PullAudio; PullVideo KbNone 1800000001; PullEof;
       PullVideo (KbEscape 67) 1800000002; PullAudio] = Some av' /\
    paused av' = paused av_pull_paused /\
    out_video_buffer av' = out_video_buffer av_pull_paused /\
    out_audio_buffer av' = out_audio_buffer av_pull_paused /\
    _av_ffmpeg_eof av' = _av_ffmpeg_eof av_pull_paused /\
    (is_Some (video_stream av_pull_paused) ->
     forall now,
       _av_ffmpeg_read_video av' KbNone now
       = Ret (Some (d_frame_0 (out_video_buffer av_pull_paused)))
           (set_last_paused av' now)) /\
    _av_ffmpeg_read_audio av' = Ret None av'.
Proof.
  apply (pause_freezes_the_pull_side av_pull_paused).
  - by vm_compute.
  - repeat (apply Forall_cons; split; [exact I|]). apply Forall_nil_2.
Defined.

(** A take leaves the abort flag as it is, and returns NULL only when
    it is up. *)
Lemma flip_keeps_abort d0 :
  match _frame_dbuffer_flip d0 with
  | Ret (Some _) d => d_abort d = d_abort d0
  | Ret None d => d = d0 /\ d_abort d0 <> 0
  | Wait d => d = d0
  | Fault => False
  end.
Proof.
  unfold _frame_dbuffer_flip.
  destruct (_ && _); [done|].
  destruct (Z.eqb_spec (d_abort d0) 0) as [H0|Hn0]; simpl; [|done].
  by destruct (d_repeat d0 =? 0).
Qed.

(** No step raises an EOF flag over a buffer that was not aborted. *)
Lemma pull_step_eof_after_abort av op av' :
  pull_step av op = Some av' -> eof_after_abort av -> eof_after_abort av'.
Proof.
  destruct op as [kb now| | |r|r| |]; cbn [pull_step].
  - (* video pull *)
    unfold _av_ffmpeg_read_video.
    destruct (video_stream av) eqn:Hv; [|by intros [= <-]].
    set (av1 := match kb with
                | KbChar 32 => set_paused av (Z.lxor (paused av) 1 mod 256)
                | _ => av
                end).
    assert (H1 : eof_after_abort av -> eof_after_abort av1).
    { subst av1. destruct kb as [|c|c]; try done.
      destruct (decide (c = 32)) as [->|Hne]; [done|].
      by repeat case_match. }
    clearbody av1.
    set (nav := match kb with
                | KbEscape 67 => AVSEEK_FWD
                | KbEscape 68 => AVSEEK_RWD
                | _ => 0
                end). clearbody nav.
    set (av2 := if (nav =? AVSEEK_FWD) || (nav =? AVSEEK_RWD)
                then add_start_times av1 nav else av1).
    assert (H2 : eof_after_abort av1 -> eof_after_abort av2)
      by (subst av2; by destruct (_ || _)).
    clearbody av2.
    destruct (negb (paused av2 =? 0)).
    { intros [= <-] Hinv. by apply H2, H1. }
    pose proof (flip_keeps_abort (out_video_buffer av2)) as Hflip.
    destruct (_frame_dbuffer_flip (out_video_buffer av2)) as [[f|] d|d|];
      cbv zeta; [| | |done].
    + assert (Hgo : left_by (read_video_finish (set_out_video_buffer av2 d) (Some f))
                    = Some av' -> eof_after_abort av -> eof_after_abort av').
      { intros [= <-] Hinv. destruct (H2 (H1 Hinv)) as [Hve Hae].
        split; [|done]. simpl. rewrite Hflip. exact Hve. }
      by destruct (_ <? 5).
    + destruct (_ <? 5); [done|].
      intros [= <-] Hinv. destruct (H2 (H1 Hinv)) as [Hve Hae].
      destruct Hflip as [-> Hab]. split; [|done]. by intros _.
    + intros [= <-] Hinv. destruct (H2 (H1 Hinv)) as [Hve Hae].
      subst d. by split.
  - (* audio pull *)
    unfold _av_ffmpeg_read_audio.
    destruct (audio_stream av); [|by intros [= <-]].
    destruct (negb (paused av =? 0)); [by intros [= <-]|].
    pose proof (flip_keeps_abort (out_audio_buffer av)) as Hflip.
    destruct (_frame_dbuffer_flip (out_audio_buffer av)) as [[f|] d|d|];
      [| | |done]; intros [= <-] [Hve Hae].
    + split; [done|]. simpl. by rewrite Hflip.
    + destruct Hflip as [-> Hab]. split; [done|]. by intros _.
    + subst d. by split.
  - by intros [= <-].
  - unfold _frame_dbuffer_ready.
    destruct (dbuffer_busy _); intros [= <-] [Hve Hae]; by split.
  - unfold _frame_dbuffer_ready.
    destruct (dbuffer_busy _); intros [= <-] [Hve Hae]; by split.
  - intros [= <-] [Hve Hae]. by split.
  - intros [= <-] [Hve Hae]. by split.
Qed.

(** End of file is reported only after the workers have ended.
    Starting with both EOF flags down, after any sequence of pulls,
    key presses, publishes and aborts, an EOF flag is up only if the
    outbound buffer of its stream was aborted, by the post-process
    worker when its input ended or by close; so [_av_ffmpeg_eof]
    returns 1 only when the outbound buffer of every opened video and
    audio stream was aborted. *)
Theorem eof_only_after_workers_end av ops av' :
  video_eof av = 0 -> audio_eof av = 0 ->
  pull_run av ops = Some av' ->
  eof_after_abort av' /\
  (_av_ffmpeg_eof av' = 1 ->
   (is_Some (video_stream av') -> d_abort (out_video_buffer av') <> 0) /\
   (is_Some (audio_stream av') -> d_abort (out_audio_buffer av') <> 0)).
Proof.
  intros Hv Ha Hrun.
  assert (Hinv : eof_after_abort av') .
  { assert (H0 : eof_after_abort av) by (by split; intros ?).
    clear Hv Ha. revert av H0 Hrun.
    induction ops as [|op ops IH]; intros av H0; cbn [pull_run].
    - by intros [= <-].
    - destruct (pull_step av op) as [av1|] eqn:Hs; [|done].
      intros Hrun. apply (IH av1); [|done].
      by eapply pull_step_eof_after_abort. }
  split; [done|].
  intros Heof. apply _av_ffmpeg_eof_spec in Heof as [Hvd Had].
  destruct Hinv as [Hve Hae]. split; auto.
Qed.

Lemma eof_only_after_workers_end_witness :
  eof_after_abort av_pull_pulled /\
  (_av_ffmpeg_eof av_pull_pulled = 1 ->
   (is_Some (video_stream av_pull_pulled) ->
    d_abort (out_video_buffer av_pull_pulled) <> 0) /\
   (is_Some (audio_stream av_pull_pulled) ->
    d_abort (out_audio_buffer av_pull_pulled) <> 0)).
Proof.
  apply (eof_only_after_workers_end av_pull_opened pull_ops_example
           av_pull_pulled).
  - reflexivity.
  - reflexivity.
  - by vm_compute.
Defined.

(** ** The seek keys and the workers' clocks *)

(** The arrow keys move both clocks by [AVSEEK_FWD] or [AVSEEK_RWD]
    ticks, whatever the call does after that. *)
Lemma read_video_seek av c now av' :
  is_Some (video_stream av) ->
  left_by (_av_ffmpeg_read_video av (KbEscape c) now) = Some av' ->
  let nav := if c =? 67 then 60 else if c =? 68 then -60 else 0 in
  pull_video_start_time av'
  = (if nav =? 0 then pull_video_start_time av
     else to_int64 (pull_video_start_time av + nav)) /\
  pull_audio_start_time av'
  = (if nav =? 0 then pull_audio_start_time av
     else to_int64 (pull_audio_start_time av + nav)).
Proof.
  intros [v Hv]. unfold _av_ffmpeg_read_video. rewrite Hv.
  set (k := match KbEscape c with
            | KbEscape 67 => AVSEEK_FWD
            | KbEscape 68 => AVSEEK_RWD
            | _ => 0
            end).
  assert (Hk : k = if c =? 67 then 60 else if c =? 68 then -60 else 0).
  { subst k. destruct (decide (c = 67)) as [->|H67]; [done|].
    destruct (decide (c = 68)) as [->|H68]; [done|].
    destruct (Z.eqb_spec c 67); [done|]. destruct (Z.eqb_spec c 68); [done|].
    by repeat case_match. }
  clearbody k. cbv zeta. rewrite <- Hk.
  set (av1 := if (k =? AVSEEK_FWD) || (k =? AVSEEK_RWD)
              then add_start_times av k else av).
  assert (H1 : pull_video_start_time av1
               = (if k =? 0 then pull_video_start_time av
                  else to_int64 (pull_video_start_time av + k)) /\
               pull_audio_start_time av1
               = (if k =? 0 then pull_audio_start_time av
                  else to_int64 (pull_audio_start_time av + k))).
  { subst av1. rewrite Hk.
    destruct (c =? 67); [done|]. by destruct (c =? 68). }
  clearbody av1. destruct H1 as [<- <-].
  destruct (negb (paused av1 =? 0)); [by intros [= <-]|].
  destruct (_frame_dbuffer_flip (out_video_buffer av1)) as [[f|] d|d|];
    cbv zeta; try discriminate.
  - destruct (_ <? 5); by intros [= <-].
  - destruct (_ <? 5); [discriminate|]. by intros [= <-].
  - by intros [= <-].
Qed.

Section SeekFacts.

Variable av_rescale_q : Z -> AVRational -> AVRational -> Z.

(** What the arrow keys do to the picture.  The key moves
    [video_start_time] by 60 ticks of the output clock.  For the frame
    the video worker handles next, stamped [p] ticks at or after the
    clock as it stood: after the left arrow the frame is shown behind
    60 more repeats of the previous picture than without the key
    (given that the divisions of its hooks are defined), so the
    picture freezes for 60 output frames and nothing is played again;
    after the right arrow the frame is dropped if it lies less than 60
    ticks ahead, so the next 60 ticks of video are skipped. *)
Theorem seek_keys_freeze_or_skip_video (vc : video_ctx) (av av_l av_r : av_pull)
    (now_l now_r : Z) (frame : AVFrame) (text : bool) :
  is_Some (video_stream av) ->
  left_by (_av_ffmpeg_read_video av (KbEscape 68) now_l) = Some av_l ->
  left_by (_av_ffmpeg_read_video av (KbEscape 67) now_r) = Some av_r ->
  best_effort_timestamp frame <> AV_NOPTS_VALUE ->
  let clock := pull_video_start_time av in
  let p := av_rescale_q (best_effort_timestamp frame)
             (video_stream_time_base vc) (video_time_base vc) in
  - 2 ^ 61 <= clock <= 2 ^ 61 -> clock <= p <= 2 ^ 61 ->
  (pull_video_start_time av_l = clock - 60 /\
   (video_hooks_defined vc frame text = true ->
    exists vc' t,
      video_scaler_frame av_rescale_q frame text (with_video_clock vc av_l)
      = (Some tt, vc', t) /\
      video_start_time vc' = p + 1 /\
      video_settings vc' = video_settings vc /\
      video_publishes t = replicate (Z.to_nat (p - clock + 60)) 1 ++ [0] /\
      video_scales t = [frame]))
  /\
  (pull_video_start_time av_r = clock + 60 /\
   (p < clock + 60 ->
    video_scaler_frame av_rescale_q frame text (with_video_clock vc av_r)
    = (Some tt, with_video_clock vc av_r, [VUnref]))).
Proof.
  intros Hv Hrun_l Hrun_r Hpts clock p Hclock Hp.
  destruct (read_video_seek av 68 now_l av_l Hv Hrun_l) as [Hvl _].
  destruct (read_video_seek av 67 now_r av_r Hv Hrun_r) as [Hvr _].
  fold clock in Hvl, Hvr. simpl in Hvl, Hvr.
  rewrite (to_int64_id (clock + -60)) in Hvl by range.
  rewrite (to_int64_id (clock + 60)) in Hvr by range.
  assert (Hstb : forall x, video_stream_time_base (set_video_start_time vc x)
                           = video_stream_time_base vc) by (by destruct vc).
  assert (Htb : forall x, video_time_base (set_video_start_time vc x)
                          = video_time_base vc) by (by destruct vc).
  split.
  - split; [lia|]. intros Hhooks.
    destruct (video_scaler_frame_spec av_rescale_q frame text
                (with_video_clock vc av_l) Hpts) as [_ Hgo].
    unfold with_video_clock in *.
    rewrite Hstb, Htb, video_start_time_set, Hvl in Hgo. fold p in Hgo.
    rewrite to_int64_id in Hgo by range.
    rewrite Hvl.
    destruct Hgo as (t & Hrun' & Hpub & Hsc & _);
      [lia|range|range|by rewrite video_hooks_defined_set|].
    eexists _, t. split; [exact Hrun'|].
    rewrite video_start_time_set, !video_settings_set, Hpub.
    split; [lia|]. split; [done|]. split; [|done].
    replace (p - (clock + -60)) with (p - clock + 60) by lia. done.
  - split; [done|]. intros Hnear.
    destruct (video_scaler_frame_spec av_rescale_q frame text
                (with_video_clock vc av_r) Hpts) as [Hskip _].
    unfold with_video_clock in *.
    rewrite Hstb, Htb, video_start_time_set, Hvr in Hskip. fold p in Hskip.
    rewrite to_int64_id in Hskip by range.
    rewrite Hvr. apply Hskip. lia.
Qed.

(** What the arrow keys do to the sound.  The key moves
    [audio_start_time] by 60 samples.  For a tolerance of 60 samples or
    more (20 ms at any rate from 3000 Hz), a frame that was on time
    before the key is still within the tolerance after it: after the
    left arrow it is fed whole, and so it is after the right arrow if
    it has more than 60 samples, with no sample left out, no silence
    injected and the clock not corrected; after the right arrow a
    frame of at most 60 samples lies wholly before the clock and is
    dropped. *)
Theorem seek_keys_shift_audio_within_tolerance (ac : audio_ctx)
    (av av_l av_r : av_pull) (now_l now_r : Z) (frame : AVFrame) :
  is_Some (video_stream av) ->
  left_by (_av_ffmpeg_read_video av (KbEscape 68) now_l) = Some av_l ->
  left_by (_av_ffmpeg_read_video av (KbEscape 67) now_r) = Some av_r ->
  best_effort_timestamp frame <> AV_NOPTS_VALUE ->
  let clock := pull_audio_start_time av in
  av_rescale_q (best_effort_timestamp frame)
    (audio_stream_time_base ac) (audio_time_base ac) = clock ->
  - 2 ^ 61 <= clock <= 2 ^ 61 ->
  60 <= allowed_error ac <= INT_MAX ->
  0 <= nb_samples frame <= INT_MAX ->
  (audio_start_time (with_audio_clock ac av_l) = clock - 60 /\
   audio_sync av_rescale_q frame (with_audio_clock ac av_l)
   = (AFeed 0, with_audio_clock ac av_l, []))
  /\
  (audio_start_time (with_audio_clock ac av_r) = clock + 60 /\
   audio_sync av_rescale_q frame (with_audio_clock ac av_r)
   = if nb_samples frame <=? 60
     then (ASkip, with_audio_clock ac av_r, [AUnref])
     else (AFeed 0, with_audio_clock ac av_r, [])).
Proof.
  intros Hv Hrun_l Hrun_r Hpts clock Hp Hclock Htol Hnb.
  destruct (read_video_seek av 68 now_l av_l Hv Hrun_l) as [_ Hal].
  destruct (read_video_seek av 67 now_r av_r Hv Hrun_r) as [_ Har].
  fold clock in Hal, Har. simpl in Hal, Har.
  rewrite (to_int64_id (clock + -60)) in Hal by range.
  rewrite (to_int64_id (clock + 60)) in Har by range.
  assert (Hstb : forall x, audio_stream_time_base (set_audio_start_time ac x)
                           = audio_stream_time_base ac) by (by destruct ac).
  assert (Htb : forall x, audio_time_base (set_audio_start_time ac x)
                          = audio_time_base ac) by (by destruct ac).
  assert (Hst : forall x, audio_start_time (set_audio_start_time ac x) = x)
    by (by destruct ac).
  assert (Hae : forall x, allowed_error (set_audio_start_time ac x)
                          = allowed_error ac) by (by destruct ac).
  unfold with_audio_clock. rewrite !Hst, Hal, Har.
  split; (split; [lia|]); rewrite audio_sync_unfold;
    destruct (Z.eqb_spec (best_effort_timestamp frame) AV_NOPTS_VALUE) as [?|_];
    try done; cbn [negb]; cbv zeta;
    rewrite Hstb, Htb, Hst, Hae, Hp.
  - rewrite (to_int64_id (clock - (clock + -60))) by range.
    rewrite (to_int64_id (clock - (clock + -60) + nb_samples frame)) by range.
    rewrite (to_int_id (- allowed_error ac)) by range.
    destruct (Z.leb_spec (clock - (clock + -60) + nb_samples frame) 0); [lia|].
    destruct (Z.ltb_spec (clock - (clock + -60)) (- allowed_error ac)); [lia|].
    destruct (Z.ltb_spec (allowed_error ac) (clock - (clock + -60))); [lia|].
    done.
  - rewrite (to_int64_id (clock - (clock + 60))) by range.
    rewrite (to_int64_id (clock - (clock + 60) + nb_samples frame)) by range.
    rewrite (to_int_id (- allowed_error ac)) by range.
    destruct (Z.leb_spec (nb_samples frame) 60);
      destruct (Z.leb_spec (clock - (clock + 60) + nb_samples frame) 0);
      try lia; [done|].
    destruct (Z.ltb_spec (clock - (clock + 60)) (- allowed_error ac)); [lia|].
    destruct (Z.ltb_spec (allowed_error ac) (clock - (clock + 60))); [lia|].
    done.
Qed.

End SeekFacts.

(** ** Stream selection *)

Lemma first_stream_cons f st rest :
  first_stream f (st :: rest)
  = if f st then Some 0 else (fun k => 1 + k) <$> first_stream f rest.
Proof.
  unfold first_stream. cbn [list_find].
  destruct (f st) eqn:Hf.
  - by rewrite decide_True.
  - rewrite decide_False; [|by intros []].
    destruct (list_find _ rest) as [[k y]|]; [|done].
    simpl. f_equal. lia.
Qed.

(** The loop from index [i] on: a pointer that is set stays, one that
    is NULL gets the first match among the streams that are left. *)
Lemma select_loop_spec nb audio tx sub streams : forall i v a s,
  0 <= i -> i + Z.of_nat (length streams) <= INT_MAX ->
  select_loop nb audio tx sub i streams (v, a, s)
  = (match v with
     | Some _ => v
     | None => (fun k => i + k) <$> first_stream is_video streams
     end,
     match a with
     | Some _ => a
     | None =>
         if audio then (fun k => i + k) <$> first_stream has_audio streams
         else None
     end,
     match s with
     | Some _ => s
     | None =>
         (fun k => subtitle_index nb sub (i + k)) <$> first_stream is_subtitle streams
     end).
Proof.
  induction streams as [|st rest IH]; intros i v a s Hi Hlen.
  - cbn [select_loop]. unfold first_stream. simpl.
    destruct v, a, s, audio; done.
  - cbn [select_loop length] in *.
    rewrite to_int_id by range.
    assert (Hshift : forall (g : Z -> Z) (o : option Z),
              (fun k => g (i + 1 + k)) <$> o
              = (fun k => g (i + k)) <$> ((fun k => 1 + k) <$> o)).
    { intros g [k|]; [|done]. simpl. do 2 f_equal. lia. }
    rewrite !first_stream_cons.
    unfold select_stream, is_video, has_audio, is_subtitle.
    destruct st as [ty ch]. cbn [codec_type st_nb_channels].
    destruct ty; cbn [bool_decide decide_rel andb]; simpl bool_decide;
      rewrite ?andb_false_r, ?andb_true_r; cbn [andb];
      destruct v as [v|], a as [a|], s as [s|], audio;
      cbn [bool_decide andb orb negb]; simpl;
      try destruct (Z.leb_spec ch 0); try destruct (Z.ltb_spec 0 ch); try lia;
      rewrite IH by lia; simpl;
      rewrite ?(Hshift (fun k => k)), ?(Hshift (subtitle_index nb sub));
      rewrite ?Z.add_0_r; try reflexivity.
Qed.

Lemma select_streams_spec streams audio tx sub :
  Z.of_nat (length streams) <= INT_MAX ->
  select_streams streams audio tx sub
  = (first_stream is_video streams,
     if audio then first_stream has_audio streams else None,
     (fun k => subtitle_index (Z.of_nat (length streams)) sub k)
       <$> first_stream is_subtitle streams).
Proof.
  intros Hlen. unfold select_streams.
  rewrite select_loop_spec by lia.
  assert (Hid : forall o : option Z, (fun k => 0 + k) <$> o = o).
  { by intros [k|]. }
  assert (Hsub : forall o : option Z,
            (fun k => subtitle_index (Z.of_nat (length streams)) sub (0 + k)) <$> o
            = (fun k => subtitle_index (Z.of_nat (length streams)) sub k) <$> o).
  { by intros [k|]. }
  rewrite !Hid, Hsub. reflexivity.
Qed.

(** The first video stream and the first audio stream with a channel
    are selected.  The loop leaves in [video_stream] the first stream
    of type video and in [audio_stream], if audio is wanted, the first
    stream of type audio that has at least one channel, audio streams
    without channels being passed over; the three searches do not
    disturb each other.  [av_ffmpeg_open] gives up with "No video or
    audio streams found" exactly when there is neither. *)
Theorem first_video_and_audio_streams_are_selected streams audio tx sub :
  Z.of_nat (length streams) <= INT_MAX ->
  (select_streams streams audio tx sub).1.1 = first_stream is_video streams /\
  (select_streams streams audio tx sub).1.2
  = (if audio then first_stream has_audio streams else None) /\
  (open_streams streams audio tx sub = None
   <-> first_stream is_video streams = None /\
       (audio = false \/ first_stream has_audio streams = None)).
Proof.
  intros Hlen. unfold open_streams.
  rewrite select_streams_spec by done. cbn [fst snd].
  split; [done|]. split; [done|].
  destruct (first_stream is_video streams) as [v|].
  { split; [done|]. by intros [? _]. }
  destruct audio.
  - destruct (first_stream has_audio streams) as [a|].
    + split; [done|]. by intros [_ [?|?]].
    + split; [|done]. intros _. split; [done|]. by right.
  - split; [|done]. intros _. split; [done|]. by left.
Qed.

Lemma subtitle_index_in_range nb c i :
  0 <= i -> in_int c ->
  subtitle_index nb c i = if (i <=? c) && (c <? nb) then c else i.
Proof.
  intros Hi Hc. unfold subtitle_index.
  destruct (Z.leb_spec i c); [|done]. cbn [andb].
  unfold to_uint. rewrite Z.mod_small; [done|]. range.
Qed.

(** The choice of the subtitle stream.  The index computed from
    [conf.txsubtitles] is overwritten at once, so that option has no
    part in the selection.  With [i0] the first stream of type
    subtitle and [c] the value of [conf.subtitles]: the stream taken is
    stream [c] if [c] is at least [i0] and below the number of streams,
    and stream [i0] otherwise; the type of stream [c] is not looked at.
    Without a stream of type subtitle none is taken. *)
Theorem subtitle_stream_is_chosen_by_number streams audio tx sub :
  Z.of_nat (length streams) <= INT_MAX -> in_int sub ->
  select_streams streams audio tx sub = select_streams streams audio 0 sub /\
  (select_streams streams audio tx sub).2
  = match first_stream is_subtitle streams with
    | None => None
    | Some i0 =>
        Some (if (i0 <=? sub) && (sub <? Z.of_nat (length streams))
              then sub else i0)
    end.
Proof.
  intros Hlen Hsub. rewrite !select_streams_spec by done.
  split; [done|]. cbn [snd].
  destruct (first_stream is_subtitle streams) as [i0|] eqn:Hf; [|done].
  simpl. f_equal. apply subtitle_index_in_range; [|done].
  unfold first_stream in Hf.
  destruct (list_find _ streams) as [[k y]|]; [|done].
  injection Hf as <-. simpl. lia.
Qed.

Lemma first_video_and_audio_streams_are_selected_witness :
  (select_streams streams_example true 0 0).1.1
  = first_stream is_video streams_example /\
  (select_streams streams_example true 0 0).1.2
  = (if true then first_stream has_audio streams_example else None) /\
  (open_streams streams_example true 0 0 = None
   <-> first_stream is_video streams_example = None /\
       (true = false \/ first_stream has_audio streams_example = None)).
Proof.
  apply (first_video_and_audio_streams_are_selected streams_example true 0 0).
  by vm_compute.
Defined.

Lemma subtitle_stream_is_chosen_by_number_witness :
  select_streams streams_example true 3 5 = select_streams streams_example true 0 5 /\
  (select_streams streams_example true 3 5).2
  = match first_stream is_subtitle streams_example with
    | None => None
    | Some i0 =>
        Some (if (i0 <=? 5) && (5 <? Z.of_nat (length streams_example))
              then 5 else i0)
    end.
Proof.
  apply (subtitle_stream_is_chosen_by_number streams_example true 3 5).
  - by vm_compute.
  - by vm_compute.
Defined.

(** ** The workers and threads on concrete inputs *)

Lemma video_clock_counts_publishes_witness :
  let r := _video_scaler_thread av_rescale_q_near video_rounds_example video_ctx_90k in
  r.1.1 = Some tt /\
  video_start_time r.1.2
  = to_int64 (video_start_time video_ctx_90k
              + Z.of_nat (length (video_publishes r.2))) /\
  video_settings r.1.2 = video_settings video_ctx_90k /\
  (length (video_scales r.2) + video_skips r.2)%nat = length video_rounds_example /\
  sublist (video_scales r.2) (video_rounds_example.*1) /\
  length (filter (fun x => x = 0) (video_publishes r.2)) = length (video_scales r.2).
Proof.
  apply (video_clock_counts_publishes av_rescale_q_near video_rounds_example
           video_ctx_90k).
  - by vm_compute.
  - repeat (apply Forall_cons; split; [reflexivity|]). by apply Forall_nil.
Defined.

Lemma video_clock_follows_time_stamps_witness :
  let p := av_rescale_q_near (best_effort_timestamp (video_frame 18000 square))
             (video_stream_time_base video_ctx_90k) (video_time_base video_ctx_90k) in
  (p < video_start_time video_ctx_90k ->
   video_scaler_frame av_rescale_q_near (video_frame 18000 square) true video_ctx_90k
   = (Some tt, video_ctx_90k, [VUnref])) /\
  (video_start_time video_ctx_90k <= p ->
   video_hooks_defined video_ctx_90k (video_frame 18000 square) true = true ->
   exists av' t,
     video_scaler_frame av_rescale_q_near (video_frame 18000 square) true video_ctx_90k
     = (Some tt, av', t) /\
     video_start_time av' = p + 1 /\
     video_settings av' = video_settings video_ctx_90k /\
     video_publishes t
     = replicate (Z.to_nat (p - video_start_time video_ctx_90k)) 1 ++ [0] /\
     video_scales t = [video_frame 18000 square]).
Proof.
  apply (video_clock_follows_time_stamps av_rescale_q_near
           (video_frame 18000 square) true video_ctx_90k).
  - by vm_compute.
  - by vm_compute.
  - by vm_compute.
  - by vm_compute.
Defined.

Lemma subtitle_division_ends_video_worker_witness :
  den (video_stream_time_base video_ctx_25_text) ÷ 1000 = 0 /\
  video_subtitle_time video_ctx_25_text (video_frame 0 square) = None /\
  exists k av' t,
    _video_scaler_thread av_rescale_q_near
      ((video_frame 0 square, true) :: [(video_frame 1 square, true)])
      video_ctx_25_text
    = (None, av', t) /\
    video_publishes t = replicate k 1 /\
    video_start_time av'
    = to_int64 (video_start_time video_ctx_25_text + Z.of_nat k) /\
    video_settings av' = video_settings video_ctx_25_text /\
    video_scales t = [video_frame 0 square] /\
    Forall (fun e => e <> VRelease /\ e <> VAbort) t.
Proof.
  apply (subtitle_division_ends_video_worker av_rescale_q_near
           (video_frame 0 square) [(video_frame 1 square, true)] video_ctx_25_text).
  - by vm_compute.
  - reflexivity.
  - by vm_compute.
  - right. by vm_compute.
Defined.

Lemma audio_samples_offered_once_witness :
  let t := [ABackBuffer; AConvert 640 (Some [1000; 9000]) 1024; APublish 0 640;
            ABackBuffer; AConvert 640 None 0; APublish 0 (-22)] in
  audio_converts t
  = (if negb (1024 =? 0) then Some [1000; 9000] else None, 1024)
      :: replicate (length (audio_converts t) - 1) (None, 0) /\
  (([640; -22; 7] = audio_published t ++ 0 :: [7]
    /\ Forall (fun r => 0 < r) (audio_published t))
   \/ (exists ps r, audio_published t = ps ++ [r] /\ r < 0 /\
         Forall (fun r => 0 < r) ps /\ [640; -22; 7] = audio_published t ++ [7])) /\
  audio_ctx_48k 1024
  = match audio_published t with
    | [] => audio_ctx_48k 0
    | _ :: _ =>
        set_audio_start_time (audio_ctx_48k 0)
          (to_int64 (audio_start_time (audio_ctx_48k 0) + 1024))
    end.
Proof.
  apply (audio_samples_offered_once [640; -22; 7] [1000; 9000] 1024
           (audio_ctx_48k 0) [7] (audio_ctx_48k 1024)).
  - by vm_compute.
  - reflexivity.
Defined.

Lemma audio_clock_follows_time_stamps_witness :
  let p := av_rescale_q_near (best_effort_timestamp (audio_frame 0))
             (audio_stream_time_base (audio_ctx_48k 100))
             (audio_time_base (audio_ctx_48k 100)) in
  let d := p - audio_start_time (audio_ctx_48k 100) in
  let nb := nb_samples (audio_frame 0) in
  (d + nb <= 0 ->
   audio_scaler_frame av_rescale_q_near fltp_is_planar fltp_bytes_per_sample
     [640; 284; 0] (audio_frame 0) (audio_ctx_48k 100)
   = Some ([640; 284; 0], audio_ctx_48k 100, [AUnref])) /\
  (0 < d + nb ->
   forall rest av' t,
     audio_scaler_frame av_rescale_q_near fltp_is_planar fltp_bytes_per_sample
       [640; 284; 0] (audio_frame 0) (audio_ctx_48k 100) = Some (rest, av', t) ->
     audio_published t <> [] ->
     audio_start_time av'
     = (if (d <? - allowed_error (audio_ctx_48k 100))
           || (allowed_error (audio_ctx_48k 100) <? d)
        then p + nb else audio_start_time (audio_ctx_48k 100) + nb) /\
     audio_silences t
     = (if allowed_error (audio_ctx_48k 100) <? d then [to_int d] else []) /\
     head (audio_converts t)
     = Some (Some (_audio_offset fltp_is_planar fltp_bytes_per_sample
                     (data (audio_frame 0))
                     (if d <? - allowed_error (audio_ctx_48k 100) then - d else 0)
                     (nb_channels (audio_ctx_48k 100))
                     (sample_fmt (audio_ctx_48k 100))),
             if d <? - allowed_error (audio_ctx_48k 100) then nb + d else nb)).
Proof.
  apply (audio_clock_follows_time_stamps av_rescale_q_near fltp_is_planar
           fltp_bytes_per_sample [640; 284; 0] (audio_frame 0) (audio_ctx_48k 100)).
  - by vm_compute.
  - by vm_compute.
  - by vm_compute.
  - by vm_compute.
  - by vm_compute.
Defined.

Lemma seek_keys_freeze_or_skip_video_witness :
  let clock := pull_video_start_time av_pull_opened in
  let p := av_rescale_q_near (best_effort_timestamp (video_frame 0 square))
             (video_stream_time_base video_ctx_osd) (video_time_base video_ctx_osd) in
  (pull_video_start_time (av_pull_after_key 68) = clock - 60 /\
   (video_hooks_defined video_ctx_osd (video_frame 0 square) false = true ->
    exists vc' t,
      video_scaler_frame av_rescale_q_near (video_frame 0 square) false
        (with_video_clock video_ctx_osd (av_pull_after_key 68))
      = (Some tt, vc', t) /\
      video_start_time vc' = p + 1 /\
      video_settings vc' = video_settings video_ctx_osd /\
      video_publishes t = replicate (Z.to_nat (p - clock + 60)) 1 ++ [0] /\
      video_scales t = [video_frame 0 square]))
  /\
  (pull_video_start_time (av_pull_after_key 67) = clock + 60 /\
   (p < clock + 60 ->
    video_scaler_frame av_rescale_q_near (video_frame 0 square) false
      (with_video_clock video_ctx_osd (av_pull_after_key 67))
    = (Some tt, with_video_clock video_ctx_osd (av_pull_after_key 67), [VUnref]))).
Proof.
  apply (seek_keys_freeze_or_skip_video av_rescale_q_near video_ctx_osd
           av_pull_opened (av_pull_after_key 68) (av_pull_after_key 67)
           1800000000 1800000000 (video_frame 0 square) false).
  - by eexists.
  - reflexivity.
  - reflexivity.
  - by vm_compute.
  - by vm_compute.
  - by vm_compute.
Defined.

Lemma seek_keys_shift_audio_within_tolerance_witness :
  let clock := pull_audio_start_time av_pull_opened in
  (audio_start_time (with_audio_clock audio_ctx_48k_open (av_pull_after_key 68))
   = clock - 60 /\
   audio_sync av_rescale_q_near audio_frame_short
     (with_audio_clock audio_ctx_48k_open (av_pull_after_key 68))
   = (AFeed 0, with_audio_clock audio_ctx_48k_open (av_pull_after_key 68), []))
  /\
  (audio_start_time (with_audio_clock audio_ctx_48k_open (av_pull_after_key 67))
   = clock + 60 /\
   audio_sync av_rescale_q_near audio_frame_short
     (with_audio_clock audio_ctx_48k_open (av_pull_after_key 67))
   = if nb_samples audio_frame_short <=? 60
     then (ASkip, with_audio_clock audio_ctx_48k_open (av_pull_after_key 67),
           [AUnref])
     else (AFeed 0, with_audio_clock audio_ctx_48k_open (av_pull_after_key 67), [])).
Proof.
  apply (seek_keys_shift_audio_within_tolerance av_rescale_q_near audio_ctx_48k_open
           av_pull_opened (av_pull_after_key 68) (av_pull_after_key 67)
           1800000000 1800000000 audio_frame_short).
  - by eexists.
  - reflexivity.
  - reflexivity.
  - by vm_compute.
  - by vm_compute.
  - by vm_compute.
  - by vm_compute.
  - by vm_compute.
Defined.

Lemma input_thread_routes_every_packet_witness :
  exists subs av',
    _input_thread sizeof_item_example malloc_example reads_example
      av_pull_opened true [] av_opened = Ret subs av' /\
    (forall j,
       let l := (fun _ : queue_id => []) j
                ++ filter (fun p => routed_to av_pull_opened j p)
                     (input_packets reads_example) in
       exists s,
         read_all sizeof_item_example av' j (length l) = Some (l, s) /\
         _packet_queue_read sizeof_item_example s j = Ret (-1, None) s) /\
    unreffed av'
    = unreffed av_opened
      ++ filter (fun p => not_routed av_pull_opened p) (input_packets reads_example) /\
    subs = (if true
            then filter (fun p => stream_is (subtitle_stream av_pull_opened) p)
                   (filter (fun p => not_routed av_pull_opened p)
                      (input_packets reads_example))
            else []).
Proof.
  apply (input_thread_routes_every_packet sizeof_item_example
           sizeof_item_example_bounds malloc_example malloc_example_unused
           av_pull_opened true reads_example av_opened
           (fun _ => []) (fun _ => []) (init_inv sizeof_item_example av_zeroed)).
  - by intros [].
  - reflexivity.
  - cbn. packets_ok.
  - intros []; by vm_compute.
Defined.

Lemma input_thread_after_abort_only_releases_witness :
  exists subs' av',
    _input_thread sizeof_item_example malloc_example reads_example
      av_pull_opened true [] av_closed = Ret subs' av' /\
    heap av' = heap av_closed /\
    unreffed av' = unreffed av_closed ++ input_packets reads_example /\
    forall j, get_queue av' j = set_eof (get_queue av_closed j) 1.
Proof.
  apply (input_thread_after_abort_only_releases sizeof_item_example
           malloc_example av_pull_opened true reads_example [] av_closed).
  by intros [].
Defined.

Lemma stalled_read_sends_stale_packet_witness :
  exists cont pkt' ppkt' t,
    decode_round sizeof_item_example false AudioQ 0 AVERROR_EAGAIN PktUninit false
      av_video_stalled
    = Ret (cont, pkt', ppkt', DSend (Some PktUninit) :: t) av_video_stalled /\
    (0 <> AVERROR_EAGAIN -> head t = Some (DUnref PktUninit) /\ pkt' = PktBlank).
Proof.
  apply (stalled_read_sends_stale_packet sizeof_item_example false AudioQ
           0 AVERROR_EAGAIN PktUninit av_video_stalled).
  - reflexivity.
  - by vm_compute.
  - by left.
Defined.

Lemma av_queued_eof_inv :
  queues_inv sizeof_item_example av_queued_eof av_queued_addrs av_queued_pkts.
Proof.
  destruct (input_thread_end_spec sizeof_item_example malloc_example tt av_queued
              av_queued_addrs av_queued_pkts av_queued_inv)
    as (av' & Hend & Hinv & _).
  unfold av_queued_eof.
  replace (input_thread_end sizeof_item_example malloc_example tt av_queued)
    with (Ret tt av' : outcome av_queues unit).
  exact Hinv.
Qed.

Lemma decoder_gets_packets_in_queue_order_witness :
  decode_released decode_example.1 `prefix_of` av_queued_pkts VideoQ /\
  unreffed decode_example.2
  = unreffed av_queued_eof ++ decode_released decode_example.1 /\
  Forall (null_or_queued (av_queued_pkts VideoQ)) (decode_sent decode_example.1).
Proof.
  apply (decoder_gets_packets_in_queue_order sizeof_item_example
           sizeof_item_example_bounds true VideoQ rounds_example
           av_queued_eof av_queued_addrs av_queued_pkts
           decode_example.1 decode_example.2 av_queued_eof_inv).
  - reflexivity.
  - reflexivity.
  - reflexivity.
  - by vm_compute.
Defined.

